(* ===================================================================== *)
(* rcube iOS client: wind field decoding, forecast cache, time index     *)
(* resolution, wind-barb glyphs and route playback.                      *)
(*                                                                       *)
(* Shallow embedding of grib.js, route.js and the wind layer, with the   *)
(* properties of the specification stated and proved over it.            *)
(* ===================================================================== *)

From stdpp Require Import gmap strings list pretty.
From Stdlib Require Import QArith Qround Lqa.
From Stdlib.Strings Require Byte.
From Stdlib Require Import Ascii.

Local Open Scope Z_scope.

(* ===================================================================== *)
(* 1. Wind layer: resolving an epoch to a forecast time index            *)
(* ===================================================================== *)

(* JavaScript numbers are idealised as rationals.  A value that may be
   [undefined] (an array read out of range) or NaN (arithmetic on it) is an
   [option Q] with [None] for both: every comparison with it is false. *)
Module TimeIndex.

Definition number := option Q.

Definition num_sub (a b : number) : number :=
  match a, b with
  | Some x, Some y => Some (x - y)%Q
  | _, _ => None
  end.

(* a < b *)
Definition num_lt (a b : number) : bool :=
  match a, b with
  | Some x, Some y => negb (Qle_bool y x)
  | _, _ => false
  end.

(* a === b *)
Definition num_eq (a b : number) : bool :=
  match a, b with
  | Some x, Some y => Qeq_bool x y
  | _, _ => false
  end.

(* The part of the GRIB meta the wind layer reads. *)
Record GribLimits := {
  epochStart : Q;
  timeStamps : list Q;
  nTimeStamp : Z
}.

(* ts[i] for an integer index i *)
Definition at_index (ts : list Q) (i : Z) : number :=
  if i <? 0 then None else ts !! Z.to_nat i.

(* The body of [for (let k = 0; k < n; k++)]: [left] iterations remain. *)
Fixpoint scan (ts : list Q) (n : Z) (tHours : Q) (k : Z) (left : nat) : Z * Z :=
  match left with
  | O => (n - 1, n - 1)
  | S left' =>
      if num_eq (Some tHours) (at_index ts k) then (k, k)
      else if num_lt (Some tHours) (at_index ts k) then (k - 1, k)
      else scan ts n tHours (k + 1) left'
  end.

(* findTimeAround: returns (iTInf, iTSup).  [tHours] is finite here, so the
   [!Number.isFinite] half of the guard never fires. *)
Definition findTimeAround (g : GribLimits) (tHours : Q) : Z * Z :=
  let ts := timeStamps g in
  let n := nTimeStamp g in
  if num_lt (Some tHours) (at_index ts 0) then (0, 0)
  else scan ts n tHours 0 (Z.to_nat n).

Definition getGribTimeIndexFromEpoch (g : GribLimits) (currentEpoch : Q) : Z :=
  let diffHours := ((currentEpoch - epochStart g) / 3600)%Q in
  let '(iTInf, iTSup) := findTimeAround g diffHours in
  if num_lt (num_sub (at_index (timeStamps g) iTSup) (Some diffHours))
            (num_sub (Some diffHours) (at_index (timeStamps g) iTInf))
  then iTSup else iTInf.

(* Meta invariants of the data model. *)
Definition strictly_increasing (ts : list Q) : Prop :=
  forall (i j : nat) (x y : Q),
    ts !! i = Some x -> ts !! j = Some y -> (i < j)%nat -> (x < y)%Q.

Definition well_formed (g : GribLimits) : Prop :=
  nTimeStamp g = Z.of_nat (length (timeStamps g)) /\
  strictly_increasing (timeStamps g).

End TimeIndex.

(* ===================================================================== *)
(* 2. grib.js: decoding the binary dump                                  *)
(* ===================================================================== *)

Module Grib.

(* Grid counts and indices are integer-valued JavaScript numbers; [None] is
   NaN, which is what arithmetic on an absent meta field produces. *)
Definition num := option Z.

Definition num_mul (a b : num) : num :=
  match a, b with
  | Some x, Some y => Some (x * y)
  | _, _ => None
  end.

Definition num_add (a b : num) : num :=
  match a, b with
  | Some x, Some y => Some (x + y)
  | _, _ => None
  end.

(* a === b on numbers: false as soon as one side is NaN *)
Definition num_eqb (a b : num) : bool :=
  match a, b with
  | Some x, Some y => x =? y
  | _, _ => false
  end.

(* A 32-bit float is carried as its bit pattern: the decoder only moves
   floats around, it never computes with them.  Pattern 0 is +0. *)
Definition float32 := Z.

Definition le32 (b0 b1 b2 b3 : Byte.byte) : float32 :=
  Z.of_N (Byte.to_N b0) + Z.of_N (Byte.to_N b1) * 2 ^ 8 +
  Z.of_N (Byte.to_N b2) * 2 ^ 16 + Z.of_N (Byte.to_N b3) * 2 ^ 24.

Fixpoint float32_words (buf : list Byte.byte) : list float32 :=
  match buf with
  | b0 :: b1 :: b2 :: b3 :: rest => le32 b0 b1 b2 b3 :: float32_words rest
  | _ => []
  end.

(* [new Float32Array(buf)]: a RangeError ([None]) unless the byte length is
   a multiple of 4. *)
Definition Float32Array (buf : list Byte.byte) : option (list float32) :=
  if (length buf mod 4 =? 0)%nat then Some (float32_words buf) else None.

(* values[idx]: [None] is undefined, the result of any read out of range. *)
Definition typed_get (values : list float32) (idx : num) : option float32 :=
  match idx with
  | Some i => if i <? 0 then None else values !! Z.to_nat i
  | None => None
  end.

(* str.includes(c) for a one-character needle *)
Definition includes (str : string) (c : Ascii.ascii) : bool :=
  existsb (Ascii.eqb c) (String.list_ascii_of_string str).

Inductive jsval :=
| JNull
| JBool (b : bool)
| JNum (n : Z)
| JStr (s : string)
| JArr (l : list Z).

Inductive error :=
| HttpError (who : string) (status : Z)
| MissingHeader
| RangeError
| UnexpectedSize (got : Z) (expected : num)
| ServerMetaError (e : jsval)
| EmptyMeta
| JsonError.

Inductive result (A : Type) :=
| Ok (a : A)
| Throw (e : error).
Arguments Ok {A} a.
Arguments Throw {A} e.

(* The response to the REQ.GRIB_DUMP request, once its body has been read. *)
Record DumpResponse := {
  dump_ok : bool;
  dump_status : Z;
  dump_shortnames : option string;   (* the X-Shortnames header *)
  dump_body : list Byte.byte
}.

(* The object returned by gribLoad, with what its two closures capture. *)
Record GribField := {
  values : list float32;
  nLat : num;
  nLon : num;
  nTime : num;
  nShortName : Z;
  shortnames : string;
  hasG : bool;
  hasW : bool
}.

Definition componentCount (shortnamesStr : string) : Z :=
  2 + (if includes shortnamesStr "g"%char then 1 else 0)
    + (if includes shortnamesStr "w"%char then 1 else 0).

Definition expectedSize (nTime nLat nLon : num) (nShortName : Z) : num :=
  num_mul (num_mul (num_mul nTime nLat) nLon) (Some nShortName).

(* gribLoad from the point where the response has arrived.  [nName] only
   feeds a console warning. *)
Definition gribLoad (res : DumpResponse) (nTime nLat nLon nName : num)
  : result GribField :=
  if negb (dump_ok res) then Throw (HttpError "gribLoad" (dump_status res))
  else
    match dump_shortnames res with
    | None | Some EmptyString => Throw MissingHeader
    | Some shortnamesStr =>
        let nShortName := componentCount shortnamesStr in
        match Float32Array (dump_body res) with
        | None => Throw RangeError
        | Some values =>
            let expected := expectedSize nTime nLat nLon nShortName in
            if negb (num_eqb (Some (Z.of_nat (length values))) expected)
            then Throw (UnexpectedSize (Z.of_nat (length values)) expected)
            else Ok {| values := values; nLat := nLat; nLon := nLon; nTime := nTime;
                       nShortName := nShortName; shortnames := shortnamesStr;
                       hasG := includes shortnamesStr "g"%char;
                       hasW := includes shortnamesStr "w"%char |}
        end
    end.

Definition indexOf (f : GribField) (tIndex iLat iLon : Z) : num :=
  num_mul
    (num_add (num_mul (num_add (num_mul (Some tIndex) (nLat f)) (Some iLat)) (nLon f))
             (Some iLon))
    (Some (nShortName f)).

Record UVGW := { u : option float32; v : option float32;
                 g : option float32; w : option float32 }.

Definition getUVGW (f : GribField) (tIndex iLat iLon : Z) : UVGW :=
  let idx := indexOf f tIndex iLat iLon in
  let u := typed_get (values f) idx in
  let v := typed_get (values f) (num_add idx (Some 1)) in
  let g := if hasG f then typed_get (values f) (num_add idx (Some 2)) else Some 0 in
  let offset := if hasG f then 2 + 1 else 2 in
  let w := if hasW f then typed_get (values f) (num_add idx (Some offset)) else Some 0 in
  {| u := u; v := v; g := g; w := w |}.

(* Number of floats a body of bytes holds. *)
Definition floatCount (buf : list Byte.byte) : Z := Z.of_nat (length buf / 4).

End Grib.

(* ===================================================================== *)
(* 3. grib.js: the forecast cache and its asynchronous loads             *)
(* ===================================================================== *)

(* The globals of grib.js are one [World]: the cache object, the shared
   meta object [gribLimits], the variable [dataGrib], the field objects
   created so far and the requests sent so far.  An async call runs until
   it returns, throws or waits; what it waits for is handed to it by a
   later step.  A network exchange (fetch, then reading the body) is one
   wait, and the hop by which a finished async function hands its result to
   the function awaiting it is part of the step that finishes it: nothing
   shared is read or written in between.  The server's JSON follows the
   GribMeta typedef: a count that is present is a number. *)
Module Cache.
Import Grib.

(* obj.prop used as a condition; [None] is undefined *)
Definition truthy (v : option jsval) : bool :=
  match v with
  | None | Some JNull => false
  | Some (JBool b) => b
  | Some (JNum n) => negb (n =? 0)
  | Some (JStr s) => negb (String.eqb s "")
  | Some (JArr _) => true
  end.

(* obj.prop used as a number *)
Definition toNum (v : option jsval) : num :=
  match v with
  | Some (JNum n) => Some n
  | _ => None
  end.

(* `${v}` *)
Definition toString (v : jsval) : string :=
  match v with
  | JNull => "null"
  | JBool true => "true"
  | JBool false => "false"
  | JNum n => pretty n
  | JStr s => s
  | JArr l => String.concat "," (map pretty l)
  end.

(* cache.meta is null, undefined, or the one shared object gribLimits *)
Inductive metaRef := MetaNull | MetaUndefined | MetaGribLimits.

(* A field reference: null, undefined, the initial {} of dataGrib, or the
   id-th object created by gribLoad. *)
Inductive fieldRef := FieldNull | FieldUndefined | FieldEmptyObject | FieldAt (id : nat).

Record GribCache := {
  key : option string;
  meta : metaRef;
  field : fieldRef;
  loading : bool
}.

Inductive Request :=
| ReqGrib (gribParam : string)
| ReqGribDump (gribParam : string) (onlyUV : bool).

Record World := {
  gribCache : GribCache;
  gribLimits : gmap string jsval;
  dataGrib : fieldRef;
  fields : list GribField;
  requests : list Request
}.

Definition initial : World :=
  {| gribCache := {| key := None; meta := MetaNull; field := FieldNull; loading := false |};
     gribLimits := ∅;
     dataGrib := FieldEmptyObject;
     fields := [];
     requests := [] |}.

Definition with_cache (c : GribCache) (w : World) : World :=
  {| gribCache := c; gribLimits := gribLimits w; dataGrib := dataGrib w;
     fields := fields w; requests := requests w |}.

Definition set_loading (b : bool) (w : World) : World :=
  with_cache {| key := key (gribCache w); meta := meta (gribCache w);
                field := field (gribCache w); loading := b |} w.

Definition fetch (r : Request) (w : World) : World :=
  {| gribCache := gribCache w; gribLimits := gribLimits w; dataGrib := dataGrib w;
     fields := fields w; requests := requests w ++ [r] |}.

(* The response to the REQ.GRIB request; [None] when the body does not
   parse to a JSON object. *)
Record MetaResponse := {
  meta_ok : bool;
  meta_status : Z;
  meta_json : option (gmap string jsval)
}.

(* `${model}/${name}?onlyUV=${onlyUV ? 1 : 0}` *)
Definition cacheKey (model name : string) (onlyUV : bool) : string :=
  model +:+ "/" +:+ name +:+ "?onlyUV=" +:+ (if onlyUV then "1" else "0").

(* ---- gribMetaAndLoad ---- *)

Inductive metaProgress :=
| ReturnsFalse
| MetaReturns (m : metaRef) (f : fieldRef)
| MetaThrows (e : error)
| WaitsForMeta
| WaitsForDump (data : gmap string jsval).

Definition metaGribParam (dir model gribName : string) : option string :=
  if negb (String.eqb model "") then Some ("model=" +:+ model)
  else if String.eqb gribName "" then None
  else if String.prefix "grib/" gribName || String.prefix "currentgrib/" gribName
       then Some ("grib=" +:+ gribName)
       else Some ("grib=" +:+ dir +:+ "/" +:+ gribName).

Definition dumpGribParam (dir model gribName : string) : string :=
  if negb (String.eqb model "") then "model=" +:+ model
  else "grib=" +:+ dir +:+ "/" +:+ gribName.

(* up to the first fetch *)
Definition gribMetaAndLoad (dir model gribName : string) (w : World)
  : World * metaProgress :=
  match metaGribParam dir model gribName with
  | None => (w, ReturnsFalse)
  | Some gribParam => (fetch (ReqGrib gribParam) w, WaitsForMeta)
  end.

Definition assign (data : gmap string jsval) (w : World) : World :=
  {| gribCache := gribCache w; gribLimits := data ∪ gribLimits w;
     dataGrib := dataGrib w; fields := fields w; requests := requests w |}.

(* dataGrib = field, for a field object just created *)
Definition store_field (f : GribField) (w : World) : World :=
  {| gribCache := gribCache w; gribLimits := gribLimits w;
     dataGrib := FieldAt (length (fields w));
     fields := fields w ++ [f]; requests := requests w |}.

(* from the meta response to the second fetch, or to the return *)
Definition gribMetaAndLoad_meta (dir model gribName : string) (load onlyUV : bool)
    (response : MetaResponse) (w : World) : World * metaProgress :=
  if negb (meta_ok response)
  then (w, MetaThrows (HttpError "gribMetaAndLoad" (meta_status response)))
  else
    match meta_json response with
    | None => (w, MetaThrows JsonError)
    | Some data =>
        if truthy (data !! "_Error")
        then (w, MetaThrows (ServerMetaError (default JNull (data !! "_Error"))))
        else if bool_decide (size data = 0%nat) then (w, MetaThrows EmptyMeta)
        else
          let w1 := assign data w in
          if load
          then (fetch (ReqGribDump (dumpGribParam dir model gribName) onlyUV) w1,
                WaitsForDump data)
          else (w1, MetaReturns MetaGribLimits (dataGrib w1))
    end.

(* from the dump response to the return *)
Definition gribMetaAndLoad_dump (data : gmap string jsval) (res : DumpResponse)
    (w : World) : World * metaProgress :=
  match gribLoad res (toNum (data !! "nTimeStamp")) (toNum (data !! "nLat"))
                 (toNum (data !! "nLon")) (toNum (data !! "nShortName")) with
  | Throw e => (w, MetaThrows e)
  | Ok f =>
      let w1 := store_field f w in
      (w1, MetaReturns MetaGribLimits (dataGrib w1))
  end.

(* ---- ensureGribLoaded and forceReloadGrib ---- *)

(* What a suspended ensureGribLoaded call waits for: the meta response, the
   dump response, or only the promise of a gribMetaAndLoad that had nothing
   to fetch and has already resolved to false. *)
Inductive pending :=
| AwaitMeta (model gribName : string) (onlyUV : bool)
| AwaitDump (model gribName : string) (onlyUV : bool) (data : gmap string jsval)
| AwaitFalse (model gribName : string) (onlyUV : bool).

Inductive outcome :=
| Returns (m : metaRef) (f : fieldRef)
| Throws (e : error).

Inductive progress :=
| Done (o : outcome)
| Suspended (p : pending).

(* cache.meta as a condition *)
Definition present (m : metaRef) : bool :=
  match m with MetaGribLimits => true | _ => false end.

(* cache.field && cache.field.getUVGW *)
Definition has_getUVGW (f : fieldRef) : bool :=
  match f with FieldAt _ => true | _ => false end.

(* (meta && meta.name) ? meta.name : (gribNameOptional || "") *)
Definition realName (m : metaRef) (gribName : string) (w : World) : string :=
  match m with
  | MetaGribLimits =>
      match gribLimits w !! "name" with
      | Some n => if truthy (Some n) then toString n else gribName
      | None => gribName
      end
  | _ => gribName
  end.

(* the three assignments of the try block, then the finally block *)
Definition commit (model gribName : string) (onlyUV : bool) (m : metaRef) (f : fieldRef)
    (w : World) : World :=
  with_cache {| key := Some (cacheKey model (realName m gribName w) onlyUV);
                meta := m; field := f; loading := false |} w.

(* ensureGribLoaded around one step of gribMetaAndLoad: it keeps waiting,
   commits the result, or only runs its finally block. *)
Definition ensure_around (model gribName : string) (onlyUV : bool)
    (r : World * metaProgress) : World * progress :=
  match r.2 with
  | WaitsForMeta => (r.1, Suspended (AwaitMeta model gribName onlyUV))
  | WaitsForDump data => (r.1, Suspended (AwaitDump model gribName onlyUV data))
  | MetaThrows e => (set_loading false r.1, Done (Throws e))
  | MetaReturns m f => (commit model gribName onlyUV m f r.1, Done (Returns m f))
  | ReturnsFalse => (r.1, Suspended (AwaitFalse model gribName onlyUV))
  end.

Definition ensureGribLoaded (model gribNameOptional : string) (onlyUV : bool)
    (w : World) : World * progress :=
  let cache := gribCache w in
  let wantedKey := cacheKey model gribNameOptional onlyUV in
  if loading cache then (w, Done (Returns (meta cache) (field cache)))
  else if bool_decide (key cache = Some wantedKey) && present (meta cache)
          && has_getUVGW (field cache)
  then (w, Done (Returns (meta cache) (field cache)))
  else ensure_around model gribNameOptional onlyUV
         (gribMetaAndLoad "grib" model gribNameOptional (set_loading true w)).

(* the meta response reaches a call waiting for it *)
Definition onMeta (p : pending) (response : MetaResponse) (w : World)
  : option (World * progress) :=
  match p with
  | AwaitMeta model gribName onlyUV =>
      Some (ensure_around model gribName onlyUV
              (gribMetaAndLoad_meta "grib" model gribName true onlyUV response w))
  | AwaitDump _ _ _ _ | AwaitFalse _ _ _ => None
  end.

(* the dump response reaches a call waiting for it *)
Definition onDump (p : pending) (res : DumpResponse) (w : World)
  : option (World * progress) :=
  match p with
  | AwaitMeta _ _ _ | AwaitFalse _ _ _ => None
  | AwaitDump model gribName onlyUV data =>
      Some (ensure_around model gribName onlyUV (gribMetaAndLoad_dump data res w))
  end.

(* a call that awaited [false] goes on: destructuring false gives undefined
   for meta and for field *)
Definition onFalse (p : pending) (w : World) : option (World * progress) :=
  match p with
  | AwaitFalse model gribName onlyUV =>
      Some (commit model gribName onlyUV MetaUndefined FieldUndefined w,
            Done (Returns MetaUndefined FieldUndefined))
  | AwaitMeta _ _ _ | AwaitDump _ _ _ _ => None
  end.

Definition forceReloadGrib (model gribNameOptional : string) (onlyUV : bool)
    (w : World) : World * progress :=
  ensureGribLoaded model gribNameOptional onlyUV
    (with_cache {| key := None; meta := MetaNull; field := FieldNull; loading := false |} w).

(* ---- interleavings ---- *)

(* What can happen next: a caller calls in, the response a waiting call is
   suspended on arrives, or a call that awaited false resumes.  Calls are
   numbered in the order they are made. *)
Inductive event :=
| CallEnsure (model gribName : string) (onlyUV : bool)
| CallForceReload (model gribName : string) (onlyUV : bool)
| MetaArrives (call : nat) (response : MetaResponse)
| DumpArrives (call : nat) (res : DumpResponse)
| Resumes (call : nat).

Record System := { world : World; calls : list progress }.

Definition start (s : System) (r : World * progress) : System :=
  {| world := r.1; calls := calls s ++ [r.2] |}.

Definition continue (s : System) (call : nat) (r : option (World * progress)) : System :=
  match r with
  | Some (w, p) => {| world := w; calls := <[call := p]> (calls s) |}
  | None => s
  end.

Definition advance (s : System) (e : event) : System :=
  match e with
  | CallEnsure model gribName onlyUV =>
      start s (ensureGribLoaded model gribName onlyUV (world s))
  | CallForceReload model gribName onlyUV =>
      start s (forceReloadGrib model gribName onlyUV (world s))
  | MetaArrives call response =>
      match calls s !! call with
      | Some (Suspended p) => continue s call (onMeta p response (world s))
      | _ => s
      end
  | DumpArrives call res =>
      match calls s !! call with
      | Some (Suspended p) => continue s call (onDump p res (world s))
      | _ => s
      end
  | Resumes call =>
      match calls s !! call with
      | Some (Suspended p) => continue s call (onFalse p (world s))
      | _ => s
      end
  end.

Definition run (s : System) (evs : list event) : System := fold_left advance evs s.

Definition boot : System := {| world := initial; calls := [] |}.

Definition is_suspended (p : progress) : bool :=
  match p with Suspended _ => true | Done _ => false end.

(* number of loads in progress *)
Fixpoint in_flight (ps : list progress) : nat :=
  match ps with
  | [] => 0
  | p :: rest => ((if is_suspended p then 1 else 0) + in_flight rest)%nat
  end.



(* While the flag is up some call is still waiting. *)
Definition flag_has_owner (s : System) : Prop :=
  loading (gribCache (world s)) = true -> (1 <= in_flight (calls s))%nat.

(* ---- sample traffic, for running the model ---- *)

(* meta of a 1 x 1 grid with components u and v *)
Definition sampleMeta (name : string) (nTimeStamp : Z) : gmap string jsval :=
  {[ "name" := JStr name; "nTimeStamp" := JNum nTimeStamp;
     "nLat" := JNum 1; "nLon" := JNum 1; "nShortName" := JNum 2 ]}.

Definition metaOk (data : gmap string jsval) : MetaResponse :=
  {| meta_ok := true; meta_status := 200; meta_json := Some data |}.

(* a dump with header "uv" and the given number of floats, all +0 *)
Definition dumpOk (floats : nat) : DumpResponse :=
  {| dump_ok := true; dump_status := 200; dump_shortnames := Some "uv"%string;
     dump_body := repeat Byte.x00 (4 * floats) |}.

(* one complete, successful load of model GFS, file gfs.grb *)
Definition loadedGfs : System :=
  run boot [CallEnsure "GFS" "" false;
            MetaArrives 0 (metaOk (sampleMeta "gfs.grb" 1));
            DumpArrives 0 (dumpOk 2)].

End Cache.

(* ===================================================================== *)
(* 4. Wind layer: the wind-barb glyph                                    *)
(* ===================================================================== *)

(* Speeds and coordinates are rationals.  Math.sqrt has no rational model
   and the constant MS_TO_KN is defined outside the files at hand: both are
   parameters.  The canvas is the list of the operations applied to it. *)
Module WindBarb.

Inductive canvasOp :=
| beginPath
| arc (x y r : Q)          (* a full circle: from angle 0 to 2 * Math.PI *)
| moveTo (x y : Q)
| lineTo (x y : Q)
| closePath
| fill
| stroke.

(* a < b *)
Definition Qltb (a b : Q) : bool := negb (Qle_bool b a).

Definition halfShaft : Q := 9.
Definition barbLength : Q := 7.
Definition halfBarbLength : Q := barbLength * 0.5.
Definition barbSpacing : Q := 4.

(* The numbers of 50 kt pennants and 10 kt barbs and the 5 kt half-barb
   flag, from the biased speed. *)
Definition barbCounts (speedKts : Q) : Z * Z * bool :=
  let n50 := Qfloor (speedKts / 50) in
  let remainder := (speedKts - inject_Z n50 * 50)%Q in
  let n10 := Qfloor (remainder / 10) in
  let remainder := (remainder - inject_Z n10 * 10)%Q in
  let has5 := Qle_bool 5 remainder in
  (n50, n10, has5).

(* The shaft head and the two unit vectors every flag is drawn from. *)
Record frame := { headX : Q; headY : Q; dirX : Q; dirY : Q; perpX : Q; perpY : Q }.

(* one 50 kt pennant, [currentOffset] down the shaft *)
Definition pennant (fr : frame) (currentOffset : Q) : list canvasOp :=
  let baseHeadX := (headX fr - dirX fr * currentOffset)%Q in
  let baseHeadY := (headY fr - dirY fr * currentOffset)%Q in
  let baseTailX := (baseHeadX - dirX fr * barbSpacing)%Q in
  let baseTailY := (baseHeadY - dirY fr * barbSpacing)%Q in
  let tipX := (baseTailX + perpX fr * barbLength)%Q in
  let tipY := (baseTailY + perpY fr * barbLength)%Q in
  [beginPath; moveTo baseHeadX baseHeadY; lineTo baseTailX baseTailY;
   lineTo tipX tipY; closePath; fill; stroke].

(* one barb of the given length, [currentOffset] down the shaft *)
Definition barb (fr : frame) (len : Q) (currentOffset : Q) : list canvasOp :=
  let baseX := (headX fr - dirX fr * currentOffset)%Q in
  let baseY := (headY fr - dirY fr * currentOffset)%Q in
  let endX := (baseX + perpX fr * len)%Q in
  let endY := (baseY + perpY fr * len)%Q in
  [beginPath; moveTo baseX baseY; lineTo endX endY; stroke].

(* for (let i = 0; i < n; i++) { draw one; currentOffset += barbSpacing } *)
Fixpoint flags (draw : Q -> list canvasOp) (n : nat) (currentOffset : Q)
  : list canvasOp * Q :=
  match n with
  | O => ([], currentOffset)
  | S n' =>
      let r := flags draw n' (currentOffset + barbSpacing)%Q in
      (draw currentOffset ++ r.1, r.2)
  end.

Definition shaft (x y : Q) (fr : frame) : list canvasOp :=
  let tailX := (x - dirX fr * halfShaft)%Q in
  let tailY := (y - dirY fr * halfShaft)%Q in
  [beginPath; moveTo tailX tailY; lineTo (headX fr) (headY fr); stroke].

Definition calmCircle (x y : Q) : list canvasOp := [beginPath; arc x y 3; stroke].

Section Draw.
Variable MS_TO_KN : Q.
Variable sqrt : Q -> Q.

Definition windSpeedKts (u v : Q) : Q := (sqrt (u * u + v * v) * MS_TO_KN)%Q.

Definition windFrame (x y u v : Q) : frame :=
  let mag := sqrt (u * u + v * v) in
  let dirX := (- u / mag)%Q in
  let dirY := (v / mag)%Q in
  {| headX := (x + dirX * halfShaft)%Q; headY := (y + dirY * halfShaft)%Q;
     dirX := dirX; dirY := dirY; perpX := (- dirY)%Q; perpY := dirX |}.

(* [u] and [v] are finite here, so the two isFinite tests never fire. *)
Definition drawWindBarb (x y u v : Q) : list canvasOp :=
  let speedKts := windSpeedKts u v in
  if Qltb speedKts 2 then calmCircle x y
  else
    let speedKts := (speedKts + 2.5)%Q in
    let mag := sqrt (u * u + v * v) in
    if Qltb mag 0.5 then []
    else
      let fr := windFrame x y u v in
      let '(n50, n10, has5) := barbCounts speedKts in
      let p50 := flags (pennant fr) (Z.to_nat n50) 0 in
      let p10 := flags (barb fr barbLength) (Z.to_nat n10) p50.2 in
      shaft x y fr ++ p50.1 ++ p10.1 ++
      (if has5 then barb fr halfBarbLength p10.2 else []).

End Draw.

(* For running the model: a square root that is exact on the squares of
   rationals, and the usual value of the conversion factor. *)
Definition sqrtOnSquares (q : Q) : Q := Z.sqrt (Qnum q) # Pos.sqrt (Qden q).
Definition sampleMsToKn : Q := 1.94384.

End WindBarb.

(* ===================================================================== *)
(* 5. route.js: the playback controller                                  *)
(* ===================================================================== *)

(* The player closure is a record of its variables.  What it does to the
   outside (boat marker, wind layer) is appended to [out]; writes to the
   page (status text, slider, button label) and the boat's heading are
   left out: they read the state and never change it.  The index is a
   JavaScript number, hence a rational. *)
Module Player.

Record RoutePoint := { lat : Q; lon : Q; t : Q }.

Record RouteData := {
  t0Epoch : Q;
  dtRoute : Q;
  pts : list RoutePoint;
  gribName : string;
  currentGrib : string
}.

(* what windLayer.setRouteState receives *)
Record RouteState := { rs_t0Epoch : Q; rs_dtRoute : Q; rs_k : Q }.

Inductive effect :=
| SetBoatPosition (lat lon : Q)
| SetRouteState (rs : RouteState)
| Redraw.

Record State := {
  timer : bool;                 (* an interval is armed *)
  playing : bool;
  route : option RouteData;
  k : Q;
  out : list effect
}.

Definition makePlayer : State :=
  {| timer := false; playing := false; route := None; k := 0; out := [] |}.

(* how a call ends: normally, or with the TypeError of reading a property
   of undefined.  For the calls of the player this is how the call gets to
   the end of what [update] below covers. *)
Inductive completion := Returned | TypeError.

Definition Math_min (a b : Q) : Q := if Qle_bool a b then a else b.
Definition Math_max (a b : Q) : Q := if Qle_bool a b then b else a.

Definition is_integer (q : Q) : bool := Qeq_bool q (inject_Z (Qfloor q)).

(* pts[k]: [None] is undefined *)
Definition pts_at (pts : list RoutePoint) (k : Q) : option RoutePoint :=
  if is_integer k && (0 <=? Qfloor k) then pts !! Z.to_nat (Qfloor k) else None.

(* route.pts.length - 1 *)
Definition lastIndex (r : RouteData) : Q := (inject_Z (Z.of_nat (length (pts r))) - 1)%Q.

Definition set_k (q : Q) (s : State) : State :=
  {| timer := timer s; playing := playing s; route := route s; k := q; out := out s |}.

Definition emit (es : list effect) (s : State) : State :=
  {| timer := timer s; playing := playing s; route := route s; k := k s;
     out := out s ++ es |}.

(* update(), from its first line to windLayer.redraw(): all it does to the
   player's variables, to the boat marker and to the wind layer.  The status
   text it writes afterwards is PlayerStatus.statusBlock; every call of the
   player ends with update(), so the status text changes nothing of the
   state a call leaves. *)
Definition update (s : State) : State * completion :=
  match route s with
  | None => (s, Returned)
  | Some r =>
      match pts_at (pts r) (k s) with
      | None => (s, TypeError)
      | Some p =>
          (emit [SetBoatPosition (lat p) (lon p);
                 SetRouteState {| rs_t0Epoch := t0Epoch r; rs_dtRoute := dtRoute r;
                                  rs_k := k s |};
                 Redraw] s,
           Returned)
      end
  end.

Definition setIndex (newK : Q) (s : State) : State * completion :=
  match route s with
  | None => (s, Returned)
  | Some r =>
      let kk := Math_max 0 (Math_min (lastIndex r) newK) in
      update (set_k kk s)
  end.

Definition setRoute (r : RouteData) (s : State) : State * completion :=
  update {| timer := timer s; playing := playing s; route := Some r; k := 0;
            out := out s |}.

Definition stop (s : State) : State :=
  {| timer := false; playing := false; route := route s; k := k s; out := out s |}.

Definition gotoBeg (s : State) : State * completion :=
  match route s with
  | None => (s, Returned)
  | Some _ => update (stop (set_k 0 s))
  end.

Definition gotoEnd (s : State) : State * completion :=
  match route s with
  | None => (s, Returned)
  | Some r => update (stop (set_k (lastIndex r) s))
  end.

Definition step (dir : Q) (s : State) : State * completion :=
  match route s with
  | None => (s, Returned)
  | Some r => update (set_k (Math_max 0 (Math_min (lastIndex r) (k s + dir))) s)
  end.

Definition tick (s : State) : State * completion :=
  match route s with
  | None => (stop s, Returned)
  | Some r =>
      if Qle_bool (lastIndex r) (k s) then (stop s, Returned)
      else update (set_k (k s + 1) s)
  end.

Definition play (s : State) : State :=
  match route s with
  | None => s
  | Some _ =>
      if playing s then s
      else {| timer := true; playing := true; route := route s; k := k s; out := out s |}
  end.

Definition togglePlay (s : State) : State := if playing s then stop s else play s.

Definition reset (s : State) : State :=
  let s' := stop s in
  {| timer := timer s'; playing := playing s'; route := None; k := 0; out := out s' |}.

(* The runCalls the page makes on the player. *)
Inductive op :=
| SetRoute (r : RouteData)
| SetIndex (newK : Q)
| Step (dir : Q)
| Tick
| GotoBeg
| GotoEnd
| TogglePlay
| Reset.

Definition call (o : op) (s : State) : State * completion :=
  match o with
  | SetRoute r => setRoute r s
  | SetIndex newK => setIndex newK s
  | Step dir => step dir s
  | Tick => tick s
  | GotoBeg => gotoBeg s
  | GotoEnd => gotoEnd s
  | TogglePlay => (togglePlay s, Returned)
  | Reset => (reset s, Returned)
  end.

(* A failed call leaves the state it reached; the page goes on. *)
Definition runCalls (ops : list op) (s : State) : State :=
  fold_left (fun s o => (call o s).1) ops s.

(* setIndex with an integer, step(+1), step(-1), tick, gotoBeg, gotoEnd *)
Definition scrub (o : op) : bool :=
  match o with
  | SetIndex newK => is_integer newK
  | Step dir => Qeq_bool dir 1 || Qeq_bool dir (-1)
  | Tick | GotoBeg | GotoEnd => true
  | SetRoute _ | TogglePlay | Reset => false
  end.

(* The index is an integer position of the attached route. *)
Definition in_range (r : RouteData) (s : State) : Prop :=
  route s = Some r /\
  exists i : Z, (k s == inject_Z i)%Q /\ 0 <= i < Z.of_nat (length (pts r)).

(* a route of n points along the equator, one hour apart *)
Definition sampleRoute (n : nat) : RouteData :=
  {| t0Epoch := 0; dtRoute := 3600;
     pts := map (fun i => {| lat := 0; lon := inject_Z (Z.of_nat i);
                              t := inject_Z (3600 * Z.of_nat i) |}) (seq 0 n);
     gribName := "gfs.grb"; currentGrib := "" |}.

End Player.

(* ===================================================================== *)
(* 6. Wind layer: sampling stride and the redraw pass                    *)
(* ===================================================================== *)

(* The map widget is outside the code at hand: its bounds, zoom and
   projection are read from a [MapView].  A redraw is the list of the calls
   it makes to drawWindBarb, each kept with the grid cell it sampled;
   positioning and clearing the canvas are left out. *)
Module WindLayer.

Definition getWindStride (zoom : Q) : Z :=
  if Qle_bool zoom 4 then 6
  else if Qle_bool zoom 6 then 4
  else if Qle_bool zoom 8 then 3
  else 2.

(* The grid part of the GRIB meta. *)
Record Grid := {
  nLat : Z;
  nLon : Z;
  bottomLat : Q;
  leftLon : Q;
  latStep : Q;
  lonStep : Q
}.

Record MapView := {
  south : Q; north : Q; west : Q; east : Q;        (* map.getBounds() *)
  zoom : Q;                                        (* map.getZoom() *)
  topLeft : Q * Q;                                 (* layer point of the NW corner *)
  bottomRight : Q * Q;                             (* layer point of the SE corner *)
  latLngToLayerPoint : Q -> Q -> Q * Q
}.

(* what the closure of the layer holds *)
Record Layer := {
  gribLimits : option (TimeIndex.GribLimits * Grid);
  dataGrib : option Grib.GribField;
  routeState : option Player.RouteState
}.

(* one call drawWindBarb(ctx, x, y, u, v), with the cell it was sampled at *)
Record Glyph := {
  iLat : Z; iLon : Z;
  x : Q; y : Q;
  u : option Grib.float32; v : option Grib.float32
}.

Definition cellSize : Q := 25.

(* the screen cell of a glyph: the key `${cx},${cy}` of usedCells *)
Definition cellOf (px py : Q) : Z * Z := (Qfloor (px / cellSize), Qfloor (py / cellSize)).

(* the values taken by i in for (let i = 0; i < n; i += stride) *)
Definition strided (n stride : Z) : list Z :=
  map (fun j : nat => Z.of_nat j * stride) (seq 0 (Z.to_nat ((n + stride - 1) / stride))).

(* windCanvas.width = Math.max(1, Math.floor(size.x)) *)
Definition canvasSide (size : Q) : Z := Z.max 1 (Qfloor size).

Section Pass.
Variables (view : MapView) (grid : Grid) (field : Grib.GribField) (iTimeStamp : Z).

Definition width : Z := canvasSide ((bottomRight view).1 - (topLeft view).1).
Definition height : Z := canvasSide ((bottomRight view).2 - (topLeft view).2).

(* the geographic culling: whether the cell lies more than one degree
   outside the visible bounds *)
Definition culled (i j : Z) : bool :=
  let lat := (bottomLat grid + inject_Z i * latStep grid)%Q in
  let lon := (leftLon grid + inject_Z j * lonStep grid)%Q in
  WindBarb.Qltb lat (south view - 1) || WindBarb.Qltb (north view + 1) lat ||
  WindBarb.Qltb lon (west view - 1) || WindBarb.Qltb (east view + 1) lon.

(* the body of the inner loop, on the set of used cells and the calls made *)
Definition visit (st : gset (Z * Z) * list Glyph) (i j : Z) : gset (Z * Z) * list Glyph :=
  let lat := (bottomLat grid + inject_Z i * latStep grid)%Q in
  let lon := (leftLon grid + inject_Z j * lonStep grid)%Q in
  if culled i j then st
  else
    let s := Grib.getUVGW field iTimeStamp i j in
    let pt := latLngToLayerPoint view lat lon in
    let px := (pt.1 - (topLeft view).1)%Q in
    let py := (pt.2 - (topLeft view).2)%Q in
    if WindBarb.Qltb px 0 || WindBarb.Qltb py 0 ||
       WindBarb.Qltb (inject_Z width) px || WindBarb.Qltb (inject_Z height) py
    then st
    else if bool_decide (cellOf px py ∈ st.1) then st
    else ({[ cellOf px py ]} ∪ st.1,
          st.2 ++ [{| iLat := i; iLon := j; x := px; y := py;
                      u := Grib.u s; v := Grib.v s |}]).

Definition pass : list Glyph :=
  let stride := getWindStride (zoom view) in
  (fold_left
     (fun st i => fold_left (fun st j => visit st i j) (strided (nLon grid) stride) st)
     (strided (nLat grid) stride) (∅, [])).2.

(* the calls dataGrib.getUVGW(iTimeStamp, iLat, iLon) of the two loops, in
   order: one for each cell that gets past the culling, made before the
   canvas test and the used-cell test *)
Definition reads : list (Z * Z * Z) :=
  let stride := getWindStride (zoom view) in
  fold_left
    (fun rs i =>
       fold_left (fun rs j => if culled i j then rs else rs ++ [(iTimeStamp, i, j)])
                 (strided (nLon grid) stride) rs)
    (strided (nLat grid) stride) [].

(* the screen cells of the calls made *)
Definition cells (gs : list Glyph) : list (Z * Z) :=
  (fun g : Glyph => cellOf (x g) (y g)) <$> gs.

(* what holds of every call made during a pass *)
Definition drawn_well (g : Glyph) : Prop :=
  (0 <= x g)%Q /\ (x g <= inject_Z width)%Q /\
  (0 <= y g)%Q /\ (y g <= inject_Z height)%Q /\
  (0 <= iLat g < nLat grid /\ (getWindStride (zoom view) | iLat g)) /\
  (0 <= iLon g < nLon grid /\ (getWindStride (zoom view) | iLon g)) /\
  u g = Grib.u (Grib.getUVGW field iTimeStamp (iLat g) (iLon g)) /\
  v g = Grib.v (Grib.getUVGW field iTimeStamp (iLat g) (iLon g)) /\
  culled (iLat g) (iLon g) = false.

(* what holds of the loop state throughout a pass *)
Definition pass_invariant (st : gset (Z * Z) * list Glyph) : Prop :=
  NoDup (cells st.2) /\
  (forall c : Z * Z, c ∈ st.1 <-> c ∈ cells st.2) /\
  Forall drawn_well st.2.

End Pass.

(* redraw: nothing unless meta and field are set; the time index comes from
   the route state when there is one, from the run start otherwise *)
Definition redraw (view : MapView) (l : Layer) : list Glyph :=
  match gribLimits l, dataGrib l with
  | Some (times, grid), Some field =>
      let currentEpoch :=
        match routeState l with
        | Some rs => (Player.rs_t0Epoch rs + Player.rs_k rs * Player.rs_dtRoute rs)%Q
        | None => TimeIndex.epochStart times
        end in
      pass view grid field (TimeIndex.getGribTimeIndexFromEpoch times currentEpoch)
  | _, _ => []
  end.

(* the getUVGW calls of a redraw *)
Definition redraw_reads (view : MapView) (l : Layer) : list (Z * Z * Z) :=
  match gribLimits l, dataGrib l with
  | Some (times, grid), Some field =>
      let currentEpoch :=
        match routeState l with
        | Some rs => (Player.rs_t0Epoch rs + Player.rs_k rs * Player.rs_dtRoute rs)%Q
        | None => TimeIndex.epochStart times
        end in
      reads view grid (TimeIndex.getGribTimeIndexFromEpoch times currentEpoch)
  | _, _ => []
  end.

(* ---- a small scene, for running the model ---- *)

(* a 1 x 3 grid of u, v at one time step, all +0 *)
Definition sampleField : Grib.GribField :=
  {| Grib.values := [0; 0; 0; 0; 0; 0]; Grib.nLat := Some 1; Grib.nLon := Some 3;
     Grib.nTime := Some 1; Grib.nShortName := 2; Grib.shortnames := "uv";
     Grib.hasG := false; Grib.hasW := false |}.

Definition sampleLayer : Layer :=
  {| gribLimits :=
       Some ({| TimeIndex.epochStart := 0; TimeIndex.timeStamps := [0%Q];
                TimeIndex.nTimeStamp := 1 |},
             {| nLat := 1; nLon := 3; bottomLat := 0; leftLon := 0;
                latStep := 1; lonStep := 1 |});
     dataGrib := Some sampleField;
     routeState := None |}.

(* a 100 x 100 canvas over latitudes and longitudes -5 .. 5, 10 px a degree *)
Definition sampleView : MapView :=
  {| south := -5; north := 5; west := -5; east := 5; zoom := 9;
     topLeft := (0, 0)%Q; bottomRight := (100, 100)%Q;
     latLngToLayerPoint := fun lat lon => ((lon + 5) * 10, (5 - lat) * 10)%Q |}.

End WindLayer.

(* ===================================================================== *)
(* 7. route.js: choosing the GRIB after a route computation              *)
(* ===================================================================== *)

(* The last part of computeRouteAndWind: the name of the cached file is
   read back from the cache key and compared with the file the route was
   computed on. *)
Module RouteWind.
Import Grib Cache.

(* s.split(c) for a one-character separator *)
Fixpoint split (c : ascii) (s : string) : list string :=
  match s with
  | EmptyString => [EmptyString]
  | String a rest =>
      if Ascii.eqb a c then EmptyString :: split c rest
      else match split c rest with
           | first :: others => String a first :: others
           | [] => [String a EmptyString]
           end
  end.

(* l.join(c) *)
Fixpoint join (c : ascii) (l : list string) : string :=
  match l with
  | [] => EmptyString
  | s :: rest =>
      match rest with
      | [] => s
      | _ :: _ => s +:+ String c (join c rest)
      end
  end.

(* cache && cache.key ? cache.key.split("/").slice(1).join("/").split("?")[0] : "" *)
Definition cachedName (cache : GribCache) : string :=
  match key cache with
  | Some k =>
      if String.eqb k "" then ""%string
      else hd ""%string (split "?" (join "/" (tl (split "/" k))))
  | None => ""%string
  end.

(* routeGribName && cachedName && (cachedName !== routeGribName), as a condition *)
Definition needReload (routeGribName : string) (cache : GribCache) : bool :=
  negb (String.eqb routeGribName "") && negb (String.eqb (cachedName cache) "")
  && negb (String.eqb (cachedName cache) routeGribName).

(* needReload ? forceReloadGrib(...) : ensureGribLoaded(...) *)
Definition loadGribForRoute (model routeGribName : string) (onlyUV : bool) (w : World)
  : World * progress :=
  if needReload routeGribName (gribCache w)
  then forceReloadGrib model routeGribName onlyUV w
  else ensureGribLoaded model routeGribName onlyUV w.

End RouteWind.

(* ===================================================================== *)
(* 8. route.js: what the wind layer last heard from the player           *)
(* ===================================================================== *)

Module PlayerView.
Import Player.

(* the argument of the last windLayer.setRouteState call *)
Fixpoint lastPublished (es : list effect) : option RouteState :=
  match es with
  | [] => None
  | e :: rest =>
      match lastPublished rest with
      | Some rs => Some rs
      | None => match e with SetRouteState rs => Some rs | _ => None end
      end
  end.

(* The calls the page makes: routes come from parseRouteResponse and have
   points, the slider gives integers, the buttons step by one. *)
Definition pageCall (o : op) : bool :=
  match o with
  | SetRoute r => negb (bool_decide (pts r = []))
  | SetIndex newK => is_integer newK
  | Step dir => Qeq_bool dir 1 || Qeq_bool dir (-1)
  | Tick | GotoBeg | GotoEnd | TogglePlay | Reset => true
  end.

Definition is_setRoute (o : op) : bool :=
  match o with SetRoute _ => true | _ => false end.

(* the calls that end in update() whenever a route is attached *)
Definition publishes (o : op) : bool :=
  match o with
  | SetRoute _ | SetIndex _ | Step _ | GotoBeg | GotoEnd => true
  | Tick | TogglePlay | Reset => false
  end.

(* The end of computeRouteAndWind, once its GRIB load has returned:
   windLayer.setRouteState({ t0Epoch: route.t0Epoch, dtRoute: route.dtRoute,
   k: 0 }); windLayer.redraw().  It does not touch the player. *)
Definition routeWindEnd (r : RouteData) (s : State) : State :=
  emit [SetRouteState {| rs_t0Epoch := t0Epoch r; rs_dtRoute := dtRoute r; rs_k := 0 |};
        Redraw] s.

(* While a route is attached the index is one of its positions and the
   route state the player last passed to the wind layer holds the route's
   times and the current index. *)
Definition in_sync (s : State) : Prop :=
  match route s with
  | None => True
  | Some r =>
      in_range r s /\
      lastPublished (out s) =
        Some {| rs_t0Epoch := t0Epoch r; rs_dtRoute := dtRoute r; rs_k := k s |}
  end.

End PlayerView.

(* ===================================================================== *)
(* 9. route.js: the routing request and its response                     *)
(* ===================================================================== *)

Module RouteClient.

(* ---- parseRouteResponse ---- *)

(* One boat result of the response.  A field that must be a finite number
   is [None] when it is absent or anything else; a row of the track is the
   list of its numbers. *)
Record BoatResult := {
  track : option (list (list Q));     (* Some when Array.isArray(v.track) *)
  epochStart : option Q;
  isocTimeStep : option Q;
  currentGrib : string;               (* "" when absent *)
  grib : string                       (* "" when absent *)
}.

(* a value of the response object *)
Inductive value :=
| Boat (b : BoatResult)               (* an object *)
| Plain (truthy : bool).              (* anything that is not an object *)

(* The parsed body: an object with its entries in order (the keys of an
   object are distinct), or something that is not an object. *)
Inductive json :=
| NotObject
| Object (entries : list (string * value)).

(* a point of the route; a coordinate read off a row that is too short is
   undefined, and the time computed from it is NaN: both are [None] *)
Record Point := { lat : option Q; lon : option Q; t : option Q }.

Record RouteData := {
  t0Epoch : Q;
  dtRoute : Q;
  pts : list Point;
  gribName : string;
  routeCurrentGrib : string
}.

Inductive routeError :=
| NotAJsonObject
| ServerError
| MissingTrack
| MissingTimes.

Definition is_truthy (v : option value) : bool :=
  match v with
  | Some (Boat _) => true
  | Some (Plain b) => b
  | None => false
  end.

(* json[key] *)
Definition property (key : string) (entries : list (string * value)) : option value :=
  snd <$> List.find (fun kv => String.eqb kv.1 key) entries.

(* v && typeof v === "object" && Array.isArray(v.track) && v.track.length > 0 *)
Definition has_track (v : value) : bool :=
  match v with
  | Boat b => match track b with Some (_ :: _) => true | _ => false end
  | Plain _ => false
  end.

Definition toPoint (t0 : Q) (row : list Q) : Point :=
  {| lat := row !! 1%nat; lon := row !! 2%nat;
     t := (fun dt => (t0 + dt)%Q) <$> row !! 3%nat |}.

Definition parseRouteResponse (j : json) : routeError + RouteData :=
  match j with
  | NotObject => inl NotAJsonObject
  | Object entries =>
      if is_truthy (property "_Error" entries) then inl ServerError
      else
        match List.find (fun kv => has_track kv.2) entries with
        | None => inl MissingTrack
        | Some (foundKey, v) =>
            if String.eqb foundKey "" then inl MissingTrack      (* !foundKey *)
            else
              match v with
              | Plain _ => inl MissingTrack
              | Boat r =>
                  match epochStart r, isocTimeStep r with
                  | Some t0, Some dt =>
                      inr {| t0Epoch := t0; dtRoute := dt;
                             pts := toPoint t0 <$> default [] (track r);
                             gribName := grib r;
                             routeCurrentGrib := currentGrib r |}
                  | _, _ => inl MissingTimes
                  end
              end
        end
  end.

(* ---- buildRoutePostBody ---- *)

Inductive paramValue := PNum (q : Q) | PStr (s : string).

Definition routeParam : list (string * paramValue) :=
  [("initialAmure", PNum 1); ("model", PStr "GFS"); ("timeStep", PNum 7200);
   ("polar", PStr "pol/class40VR.csv"); ("wavePolar", PStr "wavepol/polwave.csv");
   ("forbid", PStr "false"); ("isoc", PStr "false"); ("isodesc", PStr "false");
   ("withWaves", PStr "false"); ("withCurrent", PStr "true");
   ("xWind", PNum 1); ("maxWind", PNum 100);
   ("penalty0", PNum 180); ("penalty1", PNum 180); ("penalty2", PNum 180);
   ("motorSpeed", PNum 0); ("threshold", PNum 0);
   ("dayEfficiency", PNum 1); ("nightEfficiency", PNum 1); ("staminaVR", PNum 100);
   ("cogStep", PNum 5); ("cogRange", PNum 90); ("jFactor", PNum 0); ("kFactor", PNum 1);
   ("nSectors", PNum 720); ("constWindTws", PNum 0); ("constWindTwd", PNum 0);
   ("constWave", PNum 0); ("constCurrentS", PNum 0); ("constCurrentD", PNum 0)]%string.

(* the names the loop over routeParam skips *)
Definition alreadySet : list string :=
  ["model"; "timeStep"; "polar"; "forbid"; "withWaves"; "withCurrent"; "currentGrib";
   "wavePolar"; "xWind"; "maxWind"; "penalty0"; "penalty1"; "penalty2"; "motorSpeed";
   "threshold"; "dayEfficiency"; "nightEfficiency"; "staminaVR"; "initialAmure"]%string.

(* the fields of appState the request reads *)
Record AppState := {
  boat : Q * Q;
  waypoints : list (Q * Q);
  startEpoch : Q;
  st_model : string;
  st_timeStep : Q;
  st_polar : string;
  st_wavePolar : string;
  st_currentGrib : string;
  st_forbid : bool;
  st_withWaves : bool;
  st_withCurrent : bool;
  st_xWind : Q; st_maxWind : Q;
  st_penalty0 : Q; st_penalty1 : Q; st_penalty2 : Q;
  st_motorSpeed : Q; st_threshold : Q;
  st_dayEfficiency : Q; st_nightEfficiency : Q;
  st_staminaVR : Q; st_initialAmure : Q
}.

Section Body.
(* `${x}` for a number, and the request code REQ.ROUTING, are given from
   outside *)
Variable show : Q -> string.
Variable REQ_ROUTING : string.

Definition showBool (b : bool) : string := if b then "true" else "false".

Definition showValue (v : paramValue) : string :=
  match v with PNum q => show q | PStr s => s end.

(* wps.map(p => `${p.lat},${p.lon}`).join(";") *)
Definition encodeWaypoints (wps : list (Q * Q)) : string :=
  String.concat ";" ((fun p => show p.1 +:+ "," +:+ show p.2) <$> wps).

(* the entries pushed to [parts], each as its name and what follows the "=" *)
Definition routeParts (state : AppState) : list (string * string) :=
  [("type", REQ_ROUTING);
   ("boat", "banane," +:+ show (boat state).1 +:+ "," +:+ show (boat state).2 +:+ ";");
   ("epochStart", show (startEpoch state));
   ("waypoints", encodeWaypoints (waypoints state));
   ("model", st_model state);
   ("timeStep", show (st_timeStep state));
   ("polar", st_polar state);
   ("wavePolar", st_wavePolar state);
   ("currentGrib", st_currentGrib state);
   ("forbid", showBool (st_forbid state));
   ("withWaves", showBool (st_withWaves state));
   ("withCurrent", showBool (st_withCurrent state));
   ("xWind", show (st_xWind state));
   ("maxWind", show (st_maxWind state));
   ("penalty0", show (st_penalty0 state));
   ("penalty1", show (st_penalty1 state));
   ("penalty2", show (st_penalty2 state));
   ("motorSpeed", show (st_motorSpeed state));
   ("threshold", show (st_threshold state));
   ("dayEfficiency", show (st_dayEfficiency state));
   ("nightEfficiency", show (st_nightEfficiency state));
   ("staminaVR", show (st_staminaVR state));
   ("initialAmure", show (st_initialAmure state))]%string
  ++ ((fun kv => (kv.1, showValue kv.2))
        <$> List.filter (fun kv => negb (existsb (String.eqb kv.1) alreadySet)) routeParam).

Definition buildRoutePostBody (state : AppState) : string :=
  String.concat "&" ((fun kv => kv.1 +:+ "=" +:+ kv.2) <$> routeParts state).

End Body.

End RouteClient.

(* ===================================================================== *)
(* route.js: the status text written at the end of update()              *)
(* ===================================================================== *)

Module PlayerStatus.
Import Player.

(* getFirstBoatData(lastRouteData): the value of the first key when it is
   an object, null otherwise; [None] is null, and a lastRouteData that is
   null (as before the first route) is [None] too *)
Definition getFirstBoatData (lastRouteData : option RouteClient.json)
  : option RouteClient.BoatResult :=
  match lastRouteData with
  | Some (RouteClient.Object ((_, RouteClient.Boat boat) :: _)) => Some boat
  | _ => None
  end.

(* if (s) { ... const boat = getFirstBoatData(lastRouteData);
   const waves = (boat.wavePolar && ...) ... }: with a #status element the
   block reads boat.wavePolar, which fails on null.  formatPolarName, esc
   and dateToStr, which are defined elsewhere, are taken to return. *)
Definition statusBlock (statusElement : bool) (lastRouteData : option RouteClient.json)
  : completion :=
  if statusElement then
    match getFirstBoatData lastRouteData with
    | Some _ => Returned
    | None => TypeError
    end
  else Returned.

(* update() as a whole: what Player.update covers, then the status text *)
Definition update_whole (statusElement : bool) (lastRouteData : option RouteClient.json)
    (s : State) : State * completion :=
  match route s with
  | None => (s, Returned)
  | Some _ =>
      match update s with
      | (s', Returned) => (s', statusBlock statusElement lastRouteData)
      | failed => failed
      end
  end.

(* a response whose first entry is a note and whose second entry is the boat *)
Definition noteFirst : RouteClient.json :=
  RouteClient.Object
    [("_Info"%string, RouteClient.Plain true);
     ("banane"%string,
      RouteClient.Boat
        {| RouteClient.track := Some [[0; 45; -3; 0]%Q; [1; 46; -4; 3600]%Q];
           RouteClient.epochStart := Some 0%Q; RouteClient.isocTimeStep := Some 3600%Q;
           RouteClient.currentGrib := ""; RouteClient.grib := "gfs.grb" |})].

End PlayerStatus.

(* ===================================================================== *)
(* 10. grib.js: condensing the list of time stamps                       *)
(* ===================================================================== *)

(* Time stamps are whole hours: integers, printed in decimal. *)
Module GribInfo.

(* the variables of the loop of condenseTimeStamps; null is [None] *)
Record Loop := {
  start : Z;
  prev : Z;
  timeStep : option Z;
  diff : option Z;
  afterStart : Z;
  result : list string
}.

(* one turn of the loop, at timeStamps[i] *)
Definition turn (st : Loop) (ti : Z) : Loop :=
  let diff := ti - prev st in
  let timeStep := default diff (timeStep st) in
  if negb (diff =? timeStep) then
    (* new sequence found *)
    if negb (prev st =? start st) then
      {| start := ti; prev := ti; timeStep := Some diff; diff := Some diff;
         afterStart := start st + diff;
         result := result st ++
                   [pretty (start st) +:+
                    (if negb (prev st =? start st + timeStep)
                     then ", " +:+ pretty (afterStart st) +:+ ".." +:+ pretty (prev st)
                     else "")] |}
    else
      {| start := ti; prev := ti; timeStep := Some diff; diff := Some diff;
         afterStart := afterStart st;
         result := result st ++ [pretty (start st)] |}
  else
    {| start := start st; prev := ti; timeStep := Some timeStep; diff := Some diff;
       afterStart := afterStart st; result := result st |}.

Definition condenseTimeStamps (timeStamps : list Z) : string :=
  match timeStamps with
  | [] => "[]"
  | first :: rest =>
      if (length timeStamps <? 5)%nat
      then "[" +:+ String.concat ", " (pretty <$> timeStamps) +:+ "]"
      else
        let st := fold_left turn rest
                    {| start := first; prev := first; timeStep := None; diff := None;
                       afterStart := nth 1 timeStamps 0; result := [] |} in
        let afterStart := start st + default 0 (diff st) in
        let result :=
          if negb (prev st =? start st)
          then result st ++
               [pretty (start st) +:+ ", " +:+ pretty afterStart +:+ ".." +:+
                pretty (prev st)]
          else result st ++ [pretty (start st)] in
        "[" +:+ String.concat ", " result +:+ "]"
  end.

(* first, first + step, ..., n terms *)
Definition progression (first step : Z) (n : nat) : list Z :=
  (fun i : nat => first + Z.of_nat i * step) <$> seq 0 n.

End GribInfo.

(* ===================================================================== *)
(* 11. showports.js: showing ports and their names by zoom level         *)
(* ===================================================================== *)

Module Ports.

Definition ZOOM_SHOW_MARKERS : Q := 7.
Definition ZOOM_SHOW_NAMES : Q := 11.

(* whether the ports layer is on the map, and for each marker whether its
   tooltip is open *)
Record View := { layerOnMap : bool; tooltipOpen : list bool }.

Definition updatePortsVisibility (z : Q) (s : View) : View :=
  let markersShouldBeVisible := Qle_bool ZOOM_SHOW_MARKERS z in
  let onMap :=
    if markersShouldBeVisible && negb (layerOnMap s) then true
    else if negb markersShouldBeVisible && layerOnMap s then false
    else layerOnMap s in
  let namesShouldBeVisible := Qle_bool ZOOM_SHOW_NAMES z in
  {| layerOnMap := onMap;
     tooltipOpen := if markersShouldBeVisible
                    then (fun _ => namesShouldBeVisible) <$> tooltipOpen s
                    else tooltipOpen s |}.

End Ports.

(* ===================================================================== *)
(* 12. Counting the strokes of a wind barb                               *)
(* ===================================================================== *)

Module WindBarbView.
Import WindBarb.

Definition is_fill (o : canvasOp) : bool :=
  match o with fill => true | _ => false end.

Definition is_stroke (o : canvasOp) : bool :=
  match o with stroke => true | _ => false end.

Definition countOps (p : canvasOp -> bool) (ops : list canvasOp) : nat :=
  length (List.filter p ops).

End WindBarbView.

(* ===================================================================== *)
(* Proofs                                                                *)
(* ===================================================================== *)

Module TimeIndexProofs.
Import TimeIndex.

Lemma num_lt_Some (x y : Q) : num_lt (Some x) (Some y) = true <-> (x < y)%Q.
Proof.
  unfold num_lt. rewrite negb_true_iff.
  split.
  - intros H. apply Qnot_le_lt. intros Hle. apply Qle_bool_iff in Hle. congruence.
  - intros H. destruct (Qle_bool y x) eqn:E; [|reflexivity].
    apply Qle_bool_iff in E. exfalso. exact (Qlt_not_le _ _ H E).
Qed.

Lemma num_lt_Some_false (x y : Q) : num_lt (Some x) (Some y) = false <-> (y <= x)%Q.
Proof.
  unfold num_lt. rewrite negb_false_iff. apply Qle_bool_iff.
Qed.

Lemma num_eq_Some (x y : Q) : num_eq (Some x) (Some y) = true <-> (x == y)%Q.
Proof. apply Qeq_bool_iff. Qed.

Lemma num_eq_Some_false (x y : Q) : ~ (x == y)%Q -> num_eq (Some x) (Some y) = false.
Proof.
  intros H. destruct (num_eq (Some x) (Some y)) eqn:E; [|reflexivity].
  apply num_eq_Some in E. contradiction.
Qed.

Lemma at_index_nat (ts : list Q) (i : nat) : at_index ts (Z.of_nat i) = ts !! i.
Proof.
  unfold at_index. destruct (Z.ltb_spec (Z.of_nat i) 0) as [Hn|Hn]; [lia|].
  by rewrite Nat2Z.id.
Qed.

Lemma at_index_Some (ts : list Q) (i : Z) (x : Q) :
  at_index ts i = Some x -> 0 <= i < Z.of_nat (length ts) /\ ts !! Z.to_nat i = Some x.
Proof.
  unfold at_index. destruct (Z.ltb_spec i 0) as [Hn|Hn]; [discriminate|].
  intros Hx. split; [|exact Hx]. apply lookup_lt_Some in Hx. lia.
Qed.

Section Scan.
Variables (ts : list Q) (h : Q).
Hypothesis Hinc : strictly_increasing ts.

(* The scan stops at the first step that is not below the target. *)
Lemma scan_found (i : nat) (x : Q) :
  ts !! i = Some x -> (h <= x)%Q ->
  (forall (j : nat) (y : Q), (j < i)%nat -> ts !! j = Some y -> (y < h)%Q) ->
  forall (left k : nat),
    (k + left)%nat = length ts -> (k <= i)%nat ->
    scan ts (Z.of_nat (length ts)) h (Z.of_nat k) left =
      if Qeq_bool h x then (Z.of_nat i, Z.of_nat i) else (Z.of_nat i - 1, Z.of_nat i).
Proof.
  intros Hi Hle Hbelow. induction left as [|left IH]; intros k Hk Hki.
  - apply lookup_lt_Some in Hi. lia.
  - cbn [scan]. rewrite at_index_nat.
    destruct (decide (k = i)) as [->|Hne].
    + rewrite Hi. unfold num_eq at 1. destruct (Qeq_bool h x) eqn:E; [reflexivity|].
      assert (Hlt : (h < x)%Q).
      { apply Qle_lt_or_eq in Hle as [Hlt|Heq]; [exact Hlt|].
        apply Qeq_bool_iff in Heq. congruence. }
      apply num_lt_Some in Hlt. by rewrite Hlt.
    + assert (Hlt : (k < i)%nat) by lia.
      destruct (lookup_lt_is_Some_2 ts k) as [y Hy]; [lia|].
      rewrite Hy. pose proof (Hbelow k y Hlt Hy) as Hyh.
      rewrite num_eq_Some_false.
      2:{ intros Heq. rewrite Heq in Hyh. exact (Qlt_irrefl _ Hyh). }
      assert (Hf : num_lt (Some h) (Some y) = false).
      { apply num_lt_Some_false. by apply Qlt_le_weak. }
      rewrite Hf. replace (Z.of_nat k + 1) with (Z.of_nat (S k)) by lia.
      apply IH; lia.
Qed.

(* When every step is below the target the loop runs to its end. *)
Lemma scan_exhausted :
  (forall (j : nat) (y : Q), ts !! j = Some y -> (y < h)%Q) ->
  forall (left k : nat),
    (k + left)%nat = length ts ->
    scan ts (Z.of_nat (length ts)) h (Z.of_nat k) left =
      (Z.of_nat (length ts) - 1, Z.of_nat (length ts) - 1).
Proof.
  intros Hbelow. induction left as [|left IH]; intros k Hk; [reflexivity|].
  cbn [scan]. rewrite at_index_nat.
  destruct (lookup_lt_is_Some_2 ts k) as [y Hy]; [lia|].
  rewrite Hy. pose proof (Hbelow k y Hy) as Hyh.
  rewrite num_eq_Some_false.
  2:{ intros Heq. rewrite Heq in Hyh. exact (Qlt_irrefl _ Hyh). }
  assert (Hf : num_lt (Some h) (Some y) = false).
  { apply num_lt_Some_false. by apply Qlt_le_weak. }
  rewrite Hf. replace (Z.of_nat k + 1) with (Z.of_nat (S k)) by lia.
  apply IH; lia.
Qed.

Lemma below_of_increasing (i : nat) (x : Q) :
  ts !! i = Some x ->
  forall (j : nat) (y : Q), (j < i)%nat -> ts !! j = Some y -> (y < x)%Q.
Proof. intros Hi j y Hj Hy. exact (Hinc j i y x Hy Hi Hj). Qed.

End Scan.

Section Around.
Variable g : GribLimits.
Hypothesis Hwf : well_formed g.
Variable h : Q.

Lemma around_before (first : Q) :
  (timeStamps g) !! 0%nat = Some first -> (h < first)%Q -> findTimeAround g h = (0, 0).
Proof.
  intros H0 Hlt. unfold findTimeAround.
  change 0 with (Z.of_nat 0). rewrite at_index_nat, H0.
  apply num_lt_Some in Hlt. by rewrite Hlt.
Qed.

Lemma around_guard_false (i : nat) (x : Q) :
  (timeStamps g) !! i = Some x -> (x <= h)%Q -> num_lt (Some h) (at_index (timeStamps g) 0) = false.
Proof.
  intros Hi Hle. change 0 with (Z.of_nat 0). rewrite at_index_nat.
  destruct ((timeStamps g) !! 0%nat) as [f|] eqn:H0; [|reflexivity].
  apply num_lt_Some_false. destruct Hwf as [_ Hinc].
  destruct i as [|i].
  - rewrite H0 in Hi. by injection Hi as ->.
  - apply Qle_trans with x; [|exact Hle].
    apply Qlt_le_weak. apply (Hinc 0%nat (S i) f x H0 Hi). lia.
Qed.

Lemma around_exact (i : nat) (x : Q) :
  (timeStamps g) !! i = Some x -> (h == x)%Q -> findTimeAround g h = (Z.of_nat i, Z.of_nat i).
Proof.
  intros Hi Heq. unfold findTimeAround.
  rewrite (around_guard_false i x Hi) by (rewrite Heq; apply Qle_refl).
  destruct Hwf as [Hn Hinc]. rewrite Hn, Nat2Z.id.
  change 0 with (Z.of_nat 0).
  rewrite (scan_found (timeStamps g) h i x Hi); [| rewrite Heq; apply Qle_refl | | lia | lia].
  - apply Qeq_bool_iff in Heq. by rewrite Heq.
  - intros j y Hj Hy. rewrite Heq. exact (Hinc j i y x Hy Hi Hj).
Qed.

Lemma around_between (i : nat) (a b : Q) :
  (timeStamps g) !! i = Some a -> (timeStamps g) !! S i = Some b -> (a < h)%Q -> (h < b)%Q ->
  findTimeAround g h = (Z.of_nat i, Z.of_nat i + 1).
Proof.
  intros Ha Hb Hah Hhb. unfold findTimeAround.
  rewrite (around_guard_false i a Ha) by (by apply Qlt_le_weak).
  destruct Hwf as [Hn Hinc]. rewrite Hn, Nat2Z.id.
  change 0 with (Z.of_nat 0).
  rewrite (scan_found (timeStamps g) h (S i) b Hb); [| by apply Qlt_le_weak | | lia | lia].
  - destruct (Qeq_bool h b) eqn:E.
    + apply Qeq_bool_iff in E. rewrite E in Hhb. destruct (Qlt_irrefl _ Hhb).
    + f_equal; lia.
  - intros j y Hj Hy. destruct (decide (j = i)) as [->|Hne].
    + rewrite Ha in Hy. by injection Hy as <-.
    + apply Qlt_trans with a; [|exact Hah].
      apply (Hinc j i y a Hy Ha). lia.
Qed.

Lemma around_after (n' : nat) (last : Q) :
  length (timeStamps g) = S n' -> (timeStamps g) !! n' = Some last -> (last < h)%Q ->
  findTimeAround g h = (Z.of_nat n', Z.of_nat n').
Proof.
  intros Hlen Hl Hlt. unfold findTimeAround.
  rewrite (around_guard_false n' last Hl) by (by apply Qlt_le_weak).
  destruct Hwf as [Hn Hinc]. rewrite Hn, Nat2Z.id.
  change 0 with (Z.of_nat 0).
  rewrite (scan_exhausted (timeStamps g) h); [rewrite Hlen; f_equal; lia | | lia].
  intros j y Hy. destruct (decide (j = n')) as [->|Hne].
  - rewrite Hl in Hy. by injection Hy as <-.
  - apply Qlt_trans with last; [|exact Hlt].
    apply (Hinc j n' y last Hy Hl). apply lookup_lt_Some in Hy. lia.
Qed.

End Around.

Lemma nearer_same (ts : list Q) (h : Q) (i : Z) :
  (if num_lt (num_sub (at_index ts i) (Some h)) (num_sub (Some h) (at_index ts i))
   then i else i) = i.
Proof. by destruct (num_lt _ _). Qed.

(* The steps [0,3,6,9] of the scenario are strictly increasing. *)
Lemma scenario_increasing : strictly_increasing [0; 3; 6; 9]%Q.
Proof.
  intros i j x y Hi Hj Hij.
  destruct i as [|[|[|[|i]]]]; simplify_eq/=;
    destruct j as [|[|[|[|j]]]]; simplify_eq/=; try lia; reflexivity.
Qed.

(** C1 (counterexample): with steps [0,2] and a target of exactly 1 hour
    after the run start, the two straddling steps are equally close; the
    claim sends the tie to the later index 1, the code returns index 0. *)
Lemma C1_tie_goes_to_earlier_index :
  let g := {| epochStart := 0; timeStamps := [0; 2]%Q; nTimeStamp := 2 |} in
  well_formed g /\
  (2 - (3600 - 0) / 3600 == (3600 - 0) / 3600 - 0)%Q /\
  getGribTimeIndexFromEpoch g 3600 = 0 /\
  getGribTimeIndexFromEpoch g 3600 <> 1.
Proof.
  repeat split; try reflexivity; try discriminate.
  intros i j x y Hi Hj Hij.
  destruct i as [|[|i]]; simplify_eq/=;
    destruct j as [|[|j]]; simplify_eq/=; try lia; reflexivity.
Qed.

Lemma resolve_between (g : GribLimits) (currentEpoch : Q) :
  well_formed g ->
  let ts := timeStamps g in
  let h := ((currentEpoch - epochStart g) / 3600)%Q in
  forall (i : Z) (a b : Q),
    at_index ts i = Some a -> at_index ts (i + 1) = Some b ->
    (a < h)%Q -> (h < b)%Q ->
    ((b - h < h - a)%Q -> getGribTimeIndexFromEpoch g currentEpoch = i + 1) /\
    ((h - a <= b - h)%Q -> getGribTimeIndexFromEpoch g currentEpoch = i).
Proof.
  intros Hwf ts h i a b Ha Hb Hah Hhb.
  pose proof Ha as Ha'. pose proof Hb as Hb'.
  apply at_index_Some in Ha' as [Hr Ha']. apply at_index_Some in Hb' as [_ Hb'].
  replace (Z.to_nat (i + 1)) with (S (Z.to_nat i)) in Hb' by lia.
  unfold getGribTimeIndexFromEpoch. fold h.
  rewrite (around_between g Hwf h (Z.to_nat i) a b Ha' Hb' Hah Hhb).
  rewrite Z2Nat.id by lia. fold ts. rewrite Ha, Hb. cbn [num_sub].
  split; intros Hc.
  - apply num_lt_Some in Hc. by rewrite Hc.
  - apply num_lt_Some_false in Hc. by rewrite Hc.
Qed.

(** C1 (amended): for a meta whose step count is the length of its strictly
    increasing step array, the resolved index is 0 when the target is at or
    before the first step, the last index when it is at or after the last
    step, the matching index on an exact match, and between two consecutive
    steps the later one when it is strictly closer and the earlier one
    otherwise, so that ties go to the earlier index; steps [0,3,6,9] with a
    query 4 hours after the run start resolve to index 1. *)
Theorem getGribTimeIndexFromEpoch_nearest (g : GribLimits) (currentEpoch : Q) :
  well_formed g ->
  let ts := timeStamps g in
  let h := ((currentEpoch - epochStart g) / 3600)%Q in
  let r := getGribTimeIndexFromEpoch g currentEpoch in
  (forall first : Q, at_index ts 0 = Some first -> (h <= first)%Q -> r = 0) /\
  (forall last : Q, at_index ts (nTimeStamp g - 1) = Some last -> (last <= h)%Q ->
     r = nTimeStamp g - 1) /\
  (forall (i : Z) (x : Q), at_index ts i = Some x -> (h == x)%Q -> r = i) /\
  (forall (i : Z) (a b : Q),
     at_index ts i = Some a -> at_index ts (i + 1) = Some b ->
     (a < h)%Q -> (h < b)%Q ->
     ((b - h < h - a)%Q -> r = i + 1) /\
     ((h - a <= b - h)%Q -> r = i)) /\
  (forall E : Q,
     getGribTimeIndexFromEpoch
       {| epochStart := E; timeStamps := [0; 3; 6; 9]%Q; nTimeStamp := 4 |}
       (E + 4 * 3600)%Q = 1).
Proof.
  intros Hwf ts h r.
  assert (Hexact : forall (i : Z) (x : Q), at_index ts i = Some x -> (h == x)%Q -> r = i).
  { intros i x Hi Heq. apply at_index_Some in Hi as [Hr Hi].
    subst r. unfold getGribTimeIndexFromEpoch. fold h.
    rewrite (around_exact g Hwf h (Z.to_nat i) x Hi Heq).
    rewrite Z2Nat.id by lia. apply nearer_same. }
  split; [|split; [|split; [exact Hexact|split; [exact (resolve_between g currentEpoch Hwf)|]]]].
  - intros first H0 Hle.
    apply Qle_lt_or_eq in Hle as [Hlt|Heq]; [|exact (Hexact 0 first H0 Heq)].
    apply at_index_Some in H0 as [_ H0]. change (Z.to_nat 0) with 0%nat in H0.
    subst r. unfold getGribTimeIndexFromEpoch. fold h.
    rewrite (around_before g h first H0 Hlt). apply nearer_same.
  - intros last Hl Hle.
    apply Qle_lt_or_eq in Hle as [Hlt|Heq];
      [|exact (Hexact _ last Hl (Qeq_sym _ _ Heq))].
    apply at_index_Some in Hl as [Hr Hl].
    subst r. unfold getGribTimeIndexFromEpoch. fold h.
    pose proof (proj1 Hwf) as Hn.
    rewrite (around_after g Hwf h (Z.to_nat (nTimeStamp g - 1)) last); [|lia|exact Hl|exact Hlt].
    rewrite Z2Nat.id by lia. apply nearer_same.
  - intros E.
    set (g4 := {| epochStart := E; timeStamps := [0; 3; 6; 9]%Q; nTimeStamp := 4 |}).
    assert (Hwf4 : well_formed g4) by (split; [reflexivity|exact scenario_increasing]).
    assert (H4 : ((E + 4 * 3600 - epochStart g4) / 3600 == 4)%Q) by (cbn; field).
    apply (resolve_between g4 (E + 4 * 3600)%Q Hwf4 1 3 6);
      try reflexivity; rewrite H4; vm_compute; congruence.
Qed.

(* A concrete run of the theorem: steps [0,3,6,9], query 4 h after the start. *)
Lemma getGribTimeIndexFromEpoch_nearest_witness :
  let g := {| epochStart := 1000; timeStamps := [0; 3; 6; 9]%Q; nTimeStamp := 4 |} in
  well_formed g /\ getGribTimeIndexFromEpoch g (1000 + 4 * 3600)%Q = 1.
Proof.
  intros g.
  assert (Hwf : well_formed g) by (split; [reflexivity|exact scenario_increasing]).
  split; [exact Hwf|].
  apply (proj1 (proj2 (proj2 (proj2
    (getGribTimeIndexFromEpoch_nearest g (1000 + 4 * 3600)%Q Hwf)))) 1 3%Q 6%Q);
    vm_compute; congruence.
Defined.

End TimeIndexProofs.

Module GribProofs.
Import Grib.

Lemma float32_words_length (buf : list Byte.byte) :
  length (float32_words buf) = (length buf / 4)%nat.
Proof.
  induction buf as [buf IH] using (induction_ltof1 _ (@length Byte.byte)).
  unfold ltof in IH.
  destruct buf as [|b0 [|b1 [|b2 [|b3 rest]]]]; try reflexivity.
  cbn [float32_words length]. rewrite IH by (cbn [length]; lia).
  change (S (S (S (S (length rest))))) with (1 * 4 + length rest)%nat.
  rewrite Nat.div_add_l by lia. reflexivity.
Qed.

Lemma Float32Array_length (buf : list Byte.byte) (vals : list float32) :
  Float32Array buf = Some vals -> Z.of_nat (length vals) = floatCount buf.
Proof.
  unfold Float32Array, floatCount. destruct (_ =? _)%nat; [|discriminate].
  intros [= <-]. by rewrite float32_words_length.
Qed.

Lemma num_eqb_true (a b : num) : num_eqb a b = true -> exists z, a = Some z /\ b = Some z.
Proof.
  destruct a as [x|], b as [y|]; try discriminate. cbn.
  intros H%Z.eqb_eq. subst. eauto.
Qed.

Lemma expectedSize_Some (nTime nLat nLon : num) (c z : Z) :
  expectedSize nTime nLat nLon c = Some z ->
  exists T La Lo, nTime = Some T /\ nLat = Some La /\ nLon = Some Lo /\ z = T * La * Lo * c.
Proof.
  unfold expectedSize.
  destruct nTime as [T|], nLat as [La|], nLon as [Lo|]; try discriminate.
  cbn. intros [= <-]. by exists T, La, Lo.
Qed.

(* What a successful gribLoad returns. *)
Lemma gribLoad_Ok (res : DumpResponse) (nTime nLat nLon nName : num) (f : GribField) :
  gribLoad res nTime nLat nLon nName = Ok f ->
  exists T La Lo,
    nTime = Some T /\ Grib.nLat f = Some La /\ Grib.nLon f = Some Lo /\
    nLat = Some La /\ nLon = Some Lo /\
    Float32Array (dump_body res) = Some (values f) /\
    dump_shortnames res = Some (shortnames f) /\
    hasG f = includes (shortnames f) "g"%char /\
    hasW f = includes (shortnames f) "w"%char /\
    nShortName f = componentCount (shortnames f) /\
    Z.of_nat (length (values f)) = T * La * Lo * nShortName f.
Proof.
  unfold gribLoad. destruct (dump_ok res); [|discriminate]. cbn [negb].
  destruct (dump_shortnames res) as [[|c str]|]; try discriminate.
  destruct (Float32Array (dump_body res)) as [vals|]; [|discriminate].
  destruct (num_eqb _ _) eqn:E; [|discriminate]. cbn [negb].
  intros [= <-]. cbn.
  apply num_eqb_true in E as (z & [= Hz] & He).
  apply expectedSize_Some in He as (T & La & Lo & -> & -> & -> & ->).
  exists T, La, Lo. rewrite Hz. repeat split; reflexivity.
Qed.

Lemma componentCount_cases (str : string) :
  componentCount str =
    2 + (if includes str "g"%char then 1 else 0) + (if includes str "w"%char then 1 else 0).
Proof. reflexivity. Qed.

Lemma typed_get_in (vals : list float32) (i : Z) :
  0 <= i < Z.of_nat (length vals) ->
  typed_get vals (Some i) = Some (nth (Z.to_nat i) vals 0).
Proof.
  intros Hi. unfold typed_get. destruct (Z.ltb_spec i 0) as [Hn|Hn]; [lia|].
  destruct (lookup_lt_is_Some_2 vals (Z.to_nat i)) as [x Hx]; [lia|].
  rewrite Hx. f_equal. symmetry. by apply nth_lookup_Some with (d := 0) in Hx.
Qed.

Lemma typed_get_out (vals : list float32) (i : Z) :
  i < 0 \/ Z.of_nat (length vals) <= i -> typed_get vals (Some i) = None.
Proof.
  intros Hi. unfold typed_get. destruct (Z.ltb_spec i 0) as [Hn|Hn]; [reflexivity|].
  apply lookup_ge_None. lia.
Qed.

(** C2: a response whose body holds a number of floats different from
    nTime * nLat * nLon * componentCount (component count read from the
    X-Shortnames header) makes gribLoad throw: no field object is returned,
    so nothing is truncated and nothing is read from the buffer. When the
    transport and the header are in order and the body is a whole number
    of floats, the error is the size error. *)
Theorem gribLoad_size_mismatch_throws
    (res : DumpResponse) (nTime nLat nLon nName : num) :
  (forall shortnamesStr : string,
     dump_shortnames res = Some shortnamesStr ->
     num_eqb (Some (floatCount (dump_body res)))
             (expectedSize nTime nLat nLon (componentCount shortnamesStr)) = false) ->
  (exists e : error, gribLoad res nTime nLat nLon nName = Throw e) /\
  (forall f : GribField, gribLoad res nTime nLat nLon nName <> Ok f) /\
  (forall shortnamesStr : string,
     dump_ok res = true -> dump_shortnames res = Some shortnamesStr ->
     shortnamesStr <> ""%string ->
     (length (dump_body res) mod 4 = 0)%nat ->
     gribLoad res nTime nLat nLon nName =
       Throw (UnexpectedSize (floatCount (dump_body res))
                (expectedSize nTime nLat nLon (componentCount shortnamesStr)))).
Proof.
  intros Hdiff.
  assert (Hno : forall f : GribField, gribLoad res nTime nLat nLon nName <> Ok f).
  { intros f Hf. pose proof Hf as Hf'.
    apply gribLoad_Ok in Hf' as (T & La & Lo & -> & _ & _ & -> & -> & Hv & Hs & _ & _ & Hc & Hlen).
    specialize (Hdiff _ Hs). rewrite <- (Float32Array_length _ _ Hv), Hlen, <- Hc in Hdiff.
    cbn in Hdiff. apply Z.eqb_neq in Hdiff. lia. }
  split; [|split; [exact Hno|]].
  - destruct (gribLoad res nTime nLat nLon nName) as [f|e] eqn:E; [|by exists e].
    destruct (Hno f eq_refl).
  - intros str Hok Hs Hne Hmod. specialize (Hdiff _ Hs).
    unfold gribLoad. rewrite Hok, Hs. cbn [negb].
    destruct str as [|c str]; [congruence|].
    unfold Float32Array, floatCount in *. apply Nat.eqb_eq in Hmod. rewrite Hmod.
    rewrite float32_words_length, Hdiff. reflexivity.
Qed.

(* One float where the header and the dimensions announce two. *)
Lemma gribLoad_size_mismatch_throws_witness :
  let res := {| dump_ok := true; dump_status := 200;
                dump_shortnames := Some "uv"%string;
                dump_body := [Byte.x00; Byte.x00; Byte.x80; Byte.x3f] |} in
  gribLoad res (Some 1) (Some 1) (Some 1) (Some 2) = Throw (UnexpectedSize 1 (Some 2)).
Proof.
  intros res.
  apply (proj2 (proj2 (gribLoad_size_mismatch_throws res (Some 1) (Some 1) (Some 1) (Some 2)
    ltac:(intros str [= <-]; reflexivity))) "uv"%string);
    try reflexivity; discriminate.
Defined.

Section Sampling.
Variables (res : DumpResponse) (nName : num) (f : GribField).
Variables (T La Lo : Z).
Hypothesis Hload : gribLoad res (Some T) (Some La) (Some Lo) nName = Ok f.

Lemma field_shape :
  Grib.nLat f = Some La /\ Grib.nLon f = Some Lo /\
  nShortName f = 2 + (if hasG f then 1 else 0) + (if hasW f then 1 else 0) /\
  Z.of_nat (length (values f)) = T * La * Lo * nShortName f.
Proof.
  destruct (gribLoad_Ok _ _ _ _ _ _ Hload)
    as (T' & La' & Lo' & [= <-] & HLa & HLo & [= <-] & [= <-] & _ & _ & HG & HW & Hc & Hlen).
  repeat split; try assumption. by rewrite HG, HW, Hc.
Qed.

Lemma indexOf_value (tIndex iLat iLon : Z) :
  indexOf f tIndex iLat iLon = Some (((tIndex * La + iLat) * Lo + iLon) * nShortName f).
Proof.
  destruct field_shape as (HLa & HLo & _). unfold indexOf. by rewrite HLa, HLo.
Qed.

End Sampling.

(** C3: for a field decoded from a buffer of exactly
    nTime * nLat * nLon * componentCount floats and an index triple within
    the three dimensions, the flat offset
    ((tIndex * nLat + iLat) * nLon + iLon) * componentCount and the
    component slots after it lie inside the buffer, and getUVGW returns
    exactly the floats stored there: u at the offset, v next, then gust and
    wave in that order when the header announces them, and 0 for an absent
    gust or wave. *)
Theorem getUVGW_reads_flat_offset
    (res : DumpResponse) (nName : num) (f : GribField) (T La Lo : Z)
    (tIndex iLat iLon : Z) :
  gribLoad res (Some T) (Some La) (Some Lo) nName = Ok f ->
  0 <= tIndex < T -> 0 <= iLat < La -> 0 <= iLon < Lo ->
  let off := ((tIndex * La + iLat) * Lo + iLon) * nShortName f in
  let stored := fun i : Z => nth (Z.to_nat i) (values f) 0 in
  indexOf f tIndex iLat iLon = Some off /\
  0 <= off /\ off + nShortName f <= Z.of_nat (length (values f)) /\
  getUVGW f tIndex iLat iLon =
    {| u := Some (stored off);
       v := Some (stored (off + 1));
       g := Some (if hasG f then stored (off + 2) else 0);
       w := Some (if hasW f then stored (off + (if hasG f then 3 else 2)) else 0) |}.
Proof.
  intros Hload Ht Hla Hlo off stored.
  destruct (field_shape res nName f T La Lo Hload) as (HLa & HLo & Hc & Hlen).
  pose proof (indexOf_value res nName f T La Lo Hload tIndex iLat iLon) as Hidx.
  fold off in Hidx.
  assert (Hc2 : 2 <= nShortName f) by (rewrite Hc; destruct (hasG f), (hasW f); lia).
  assert (Hrow : 0 <= tIndex * La + iLat) by nia.
  assert (Hcell0 : 0 <= (tIndex * La + iLat) * Lo + iLon) by nia.
  assert (H0 : 0 <= off) by (subst off; nia).
  assert (Hup : off + nShortName f <= Z.of_nat (length (values f))).
  { rewrite Hlen. subst off.
    assert (Hrow1 : tIndex * La + iLat + 1 <= T * La) by nia.
    assert (Hcell : (tIndex * La + iLat) * Lo + iLon + 1 <= T * La * Lo) by nia.
    nia. }
  split; [exact Hidx|]. split; [exact H0|]. split; [exact Hup|].
  unfold getUVGW. rewrite Hidx. cbn [num_add].
  rewrite !typed_get_in by lia.
  destruct (hasG f) eqn:EG, (hasW f) eqn:EW;
    rewrite ?typed_get_in by lia; reflexivity.
Qed.

(* A 1 x 1 x 2 grid with header "uvg": six floats, sampled at the second cell. *)
Lemma getUVGW_reads_flat_offset_witness :
  let res := {| dump_ok := true; dump_status := 200;
                dump_shortnames := Some "uvg"%string;
                dump_body := [Byte.x01; Byte.x00; Byte.x00; Byte.x00;
                              Byte.x02; Byte.x00; Byte.x00; Byte.x00;
                              Byte.x03; Byte.x00; Byte.x00; Byte.x00;
                              Byte.x04; Byte.x00; Byte.x00; Byte.x00;
                              Byte.x05; Byte.x00; Byte.x00; Byte.x00;
                              Byte.x06; Byte.x00; Byte.x00; Byte.x00] |} in
  exists f : GribField,
    gribLoad res (Some 1) (Some 1) (Some 2) (Some 3) = Ok f /\
    getUVGW f 0 0 1 = {| u := Some 4; v := Some 5; g := Some 6; w := Some 0 |}.
Proof.
  intros res. eexists. split; [reflexivity|].
  apply (proj2 (proj2 (proj2
    (getUVGW_reads_flat_offset res (Some 3) _ 1 1 2 0 0 1 eq_refl
       ltac:(lia) ltac:(lia) ltac:(lia))))).
Defined.

(** C10: getUVGW checks nothing. For a decoded field and an index triple
    whose flat offset lies outside the buffer (negative, or at or beyond
    its length), it still returns a record, with undefined for u, for v and
    for every component the header announces, and 0 for the absent ones;
    no error is raised. *)
Theorem getUVGW_out_of_range_undefined
    (res : DumpResponse) (nTime nLat nLon nName : num) (f : GribField)
    (tIndex iLat iLon : Z) :
  gribLoad res nTime nLat nLon nName = Ok f ->
  forall off : Z,
    indexOf f tIndex iLat iLon = Some off ->
    off < 0 \/ Z.of_nat (length (values f)) <= off ->
    getUVGW f tIndex iLat iLon =
      {| u := None; v := None;
         g := if hasG f then None else Some 0;
         w := if hasW f then None else Some 0 |}.
Proof.
  intros Hload off Hidx Hout.
  destruct (gribLoad_Ok _ _ _ _ _ _ Hload)
    as (T & La & Lo & -> & HLa & HLo & -> & -> & _ & _ & HG & HW & Hc & Hlen).
  rewrite (indexOf_value res nName f T La Lo Hload) in Hidx. injection Hidx as Hoff.
  assert (Hc' : nShortName f = 2 + (if hasG f then 1 else 0) + (if hasW f then 1 else 0))
    by (rewrite HG, HW, Hc; reflexivity).
  (* a negative offset is a multiple of the component count: at most -count *)
  assert (Hneg : off < 0 -> off + nShortName f <= 0).
  { intros Hlt. rewrite <- Hoff in *.
    set (c := (tIndex * La + iLat) * Lo + iLon) in *.
    assert (c < 0) by (destruct (hasG f), (hasW f); nia). nia. }
  unfold getUVGW.
  rewrite (indexOf_value res nName f T La Lo Hload), Hoff. cbn [num_add].
  rewrite !(typed_get_out (values f) off), !(typed_get_out (values f) (off + 1));
    try (destruct (hasG f), (hasW f); lia).
  destruct (hasG f) eqn:EG, (hasW f) eqn:EW;
    rewrite ?typed_get_out by (destruct Hout; [left|right]; lia); reflexivity.
Qed.

(* The 1 x 1 x 2 grid again, sampled one time step too far and one row
   before the first. *)
Lemma getUVGW_out_of_range_undefined_witness :
  let res := {| dump_ok := true; dump_status := 200;
                dump_shortnames := Some "uvg"%string;
                dump_body := [Byte.x01; Byte.x00; Byte.x00; Byte.x00;
                              Byte.x02; Byte.x00; Byte.x00; Byte.x00;
                              Byte.x03; Byte.x00; Byte.x00; Byte.x00;
                              Byte.x04; Byte.x00; Byte.x00; Byte.x00;
                              Byte.x05; Byte.x00; Byte.x00; Byte.x00;
                              Byte.x06; Byte.x00; Byte.x00; Byte.x00] |} in
  exists f : GribField,
    gribLoad res (Some 1) (Some 1) (Some 2) (Some 3) = Ok f /\
    getUVGW f 1 0 0 = {| u := None; v := None; g := None; w := Some 0 |} /\
    getUVGW f 0 (-1) 0 = {| u := None; v := None; g := None; w := Some 0 |}.
Proof.
  intros res. eexists. split; [reflexivity|]. split.
  - apply (getUVGW_out_of_range_undefined res (Some 1) (Some 1) (Some 2) (Some 3) _ 1 0 0
             eq_refl 6 eq_refl). right. vm_compute. congruence.
  - apply (getUVGW_out_of_range_undefined res (Some 1) (Some 1) (Some 2) (Some 3) _ 0 (-1) 0
             eq_refl (-6) eq_refl). left. lia.
Defined.

End GribProofs.

Module CacheProofs.
Import Grib Cache.

(* gribMetaAndLoad never writes to the cache object. *)
Lemma gribMetaAndLoad_cache (dir model gribName : string) (w : World) :
  gribCache (gribMetaAndLoad dir model gribName w).1 = gribCache w.
Proof. unfold gribMetaAndLoad. by destruct (metaGribParam _ _ _). Qed.

Lemma gribMetaAndLoad_meta_cache (dir model gribName : string) (load onlyUV : bool)
    (response : MetaResponse) (w : World) :
  gribCache (gribMetaAndLoad_meta dir model gribName load onlyUV response w).1 = gribCache w.
Proof.
  unfold gribMetaAndLoad_meta.
  destruct (meta_ok response); cbn [negb]; [|reflexivity].
  destruct (meta_json response) as [data|]; [|reflexivity].
  destruct (truthy _); [reflexivity|].
  destruct (bool_decide _); [reflexivity|]. by destruct load.
Qed.

Lemma gribMetaAndLoad_dump_cache (data : gmap string jsval) (res : DumpResponse) (w : World) :
  gribCache (gribMetaAndLoad_dump data res w).1 = gribCache w.
Proof. unfold gribMetaAndLoad_dump. by destruct (gribLoad _ _ _ _ _). Qed.

(* ensureGribLoaded leaves the flag alone while it waits and clears it when
   it finishes, whether it returns or throws. *)
Lemma ensure_around_loading (model gribName : string) (onlyUV : bool)
    (r : World * metaProgress) :
  loading (gribCache (ensure_around model gribName onlyUV r).1) =
    if is_suspended (ensure_around model gribName onlyUV r).2
    then loading (gribCache r.1) else false.
Proof. unfold ensure_around. by destruct r.2. Qed.

Lemma ensureGribLoaded_busy (model gribName : string) (onlyUV : bool) (w : World) :
  loading (gribCache w) = true ->
  ensureGribLoaded model gribName onlyUV w =
    (w, Done (Returns (meta (gribCache w)) (field (gribCache w)))).
Proof. intros H. unfold ensureGribLoaded. by rewrite H. Qed.

Lemma ensureGribLoaded_idle (model gribName : string) (onlyUV : bool) (w : World) :
  loading (gribCache w) = false ->
  loading (gribCache (ensureGribLoaded model gribName onlyUV w).1) =
    is_suspended (ensureGribLoaded model gribName onlyUV w).2.
Proof.
  intros H. unfold ensureGribLoaded. rewrite H.
  destruct (_ && _); [exact H|].
  rewrite ensure_around_loading, gribMetaAndLoad_cache.
  by destruct (is_suspended _).
Qed.

Lemma onMeta_loading (p : pending) (response : MetaResponse) (w w' : World) (p' : progress) :
  onMeta p response w = Some (w', p') ->
  loading (gribCache w') = if is_suspended p' then loading (gribCache w) else false.
Proof.
  destruct p as [model gribName onlyUV| |]; try discriminate. cbn [onMeta].
  intros [= E]. pose proof (ensure_around_loading model gribName onlyUV
    (gribMetaAndLoad_meta "grib" model gribName true onlyUV response w)) as L.
  rewrite gribMetaAndLoad_meta_cache, E in L. exact L.
Qed.

Lemma onDump_loading (p : pending) (res : DumpResponse) (w w' : World) (p' : progress) :
  onDump p res w = Some (w', p') ->
  loading (gribCache w') = if is_suspended p' then loading (gribCache w) else false.
Proof.
  destruct p as [|model gribName onlyUV data|]; try discriminate. cbn [onDump].
  intros [= E]. pose proof (ensure_around_loading model gribName onlyUV
    (gribMetaAndLoad_dump data res w)) as L.
  rewrite gribMetaAndLoad_dump_cache, E in L. exact L.
Qed.

Lemma onFalse_loading (p : pending) (w w' : World) (p' : progress) :
  onFalse p w = Some (w', p') ->
  loading (gribCache w') = if is_suspended p' then loading (gribCache w) else false.
Proof. destruct p; try discriminate. cbn [onFalse]. by intros [= <- <-]. Qed.

Lemma in_flight_app (ps : list progress) (p : progress) :
  in_flight (ps ++ [p]) = (in_flight ps + if is_suspended p then 1 else 0)%nat.
Proof. induction ps as [|q ps IH]; cbn [app in_flight]; [lia|]. rewrite IH. lia. Qed.

Lemma in_flight_insert (ps : list progress) (i : nat) (old p : progress) :
  ps !! i = Some old ->
  (in_flight (<[i := p]> ps) + (if is_suspended old then 1 else 0) =
   in_flight ps + (if is_suspended p then 1 else 0))%nat.
Proof.
  revert i. induction ps as [|q ps IH]; intros [|i] H; try discriminate.
  - injection H as ->. change (<[0%nat := p]> (old :: ps)) with (p :: ps).
    cbn [in_flight]. lia.
  - change (<[S i := p]> (q :: ps)) with (q :: <[i := p]> ps).
    cbn [in_flight]. specialize (IH i H). lia.
Qed.








(* ---- one load, from the call to its end ---- *)

Lemma ensureGribLoaded_suspends (model gribName : string) (onlyUV : bool)
    (w0 w1 : World) (p1 : pending) (response : MetaResponse) (r : World * progress) :
  ensureGribLoaded model gribName onlyUV w0 = (w1, Suspended p1) ->
  onMeta p1 response w1 = Some r ->
  loading (gribCache w0) = false /\
  p1 = AwaitMeta model gribName onlyUV /\
  exists gribParam : string, w1 = fetch (ReqGrib gribParam) (set_loading true w0).
Proof.
  unfold ensureGribLoaded. destruct (loading (gribCache w0)) eqn:L; [discriminate|].
  destruct (_ && _); [discriminate|].
  unfold gribMetaAndLoad. destruct (metaGribParam _ _ _) as [gp|].
  - cbn. intros [= <- <-]. eauto.
  - cbn. intros [= <- <-]. discriminate.
Qed.

Lemma onMeta_suspends (model gribName : string) (onlyUV : bool)
    (response : MetaResponse) (w1 w2 : World) (p2 : pending) :
  onMeta (AwaitMeta model gribName onlyUV) response w1 = Some (w2, Suspended p2) ->
  exists data : gmap string jsval,
    meta_json response = Some data /\
    p2 = AwaitDump model gribName onlyUV data /\
    w2 = fetch (ReqGribDump (dumpGribParam "grib" model gribName) onlyUV) (assign data w1).
Proof.
  cbn [onMeta]. unfold gribMetaAndLoad_meta, ensure_around.
  destruct (meta_ok response); cbn [negb]; [|discriminate].
  destruct (meta_json response) as [data|]; [|discriminate].
  destruct (truthy _); [discriminate|].
  destruct (bool_decide _); [discriminate|].
  cbn. intros [= <- <-]. eauto.
Qed.

Lemma onDump_finishes (model gribName : string) (onlyUV : bool)
    (data : gmap string jsval) (res : DumpResponse) (w2 w3 : World) (o : outcome) :
  onDump (AwaitDump model gribName onlyUV data) res w2 = Some (w3, Done o) ->
  match o with
  | Throws e =>
      w3 = set_loading false w2 /\
      gribLoad res (toNum (data !! "nTimeStamp")) (toNum (data !! "nLat"))
                   (toNum (data !! "nLon")) (toNum (data !! "nShortName")) = Throw e
  | Returns m f =>
      exists fld : GribField,
        gribLoad res (toNum (data !! "nTimeStamp")) (toNum (data !! "nLat"))
                     (toNum (data !! "nLon")) (toNum (data !! "nShortName")) = Ok fld /\
        m = MetaGribLimits /\ f = FieldAt (length (fields w2)) /\
        w3 = commit model gribName onlyUV m f (store_field fld w2)
  end.
Proof.
  cbn [onDump]. unfold gribMetaAndLoad_dump, ensure_around.
  destruct (gribLoad _ _ _ _ _) as [fld|e]; cbn; intros [= <- <-]; eauto.
Qed.

Lemma ensureGribLoaded_hit (model gribName : string) (onlyUV : bool) (w : World) (id : nat) :
  loading (gribCache w) = false ->
  key (gribCache w) = Some (cacheKey model gribName onlyUV) ->
  meta (gribCache w) = MetaGribLimits ->
  field (gribCache w) = FieldAt id ->
  ensureGribLoaded model gribName onlyUV w = (w, Done (Returns MetaGribLimits (FieldAt id))).
Proof.
  intros L K M F. unfold ensureGribLoaded. rewrite L, K, M, F.
  by rewrite bool_decide_eq_true_2.
Qed.

(** C4 (counterexample): two consecutive calls with the same arguments,
    hence the same key "GFS/?onlyUV=0". The first completes and fills the
    cache, but stores it under the key built from the file name of the
    loaded meta, "GFS/gfs.grb?onlyUV=0"; the second call misses and sends a
    new meta request. *)
Lemma C4_same_arguments_fetch_again :
  let s := advance loadedGfs (CallEnsure "GFS" "" false) in
  calls loadedGfs = [Done (Returns MetaGribLimits (FieldAt 0))] /\
  key (gribCache (world loadedGfs)) = Some "GFS/gfs.grb?onlyUV=0"%string /\
  cacheKey "GFS" "" false = "GFS/?onlyUV=0"%string /\
  calls s = [Done (Returns MetaGribLimits (FieldAt 0));
             Suspended (AwaitMeta "GFS" "" false)] /\
  requests (world s) = requests (world loadedGfs) ++ [ReqGrib "model=GFS"].
Proof. repeat split; vm_compute; reflexivity. Qed.

(** C4 (amended): when an ensureGribLoaded call has run to a successful end
    (meta request, dump request, decoded field), the key it stored in the
    cache is built from its model, the file name of the loaded meta and its
    onlyUV flag, not from its own file name argument; and a next call, with
    whatever arguments, whose wanted key is that stored key sends no
    request, changes nothing, and returns the very meta object and field
    object the first call returned. *)
Theorem second_call_served_from_cache
    (model gribName : string) (onlyUV : bool)
    (model' gribName' : string) (onlyUV' : bool)
    (w0 w1 w2 w3 : World) (p1 p2 : pending)
    (response : MetaResponse) (res : DumpResponse) (m : metaRef) (f : fieldRef) :
  ensureGribLoaded model gribName onlyUV w0 = (w1, Suspended p1) ->
  onMeta p1 response w1 = Some (w2, Suspended p2) ->
  onDump p2 res w2 = Some (w3, Done (Returns m f)) ->
  key (gribCache w3) = Some (cacheKey model' gribName' onlyUV') ->
  ensureGribLoaded model' gribName' onlyUV' w3 = (w3, Done (Returns m f)) /\
  m = MetaGribLimits /\
  (exists id : nat, f = FieldAt id /\ is_Some (fields w3 !! id)) /\
  key (gribCache w3) = Some (cacheKey model (realName MetaGribLimits gribName w3) onlyUV).
Proof.
  intros H1 H2 H3 K.
  destruct (ensureGribLoaded_suspends _ _ _ _ _ _ _ _ H1 H2) as (_ & -> & _).
  apply onMeta_suspends in H2 as (data & _ & -> & _).
  apply onDump_finishes in H3 as (fld & _ & -> & -> & ->).
  split; [|split; [reflexivity|split; [|reflexivity]]].
  - by apply ensureGribLoaded_hit.
  - eexists. split; [reflexivity|]. cbn. rewrite lookup_app_r by lia.
    rewrite Nat.sub_diag. by eexists.
Qed.

(* The page's own sequence: the preload asks for model GFS with no file
   name, the meta names gfs.grb, and the route computed next asks for
   GFS with gfs.grb. *)
Lemma second_call_served_from_cache_witness :
  ensureGribLoaded "GFS" "gfs.grb" false (world loadedGfs) =
    (world loadedGfs, Done (Returns MetaGribLimits (FieldAt 0))) /\
  key (gribCache (world loadedGfs)) = Some (cacheKey "GFS" "gfs.grb" false).
Proof.
  pose proof (second_call_served_from_cache "GFS" "" false "GFS" "gfs.grb" false
                initial _ _ (world loadedGfs) _ _
                (metaOk (sampleMeta "gfs.grb" 1)) (dumpOk 2) MetaGribLimits (FieldAt 0)
                eq_refl eq_refl
                ltac:(vm_compute; reflexivity) ltac:(vm_compute; reflexivity))
    as (Hsecond & _ & _ & _).
  split; [exact Hsecond|vm_compute; reflexivity].
Defined.

(** C6 (counterexample): after a successful load of gfs.grb, a load of
    another model fails on the size of its dump. The cache still has the
    old key and field and still refers to the shared meta object, but that
    object now holds the metadata fetched by the failed load. *)
Lemma C6_failed_load_overwrites_meta_contents :
  let s := run loadedGfs [CallEnsure "ECMWF" "" false;
                          MetaArrives 1 (metaOk (sampleMeta "ecmwf.grb" 2));
                          DumpArrives 1 (dumpOk 2)] in
  calls s !! 1%nat = Some (Done (Throws (UnexpectedSize 2 (Some 4)))) /\
  key (gribCache (world s)) = Some "GFS/gfs.grb?onlyUV=0"%string /\
  meta (gribCache (world loadedGfs)) = MetaGribLimits /\
  meta (gribCache (world s)) = MetaGribLimits /\
  gribLimits (world loadedGfs) !! "name"%string = Some (JStr "gfs.grb") /\
  gribLimits (world s) !! "name"%string = Some (JStr "ecmwf.grb") /\
  gribLimits (world loadedGfs) !! "nTimeStamp"%string = Some (JNum 1) /\
  gribLimits (world s) !! "nTimeStamp"%string = Some (JNum 2).
Proof. repeat split; vm_compute; reflexivity. Qed.

(** C6 (amended): when a load fails on the size of the decoded buffer, the
    error is thrown and no field object is created: the cache object (key,
    meta reference, field, flag down), the list of field objects and
    dataGrib are as they were before the call. The contents of the shared
    meta object are not kept: they are the fetched metadata laid over the
    old contents. *)
Theorem size_error_keeps_key_and_field
    (model gribName : string) (onlyUV : bool)
    (w0 w1 w2 w3 : World) (p1 p2 : pending)
    (response : MetaResponse) (res : DumpResponse) (got : Z) (expected : num) :
  ensureGribLoaded model gribName onlyUV w0 = (w1, Suspended p1) ->
  onMeta p1 response w1 = Some (w2, Suspended p2) ->
  onDump p2 res w2 = Some (w3, Done (Throws (UnexpectedSize got expected))) ->
  gribCache w3 = gribCache w0 /\
  fields w3 = fields w0 /\
  dataGrib w3 = dataGrib w0 /\
  exists data : gmap string jsval,
    meta_json response = Some data /\ gribLimits w3 = data ∪ gribLimits w0.
Proof.
  intros H1 H2 H3.
  destruct (ensureGribLoaded_suspends _ _ _ _ _ _ _ _ H1 H2) as (L & -> & gp & ->).
  apply onMeta_suspends in H2 as (data & Hj & -> & ->).
  apply onDump_finishes in H3 as (-> & _).
  repeat split; try reflexivity.
  - cbn. destruct (gribCache w0) as [k m f l]. cbn in *. by rewrite L.
  - by exists data.
Qed.

(* The failing load of the counterexample, started from the loaded cache. *)
Lemma size_error_keeps_key_and_field_witness :
  let s := run loadedGfs [CallEnsure "ECMWF" "" false;
                          MetaArrives 1 (metaOk (sampleMeta "ecmwf.grb" 2));
                          DumpArrives 1 (dumpOk 2)] in
  gribCache (world s) = gribCache (world loadedGfs) /\
  fields (world s) = fields (world loadedGfs).
Proof.
  intros s.
  pose proof (size_error_keeps_key_and_field "ECMWF" "" false
                (world loadedGfs) _ _ (world s) _ _
                (metaOk (sampleMeta "ecmwf.grb" 2)) (dumpOk 2) 2 (Some 4)
                eq_refl eq_refl) as H.
  destruct H as (Hc & Hf & _); [vm_compute; reflexivity|].
  split; assumption.
Defined.

End CacheProofs.

Module WindBarbProofs.
Import WindBarb.

Lemma Qltb_true (a b : Q) : Qltb a b = true <-> (a < b)%Q.
Proof.
  unfold Qltb. rewrite negb_true_iff. split.
  - intros H. apply Qnot_le_lt. intros Hle. apply Qle_bool_iff in Hle. congruence.
  - intros H. destruct (Qle_bool b a) eqn:E; [|reflexivity].
    apply Qle_bool_iff in E. destruct (Qlt_not_le _ _ H E).
Qed.

Lemma Qltb_false (a b : Q) : Qltb a b = false <-> (b <= a)%Q.
Proof. unfold Qltb. rewrite negb_false_iff. apply Qle_bool_iff. Qed.

(* The counts depend on the value of the speed only. *)
Lemma barbCounts_comp (p q : Q) : (p == q)%Q -> barbCounts p = barbCounts q.
Proof.
  intros H. unfold barbCounts.
  assert (H50 : Qfloor (p / 50) = Qfloor (q / 50)) by (by rewrite H).
  rewrite H50.
  set (n50 := Qfloor (q / 50)).
  assert (H10 : Qfloor ((p - inject_Z n50 * 50) / 10) = Qfloor ((q - inject_Z n50 * 50) / 10))
    by (by rewrite H).
  rewrite H10.
  set (n10 := Qfloor ((q - inject_Z n50 * 50) / 10)).
  assert (H5 : Qle_bool 5 (p - inject_Z n50 * 50 - inject_Z n10 * 10) =
               Qle_bool 5 (q - inject_Z n50 * 50 - inject_Z n10 * 10)) by (by rewrite H).
  by rewrite H5.
Qed.

(** C8 (counterexample): a speed of 63 knots with the bias already in it
    gives one pennant and one barb, and no half-barb: 63 - 50 - 10 = 3,
    which is below 5. *)
Lemma C8_biased_63_has_no_half_barb :
  barbCounts 63 = (1, 1, false) /\ barbCounts 63 <> (1, 1, true).
Proof. split; [reflexivity|discriminate]. Qed.

(** C8 (amended): a wind of 63 knots before the bias, 65.5 after it, is
    drawn as the shaft, one pennant at the head, one full barb one spacing
    down and one half-barb two spacings down; and for every speed below 2
    knots only the small circle is drawn, without shaft or flags. *)
Theorem drawWindBarb_calm_and_63 (MS_TO_KN : Q) (sqrt : Q -> Q) (x y u v : Q) :
  ((windSpeedKts MS_TO_KN sqrt u v < 2)%Q ->
   drawWindBarb MS_TO_KN sqrt x y u v = calmCircle x y) /\
  ((windSpeedKts MS_TO_KN sqrt u v == 63)%Q ->
   (0.5 <= sqrt (u * u + v * v))%Q ->
   barbCounts (windSpeedKts MS_TO_KN sqrt u v + 2.5) = (1, 1, true) /\
   let fr := windFrame sqrt x y u v in
   drawWindBarb MS_TO_KN sqrt x y u v =
     shaft x y fr ++ pennant fr 0 ++ barb fr barbLength (0 + barbSpacing) ++
     barb fr halfBarbLength (0 + barbSpacing + barbSpacing)).
Proof.
  split.
  - intros Hcalm. unfold drawWindBarb. apply Qltb_true in Hcalm. by rewrite Hcalm.
  - intros H63 Hmag.
    assert (Hc : barbCounts (windSpeedKts MS_TO_KN sqrt u v + 2.5) = (1, 1, true)).
    { rewrite (barbCounts_comp _ (63 + 2.5)) by (by rewrite H63). reflexivity. }
    split; [exact Hc|]. intros fr. unfold drawWindBarb.
    assert (Hnot : Qltb (windSpeedKts MS_TO_KN sqrt u v) 2 = false).
    { apply Qltb_false. rewrite H63. discriminate. }
    rewrite Hnot. apply Qltb_false in Hmag. rewrite Hmag, Hc. fold fr.
    change (Z.to_nat 1) with 1%nat. cbn [flags fst snd].
    by rewrite !app_nil_r.
Qed.

(* A northerly wind of 63 knots; and a breeze of about one knot. *)
Lemma drawWindBarb_calm_and_63_witness :
  barbCounts (windSpeedKts sampleMsToKn sqrtOnSquares 0 (63 / sampleMsToKn) + 2.5)
    = (1, 1, true) /\
  drawWindBarb sampleMsToKn sqrtOnSquares 10 10 0.5 0 = calmCircle 10 10.
Proof.
  split.
  - apply (proj2 (drawWindBarb_calm_and_63 sampleMsToKn sqrtOnSquares
                    0 0 0 (63 / sampleMsToKn))); vm_compute; congruence.
  - apply (proj1 (drawWindBarb_calm_and_63 sampleMsToKn sqrtOnSquares 10 10 0.5 0)).
    vm_compute. reflexivity.
Defined.

End WindBarbProofs.

Module PlayerProofs.
Import Player.

Lemma Qle_bool_inject (p q : Q) (a b : Z) :
  (p == inject_Z a)%Q -> (q == inject_Z b)%Q -> Qle_bool p q = (a <=? b).
Proof.
  intros Hp Hq. rewrite Hp, Hq. unfold Qle_bool. cbn. by rewrite !Z.mul_1_r.
Qed.

Lemma Math_min_inject (p q : Q) (a b : Z) :
  (p == inject_Z a)%Q -> (q == inject_Z b)%Q -> (Math_min p q == inject_Z (Z.min a b))%Q.
Proof.
  intros Hp Hq. unfold Math_min. rewrite (Qle_bool_inject p q a b Hp Hq).
  destruct (Z.leb_spec a b); [rewrite Z.min_l by lia|rewrite Z.min_r by lia]; assumption.
Qed.

Lemma Math_max_inject (p q : Q) (a b : Z) :
  (p == inject_Z a)%Q -> (q == inject_Z b)%Q -> (Math_max p q == inject_Z (Z.max a b))%Q.
Proof.
  intros Hp Hq. unfold Math_max. rewrite (Qle_bool_inject p q a b Hp Hq).
  destruct (Z.leb_spec a b); [rewrite Z.max_r by lia|rewrite Z.max_l by lia]; assumption.
Qed.

Lemma lastIndex_inject (r : RouteData) :
  (lastIndex r == inject_Z (Z.of_nat (length (pts r)) - 1))%Q.
Proof. unfold lastIndex, Z.sub. by rewrite inject_Z_plus, inject_Z_opp. Qed.

Lemma plus_inject (q : Q) (a b : Z) :
  (q == inject_Z a)%Q -> (q + inject_Z b == inject_Z (a + b))%Q.
Proof. intros ->. by rewrite inject_Z_plus. Qed.

Lemma pts_at_integer (l : list RoutePoint) (q : Q) (i : Z) :
  (q == inject_Z i)%Q -> 0 <= i < Z.of_nat (length l) ->
  exists p : RoutePoint, pts_at l q = Some p /\ l !! Z.to_nat i = Some p.
Proof.
  intros Hq Hi.
  assert (Hf : Qfloor q = i) by (rewrite Hq; apply Qfloor_Z).
  unfold pts_at, is_integer. rewrite Hf.
  apply Qeq_bool_iff in Hq. rewrite Hq.
  destruct (Z.leb_spec 0 i) as [_|Hn]; [|lia]. cbn [andb].
  destruct (lookup_lt_is_Some_2 l (Z.to_nat i)) as [p Hp]; [lia|]. eauto.
Qed.

Lemma update_in_range (r : RouteData) (s : State) :
  in_range r s -> (update s).2 = Returned /\ in_range r (update s).1.
Proof.
  intros (Hr & i & Hk & Hi). unfold update. rewrite Hr.
  destruct (pts_at_integer (pts r) (k s) i Hk Hi) as (p & -> & _).
  split; [reflexivity|]. split; [exact Hr|]. by exists i.
Qed.

Lemma clamp_in_range (r : RouteData) (q : Q) (z : Z) :
  pts r <> [] -> (q == inject_Z z)%Q ->
  exists i : Z,
    (Math_max 0 (Math_min (lastIndex r) q) == inject_Z i)%Q /\
    0 <= i < Z.of_nat (length (pts r)).
Proof.
  intros Hne Hq. exists (Z.max 0 (Z.min (Z.of_nat (length (pts r)) - 1) z)). split.
  - apply (Math_max_inject 0 _ 0); [reflexivity|].
    apply Math_min_inject; [apply lastIndex_inject|exact Hq].
  - destruct (pts r); [congruence|]. cbn [length]. lia.
Qed.

Lemma is_integer_inject (q : Q) : is_integer q = true -> (q == inject_Z (Qfloor q))%Q.
Proof. apply Qeq_bool_iff. Qed.

Lemma scrub_in_range (r : RouteData) (o : op) (s : State) :
  pts r <> [] -> scrub o = true -> in_range r s ->
  (call o s).2 = Returned /\ in_range r (call o s).1.
Proof.
  intros Hne Ho Hin. pose proof Hin as (Hr & i & Hk & Hi).
  destruct o as [r'|newK|dir| | | | |]; try discriminate; cbn [call].
  - (* setIndex *)
    unfold setIndex. rewrite Hr. apply update_in_range. split; [exact Hr|].
    apply (clamp_in_range r newK (Qfloor newK) Hne). by apply is_integer_inject.
  - (* step *)
    unfold step. rewrite Hr. apply update_in_range. split; [exact Hr|].
    cbn in Ho. apply orb_true_iff in Ho as [Hd|Hd]; apply Qeq_bool_iff in Hd.
    + apply (clamp_in_range r _ (i + 1) Hne). cbn [k set_k]. rewrite Hd.
      by apply plus_inject.
    + apply (clamp_in_range r _ (i + -1) Hne). cbn [k set_k]. rewrite Hd.
      by apply (plus_inject _ i (-1)).
  - (* tick *)
    unfold tick. rewrite Hr.
    rewrite (Qle_bool_inject _ _ _ i (lastIndex_inject r) Hk).
    destruct (Z.leb_spec (Z.of_nat (length (pts r)) - 1) i) as [Hle|Hlt].
    + split; [reflexivity|]. split; [exact Hr|]. by exists i.
    + apply update_in_range. split; [exact Hr|]. exists (i + 1). split; [|lia].
      by apply (plus_inject _ i 1).
  - (* gotoBeg *)
    unfold gotoBeg. rewrite Hr. apply update_in_range. split; [exact Hr|].
    exists 0. split; [reflexivity|lia].
  - (* gotoEnd *)
    unfold gotoEnd. rewrite Hr. apply update_in_range. split; [exact Hr|].
    exists (Z.of_nat (length (pts r)) - 1). split; [apply lastIndex_inject|lia].
Qed.

Lemma setRoute_in_range (r : RouteData) (s : State) :
  pts r <> [] -> (setRoute r s).2 = Returned /\ in_range r (setRoute r s).1.
Proof.
  intros Hne. unfold setRoute. apply update_in_range. split; [reflexivity|].
  exists 0. split; [reflexivity|]. destruct (pts r); [congruence|]. cbn [length]. lia.
Qed.

Lemma runCalls_in_range (r : RouteData) (ops : list op) (s : State) :
  pts r <> [] -> forallb scrub ops = true -> in_range r s -> in_range r (runCalls ops s).
Proof.
  intros Hne. revert s. induction ops as [|o ops IH]; intros s Hops Hin; [exact Hin|].
  cbn in Hops. apply andb_true_iff in Hops as [Ho Hops].
  cbn. apply IH; [exact Hops|]. by apply scrub_in_range.
Qed.

Lemma update_k (s : State) : k (update s).1 = k s.
Proof. unfold update. destruct (route s) as [r|]; [|reflexivity]. by destruct (pts_at _ _). Qed.

Lemma update_playing (s : State) :
  playing (update s).1 = playing s /\ timer (update s).1 = timer s.
Proof. unfold update. destruct (route s) as [r|]; [|done]. by destruct (pts_at _ _). Qed.

(* setIndex, whatever number it is given *)
Lemma setIndex_clamps (r : RouteData) (s : State) (newK : Q) :
  pts r <> [] -> route s = Some r ->
  ((newK < 0)%Q ->
   (setIndex newK s).2 = Returned /\ (k (setIndex newK s).1 == 0)%Q) /\
  ((lastIndex r < newK)%Q ->
   (setIndex newK s).2 = Returned /\ (k (setIndex newK s).1 == lastIndex r)%Q).
Proof.
  intros Hne Hr.
  assert (Hlast : (0 <= lastIndex r)%Q).
  { rewrite lastIndex_inject. change 0%Q with (inject_Z 0). rewrite <- Zle_Qle.
    destruct (pts r); [congruence|]. cbn [length]. lia. }
  assert (Hn : 0 <= Z.of_nat (length (pts r)) - 1 < Z.of_nat (length (pts r))).
  { destruct (pts r); [congruence|]. cbn [length]. lia. }
  unfold setIndex. rewrite Hr. split; intros Hk.
  - assert (Hclamp : Math_max 0 (Math_min (lastIndex r) newK) = 0%Q).
    { unfold Math_max, Math_min.
      destruct (Qle_bool (lastIndex r) newK) eqn:E1.
      - apply Qle_bool_iff in E1.
        destruct (Qlt_not_le _ _ Hk (Qle_trans _ _ _ Hlast E1)).
      - destruct (Qle_bool 0 newK) eqn:E2; [|reflexivity].
        apply Qle_bool_iff in E2. destruct (Qlt_not_le _ _ Hk E2). }
    rewrite Hclamp.
    destruct (update_in_range r (set_k 0 s)) as [Hret _].
    { split; [exact Hr|]. exists 0. split; [reflexivity|lia]. }
    split; [exact Hret|]. by rewrite update_k.
  - assert (Hclamp : Math_max 0 (Math_min (lastIndex r) newK) = lastIndex r).
    { unfold Math_max, Math_min.
      assert (E1 : Qle_bool (lastIndex r) newK = true)
        by (apply Qle_bool_iff; by apply Qlt_le_weak).
      rewrite E1. apply Qle_bool_iff in Hlast. by rewrite Hlast. }
    rewrite Hclamp.
    destruct (update_in_range r (set_k (lastIndex r) s)) as [Hret _].
    { split; [exact Hr|]. eexists. split; [apply lastIndex_inject|exact Hn]. }
    split; [exact Hret|]. by rewrite update_k.
Qed.

(** C9 (counterexample): setIndex with the number 1.5 on a route of four
    points leaves the index at 1.5, which is not an integer; the update
    that follows then fails on pts[1.5]. *)
Lemma C9_setIndex_keeps_a_fraction :
  let s0 := (setRoute (sampleRoute 4) makePlayer).1 in
  (k (runCalls [SetIndex 1.5] s0) == 3 # 2)%Q /\
  is_integer (k (runCalls [SetIndex 1.5] s0)) = false /\
  (call (SetIndex 1.5) s0).2 = TypeError.
Proof. repeat split. Qed.

(** C9 (amended): for every attached route of n >= 1 points and every
    sequence of setIndex with an integer, step(+1), step(-1), tick, gotoBeg
    and gotoEnd, the index remains an integer in [0, n-1] and no call
    fails: step(+1) at the last index leaves the index unchanged, setIndex
    with any number below 0 or above n-1 sets the index to 0 or to n-1
    without an error, and a tick at the last index stops the player
    instead of advancing. *)
Theorem playback_index_stays_in_range (r : RouteData) (s0 : State) (ops : list op) :
  pts r <> [] ->
  forallb scrub ops = true ->
  let n := Z.of_nat (length (pts r)) in
  let s := runCalls ops (setRoute r s0).1 in
  route s = Some r /\
  (exists i : Z, (k s == inject_Z i)%Q /\ 0 <= i < n) /\
  (forall o : op, scrub o = true -> (call o s).2 = Returned) /\
  ((k s == inject_Z (n - 1))%Q -> (k (step 1 s).1 == k s)%Q) /\
  (forall newK : Q, (newK < 0)%Q ->
     (setIndex newK s).2 = Returned /\ (k (setIndex newK s).1 == 0)%Q) /\
  (forall newK : Q, (inject_Z (n - 1) < newK)%Q ->
     (setIndex newK s).2 = Returned /\ (k (setIndex newK s).1 == inject_Z (n - 1))%Q) /\
  ((k s == inject_Z (n - 1))%Q ->
     tick s = (stop s, Returned) /\ playing (tick s).1 = false /\ k (tick s).1 = k s).
Proof.
  intros Hne Hops n s.
  assert (Hin : in_range r s).
  { apply runCalls_in_range; [exact Hne|exact Hops|]. by apply setRoute_in_range. }
  pose proof Hin as (Hr & i & Hk & Hi).
  split; [exact Hr|]. split; [by exists i|]. split; [|split; [|split; [|split]]].
  - intros o Ho. by apply (scrub_in_range r o s Hne Ho Hin).
  - intros Hlast. unfold step. rewrite Hr, update_k. cbn [k set_k].
    rewrite (Math_max_inject 0 _ 0 (Z.min (n - 1) (n - 1 + 1))); [| reflexivity |].
    + rewrite Hlast. rewrite Z.min_l, Z.max_r by lia. reflexivity.
    + apply Math_min_inject; [apply lastIndex_inject|]. by apply (plus_inject _ (n - 1) 1).
  - intros newK Hneg. by apply (proj1 (setIndex_clamps r s newK Hne Hr)).
  - intros newK Hbig.
    destruct (proj2 (setIndex_clamps r s newK Hne Hr)) as [Hret Hkk].
    { rewrite lastIndex_inject. exact Hbig. }
    split; [exact Hret|]. rewrite Hkk. apply lastIndex_inject.
  - intros Hlast.
    assert (Ht : tick s = (stop s, Returned)).
    { unfold tick. rewrite Hr.
      rewrite (Qle_bool_inject _ _ _ (n - 1) (lastIndex_inject r) Hlast).
      by rewrite Z.leb_refl. }
    rewrite Ht. done.
Qed.

(* A route of four points scrubbed past both ends and ticked at the end. *)
Lemma playback_index_stays_in_range_witness :
  let s := runCalls [SetIndex 9; Step 1; Tick; GotoBeg; Step (-1); GotoEnd]
                 (setRoute (sampleRoute 4) makePlayer).1 in
  route s = Some (sampleRoute 4) /\
  exists i : Z, (k s == inject_Z i)%Q /\ 0 <= i < 4.
Proof.
  intros s.
  destruct (playback_index_stays_in_range (sampleRoute 4) makePlayer
              [SetIndex 9; Step 1; Tick; GotoBeg; Step (-1); GotoEnd]
              ltac:(discriminate) eq_refl) as (Hr & Hi & _).
  split; [exact Hr|exact Hi].
Defined.

(** C5 (counterexample): a route attached while the player is playing
    leaves it playing, with its timer armed. *)
Lemma C5_setRoute_keeps_playing :
  let s := runCalls [SetRoute (sampleRoute 3); TogglePlay] makePlayer in
  playing s = true /\
  playing (setRoute (sampleRoute 5) s).1 = true /\
  timer (setRoute (sampleRoute 5) s).1 = true.
Proof. repeat split. Qed.

(** C5 (amended): for every state of the player, Stopped or Playing, and
    every route with at least one point, attaching the route resets the
    index to 0 and publishes the new route state (start epoch, step
    duration, index 0) to the wind layer, which is redrawn; the player
    stays Stopped or Playing as it was. *)
Theorem setRoute_resets_index_and_publishes (s : State) (r : RouteData) :
  pts r <> [] ->
  exists (p : RoutePoint) (rest : list RoutePoint),
    pts r = p :: rest /\
    setRoute r s =
      ({| timer := timer s; playing := playing s; route := Some r; k := 0;
          out := out s ++
                 [SetBoatPosition (lat p) (lon p);
                  SetRouteState {| rs_t0Epoch := t0Epoch r; rs_dtRoute := dtRoute r;
                                   rs_k := 0 |};
                  Redraw] |},
       Returned).
Proof.
  intros Hne. destruct (pts r) as [|p rest] eqn:Hp; [congruence|].
  exists p, rest. split; [reflexivity|].
  unfold setRoute, update. cbn [route k]. rewrite Hp. reflexivity.
Qed.

(* A second route attached while the first one is being played. *)
Lemma setRoute_resets_index_and_publishes_witness :
  let s := runCalls [SetRoute (sampleRoute 3); TogglePlay; Tick] makePlayer in
  (k s == 1)%Q /\ playing s = true /\
  k (setRoute (sampleRoute 5) s).1 = 0%Q /\
  playing (setRoute (sampleRoute 5) s).1 = true.
Proof.
  intros s.
  destruct (setRoute_resets_index_and_publishes s (sampleRoute 5) ltac:(discriminate))
    as (p & rest & _ & ->).
  repeat split.
Defined.

End PlayerProofs.

(* ===================================================================== *)
(* Further properties of the time index resolution                       *)
(* ===================================================================== *)

Module TimeIndexMore.
Import TimeIndex TimeIndexProofs.

(* every step before position [i] lies strictly below the target *)
Local Abbreviation below ts h i :=
  (forall (j : nat) (y : Q), (j < i)%nat -> ts !! j = Some y -> (y < h)%Q).

Lemma below_S (ts : list Q) (h y : Q) (k : nat) :
  below ts h k -> ts !! k = Some y -> (y < h)%Q -> below ts h (S k).
Proof.
  intros Hb Hk Hy j z Hj Hz. destruct (decide (j = k)) as [->|Hne].
  - rewrite Hk in Hz. by injection Hz as <-.
  - apply (Hb j z); [lia|exact Hz].
Qed.

(* How the loop of findTimeAround ends, for any list of steps. *)
Lemma scan_cases (ts : list Q) (h : Q) :
  forall (left k : nat),
    (k + left)%nat = length ts -> below ts h k ->
    let r := scan ts (Z.of_nat (length ts)) h (Z.of_nat k) left in
    (exists (i : nat) (x : Q),
        ts !! i = Some x /\ (h == x)%Q /\ r = (Z.of_nat i, Z.of_nat i) /\ below ts h i) \/
    (exists (i : nat) (x : Q),
        (k <= i)%nat /\ ts !! i = Some x /\ (h < x)%Q /\
        r = (Z.of_nat i - 1, Z.of_nat i) /\ below ts h i) \/
    (r = (Z.of_nat (length ts) - 1, Z.of_nat (length ts) - 1) /\ below ts h (length ts)).
Proof.
  induction left as [|left IH]; intros k Hk Hb.
  - right; right. split; [reflexivity|]. by replace (length ts) with k by lia.
  - cbn [scan]. rewrite at_index_nat.
    destruct (lookup_lt_is_Some_2 ts k) as [y Hy]; [lia|]. rewrite Hy.
    destruct (num_eq (Some h) (Some y)) eqn:Eeq.
    + left. exists k, y. apply num_eq_Some in Eeq. auto.
    + destruct (num_lt (Some h) (Some y)) eqn:Elt.
      * right; left. exists k, y. apply num_lt_Some in Elt. auto.
      * apply num_lt_Some_false in Elt.
        assert (Hlt : (y < h)%Q).
        { apply Qle_lt_or_eq in Elt as [Hlt|Heq]; [exact Hlt|].
          symmetry in Heq. apply num_eq_Some in Heq. congruence. }
        replace (Z.of_nat k + 1) with (Z.of_nat (S k)) by lia.
        specialize (IH (S k) ltac:(lia) (below_S ts h y k Hb Hy Hlt)).
        cbn zeta in IH. destruct IH as [IH|[(i & x & Hki & IH)|IH]]; auto.
        right; left. exists i, x. split; [lia|exact IH].
Qed.

(* The four ways findTimeAround answers, when the count is the length of
   the step list. *)
Lemma findTimeAround_cases (g : GribLimits) (h : Q) :
  nTimeStamp g = Z.of_nat (length (timeStamps g)) ->
  let ts := timeStamps g in
  (exists x : Q, ts !! 0%nat = Some x /\ (h < x)%Q /\ findTimeAround g h = (0, 0)) \/
  (exists (i : nat) (x : Q),
      ts !! i = Some x /\ (h == x)%Q /\
      findTimeAround g h = (Z.of_nat i, Z.of_nat i) /\ below ts h i) \/
  (exists (i : nat) (a b : Q),
      ts !! i = Some a /\ ts !! S i = Some b /\ (a < h)%Q /\ (h < b)%Q /\
      findTimeAround g h = (Z.of_nat i, Z.of_nat i + 1) /\ below ts h (S i)) \/
  (findTimeAround g h = (Z.of_nat (length ts) - 1, Z.of_nat (length ts) - 1) /\
   below ts h (length ts)).
Proof.
  intros Hn ts.
  assert (Hf : findTimeAround g h =
               if num_lt (Some h) (ts !! 0%nat) then (0, 0)
               else scan ts (Z.of_nat (length ts)) h (Z.of_nat 0) (length ts)).
  { unfold findTimeAround. fold ts. rewrite Hn, Nat2Z.id.
    change (at_index ts 0) with (at_index ts (Z.of_nat 0)). by rewrite at_index_nat. }
  rewrite Hf. clear Hf.
  destruct (num_lt (Some h) (ts !! 0%nat)) eqn:Eg.
  - left. destruct (ts !! 0%nat) as [x|] eqn:E0; [|discriminate].
    exists x. apply num_lt_Some in Eg. auto.
  - right.
    assert (Hb0 : below ts h 0%nat) by (intros j y Hj; lia).
    destruct (scan_cases ts h (length ts) 0%nat eq_refl Hb0)
      as [(i & x & Hi & Hx & Hr & Hb)|[(i & x & _ & Hi & Hx & Hr & Hb)|[Hr Hb]]].
    + left. exists i, x. auto.
    + right; left. destruct i as [|i].
      * rewrite Hi in Eg. apply num_lt_Some in Hx. congruence.
      * destruct (lookup_lt_is_Some_2 ts i) as [a Ha];
          [apply lookup_lt_Some in Hi; lia|].
        assert (Hah : (a < h)%Q) by (apply (Hb i a); [lia|exact Ha]).
        exists i, a, x.
        split; [exact Ha|]. split; [exact Hi|]. split; [exact Hah|].
        split; [exact Hx|]. split; [rewrite Hr; f_equal; lia|exact Hb].
    + right; right. auto.
Qed.

Lemma pick_same (c : bool) (i : Z) : (if c then i else i) = i.
Proof. by destruct c. Qed.

Lemma resolved_index_in_range (g : GribLimits) (currentEpoch : Q) :
  nTimeStamp g = Z.of_nat (length (timeStamps g)) ->
  timeStamps g <> [] ->
  0 <= getGribTimeIndexFromEpoch g currentEpoch < nTimeStamp g.
Proof.
  intros Hn Hne. unfold getGribTimeIndexFromEpoch.
  set (h := ((currentEpoch - epochStart g) / 3600)%Q).
  assert (Hlen : (0 < length (timeStamps g))%nat).
  { destruct (timeStamps g); [congruence|cbn; lia]. }
  destruct (findTimeAround_cases g h Hn)
    as [(x & _ & _ & ->)|[(i & x & Hi & _ & -> & _)|
        [(i & a & b & _ & Hb & _ & _ & -> & _)|[-> _]]]].
  - rewrite pick_same. lia.
  - rewrite pick_same. apply lookup_lt_Some in Hi. lia.
  - apply lookup_lt_Some in Hb. destruct (num_lt _ _); lia.
  - rewrite pick_same. lia.
Qed.

(** X1: for a meta with at least one step, whose count is the length of its
    step list, every epoch resolves to a valid index of the list; the steps
    need not even be sorted. *)
Theorem getGribTimeIndexFromEpoch_in_range (g : GribLimits) (currentEpoch : Q) :
  nTimeStamp g = Z.of_nat (length (timeStamps g)) ->
  timeStamps g <> [] ->
  0 <= getGribTimeIndexFromEpoch g currentEpoch < nTimeStamp g.
Proof. apply resolved_index_in_range. Qed.

Lemma getGribTimeIndexFromEpoch_in_range_witness :
  0 <= getGribTimeIndexFromEpoch
         {| epochStart := 0; timeStamps := [6; 0; 3]%Q; nTimeStamp := 3 |} 7200 < 3.
Proof.
  apply (getGribTimeIndexFromEpoch_in_range
           {| epochStart := 0; timeStamps := [6; 0; 3]%Q; nTimeStamp := 3 |} 7200);
    [reflexivity|discriminate].
Defined.

(** X2: the pair returned by findTimeAround brackets the target, as its
    comment says: when the target lies between the first and the last step,
    the steps at iTInf and iTSup exist, the first is at most the target, the
    second at least the target, and iTSup is iTInf or iTInf + 1. *)
Theorem findTimeAround_brackets (g : GribLimits) (tHours first last : Q) :
  nTimeStamp g = Z.of_nat (length (timeStamps g)) ->
  at_index (timeStamps g) 0 = Some first ->
  at_index (timeStamps g) (nTimeStamp g - 1) = Some last ->
  (first <= tHours)%Q -> (tHours <= last)%Q ->
  exists a b : Q,
    at_index (timeStamps g) (findTimeAround g tHours).1 = Some a /\
    at_index (timeStamps g) (findTimeAround g tHours).2 = Some b /\
    (a <= tHours)%Q /\ (tHours <= b)%Q /\
    (findTimeAround g tHours).1 <= (findTimeAround g tHours).2
      <= (findTimeAround g tHours).1 + 1.
Proof.
  intros Hn H0 Hl Hfirst Hlast.
  apply at_index_Some in H0 as [_ H0]. change (Z.to_nat 0) with 0%nat in H0.
  apply at_index_Some in Hl as [Hr Hl].
  destruct (findTimeAround_cases g tHours Hn)
    as [(x & Hx & Hlt & _)|[(i & x & Hi & Heq & -> & _)|
        [(i & a & b & Ha & Hb & Hah & Hhb & -> & _)|[_ Hbelow]]]].
  - rewrite H0 in Hx. injection Hx as <-. destruct (Qlt_not_le _ _ Hlt Hfirst).
  - exists x, x. cbn [fst snd]. rewrite at_index_nat.
    repeat split; try assumption; try lia; rewrite Heq; apply Qle_refl.
  - exists a, b. cbn [fst snd].
    replace (Z.of_nat i + 1) with (Z.of_nat (S i)) by lia. rewrite !at_index_nat.
    repeat split; try assumption; try lia; by apply Qlt_le_weak.
  - assert (Hc : (last < tHours)%Q)
      by (apply (Hbelow (Z.to_nat (nTimeStamp g - 1)) last); [lia|exact Hl]).
    destruct (Qlt_not_le _ _ Hc Hlast).
Qed.

Lemma findTimeAround_brackets_witness :
  let g := {| epochStart := 0; timeStamps := [0; 3; 6; 9]%Q; nTimeStamp := 4 |} in
  exists a b : Q,
    at_index (timeStamps g) (findTimeAround g 4).1 = Some a /\
    at_index (timeStamps g) (findTimeAround g 4).2 = Some b /\
    (a <= 4)%Q /\ (4 <= b)%Q /\
    (findTimeAround g 4).1 <= (findTimeAround g 4).2 <= (findTimeAround g 4).1 + 1.
Proof.
  intros g.
  exact (findTimeAround_brackets g 4 0 9 eq_refl eq_refl eq_refl
           ltac:(discriminate) ltac:(discriminate)).
Defined.

Lemma increasing_weak (ts : list Q) (i j : nat) (x y : Q) :
  strictly_increasing ts -> (i <= j)%nat ->
  ts !! i = Some x -> ts !! j = Some y -> (x <= y)%Q.
Proof.
  intros Hinc Hij Hi Hj. destruct (decide (i = j)) as [->|Hne].
  - rewrite Hi in Hj. injection Hj as <-. apply Qle_refl.
  - apply Qlt_le_weak. apply (Hinc i j x y Hi Hj). lia.
Qed.

(* Where the target lies with respect to the midpoints around the resolved
   index: above the midpoint before it, at or below the midpoint after it. *)
Lemma resolved_between_midpoints (g : GribLimits) (currentEpoch : Q) :
  well_formed g -> timeStamps g <> [] ->
  let h := ((currentEpoch - epochStart g) / 3600)%Q in
  exists r : nat,
    getGribTimeIndexFromEpoch g currentEpoch = Z.of_nat r /\
    (r < length (timeStamps g))%nat /\
    (forall (p : nat) (a b : Q),
        r = S p -> timeStamps g !! p = Some a -> timeStamps g !! r = Some b ->
        (a + b < 2 * h)%Q) /\
    (forall b c : Q,
        timeStamps g !! r = Some b -> timeStamps g !! S r = Some c ->
        (2 * h <= b + c)%Q).
Proof.
  intros [Hn Hinc] Hne h. unfold getGribTimeIndexFromEpoch. fold h.
  assert (Hlen : (0 < length (timeStamps g))%nat).
  { destruct (timeStamps g); [congruence|cbn; lia]. }
  destruct (findTimeAround_cases g h Hn)
    as [(x & Hx & Hlt & ->)|[(i & x & Hi & Heq & -> & _)|
        [(i & a & b & Ha & Hb & Hah & Hhb & -> & _)|[-> Hbelow]]]].
  - rewrite pick_same. exists 0%nat. split; [reflexivity|]. split; [exact Hlen|].
    split; [intros p a b Hp; discriminate|].
    intros b c Hb Hc. rewrite Hx in Hb. injection Hb as <-.
    pose proof (Hinc 0%nat 1%nat x c Hx Hc ltac:(lia)). lra.
  - rewrite pick_same. exists i. split; [reflexivity|].
    split; [by eapply lookup_lt_Some|]. split.
    + intros p a b -> Ha Hb. rewrite Hi in Hb. injection Hb as <-.
      pose proof (Hinc p (S p) a x Ha Hi ltac:(lia)). lra.
    + intros b c Hb Hc. rewrite Hi in Hb. injection Hb as <-.
      pose proof (Hinc i (S i) x c Hi Hc ltac:(lia)). lra.
  - replace (Z.of_nat i + 1) with (Z.of_nat (S i)) by lia. rewrite !at_index_nat, Ha, Hb.
    cbn [num_sub]. destruct (num_lt (Some (b - h)%Q) (Some (h - a)%Q)) eqn:E.
    + apply num_lt_Some in E. exists (S i). split; [reflexivity|].
      split; [by eapply lookup_lt_Some|]. split.
      * intros p a' b' [= <-] Ha' Hb'. rewrite Ha in Ha'. rewrite Hb in Hb'.
        injection Ha' as <-. injection Hb' as <-. lra.
      * intros b' c Hb' Hc. rewrite Hb in Hb'. injection Hb' as <-.
        pose proof (Hinc (S i) (S (S i)) b c Hb Hc ltac:(lia)). lra.
    + apply num_lt_Some_false in E. exists i. split; [reflexivity|].
      split; [by eapply lookup_lt_Some|]. split.
      * intros p a' b' -> Ha' Hb'. rewrite Ha in Hb'. injection Hb' as <-.
        pose proof (Hinc p (S p) a' a Ha' Ha ltac:(lia)). lra.
      * intros b' c Hb' Hc. rewrite Ha in Hb'. rewrite Hb in Hc.
        injection Hb' as <-. injection Hc as <-. lra.
  - rewrite pick_same. exists (length (timeStamps g) - 1)%nat.
    split; [lia|]. split; [lia|]. split.
    + intros p a b Hp Ha Hb.
      pose proof (Hbelow p a ltac:(lia) Ha).
      pose proof (Hbelow (length (timeStamps g) - 1)%nat b ltac:(lia) Hb). lra.
    + intros b c _ Hc. apply lookup_lt_Some in Hc. lia.
Qed.

(** X3: for a meta with a strictly increasing, non-empty step list, the
    resolved index never goes back when the epoch advances. *)
Theorem getGribTimeIndexFromEpoch_monotone (g : GribLimits) (e1 e2 : Q) :
  well_formed g -> timeStamps g <> [] -> (e1 <= e2)%Q ->
  getGribTimeIndexFromEpoch g e1 <= getGribTimeIndexFromEpoch g e2.
Proof.
  intros Hwf Hne He.
  destruct (resolved_between_midpoints g e1 Hwf Hne) as (r1 & -> & Hr1 & Hlow & _).
  destruct (resolved_between_midpoints g e2 Hwf Hne) as (r2 & -> & Hr2 & _ & Hup).
  destruct (Nat.le_gt_cases r1 r2) as [Hle|Hgt]; [lia|exfalso].
  destruct r1 as [|p]; [lia|].
  destruct (lookup_lt_is_Some_2 (timeStamps g) p) as [a Ha]; [lia|].
  destruct (lookup_lt_is_Some_2 (timeStamps g) (S p)) as [b Hb]; [lia|].
  destruct (lookup_lt_is_Some_2 (timeStamps g) r2) as [b2 Hb2]; [lia|].
  destruct (lookup_lt_is_Some_2 (timeStamps g) (S r2)) as [c2 Hc2]; [lia|].
  specialize (Hlow p a b eq_refl Ha Hb). specialize (Hup b2 c2 Hb2 Hc2).
  destruct Hwf as [_ Hinc].
  pose proof (increasing_weak _ r2 p b2 a Hinc ltac:(lia) Hb2 Ha).
  pose proof (increasing_weak _ (S r2) (S p) c2 b Hinc ltac:(lia) Hc2 Hb).
  assert (Hh : ((e1 - epochStart g) / 3600 <= (e2 - epochStart g) / 3600)%Q).
  { apply Qmult_le_r; [reflexivity|]. lra. }
  lra.
Qed.

Lemma getGribTimeIndexFromEpoch_monotone_witness :
  let g := {| epochStart := 100; timeStamps := [0; 3; 6; 9]%Q; nTimeStamp := 4 |} in
  getGribTimeIndexFromEpoch g 5000 <= getGribTimeIndexFromEpoch g 20000.
Proof.
  intros g.
  apply (getGribTimeIndexFromEpoch_monotone g 5000 20000);
    [split; [reflexivity|exact scenario_increasing] | discriminate | discriminate].
Defined.

End TimeIndexMore.

(* ===================================================================== *)
(* Properties of the sampling stride and of the redraw pass              *)
(* ===================================================================== *)

Module WindLayerProofs.
Import WindLayer.

Lemma Qle_bool_false (a b : Q) : Qle_bool a b = false -> (b < a)%Q.
Proof.
  intros H. apply Qnot_le_lt. intros Hle. apply Qle_bool_iff in Hle. congruence.
Qed.

Lemma getWindStride_cases (z : Q) :
  ((z <= 4)%Q /\ getWindStride z = 6) \/
  ((4 < z)%Q /\ (z <= 6)%Q /\ getWindStride z = 4) \/
  ((6 < z)%Q /\ (z <= 8)%Q /\ getWindStride z = 3) \/
  ((8 < z)%Q /\ getWindStride z = 2).
Proof.
  unfold getWindStride.
  destruct (Qle_bool z 4) eqn:A; [apply Qle_bool_iff in A; auto|].
  apply Qle_bool_false in A.
  destruct (Qle_bool z 6) eqn:B; [apply Qle_bool_iff in B; auto|].
  apply Qle_bool_false in B.
  destruct (Qle_bool z 8) eqn:C; [apply Qle_bool_iff in C; auto 6|].
  apply Qle_bool_false in C. auto 6.
Qed.

(** X4: the sampling stride is one of 6, 4, 3, 2, it never grows when the
    zoom level grows, it is 6 exactly up to zoom 4 and 2 exactly above
    zoom 8. *)
Theorem getWindStride_antitone (z1 z2 : Q) :
  (z1 <= z2)%Q ->
  getWindStride z2 <= getWindStride z1 /\
  2 <= getWindStride z2 <= 6 /\
  (getWindStride z1 = 6 <-> (z1 <= 4)%Q) /\
  (getWindStride z1 = 2 <-> (8 < z1)%Q).
Proof.
  intros Hz.
  destruct (getWindStride_cases z1) as [[H1 E1]|[(H1 & H1' & E1)|[(H1 & H1' & E1)|[H1 E1]]]];
    destruct (getWindStride_cases z2) as [[H2 E2]|[(H2 & H2' & E2)|[(H2 & H2' & E2)|[H2 E2]]]];
    rewrite E1, E2; try (exfalso; lra);
    (split; [lia|split; [lia|split; split; intros; try lia; try lra]]).
Qed.

Lemma getWindStride_antitone_witness :
  getWindStride 9 <= getWindStride 5 /\ getWindStride 5 = 4 /\ getWindStride 9 = 2.
Proof.
  split; [exact (proj1 (getWindStride_antitone 5 9 ltac:(discriminate)))|].
  split; reflexivity.
Defined.

Lemma fold_left_invariant {A B : Type} (P : A -> Prop) (R : B -> Prop)
    (f : A -> B -> A) (l : list B) (a : A) :
  (forall (st : A) (b : B), P st -> R b -> P (f st b)) ->
  Forall R l -> P a -> P (fold_left f l a).
Proof.
  intros Hf Hl. revert a. induction Hl as [|b l Hb _ IH]; intros a Ha; [exact Ha|].
  cbn. apply IH. by apply Hf.
Qed.

Lemma strided_spec (n stride i : Z) :
  0 < stride -> i ∈ strided n stride -> 0 <= i < n /\ (stride | i).
Proof.
  intros Hs Hi. apply list_elem_of_In in Hi. unfold strided in Hi.
  apply in_map_iff in Hi as (j & <- & Hj). apply in_seq in Hj.
  assert (Hq : Z.of_nat j + 1 <= (n + stride - 1) / stride) by lia.
  pose proof (Z.mul_div_le (n + stride - 1) stride Hs) as Hd.
  split; [|by exists (Z.of_nat j)]. nia.
Qed.

Lemma strided_elem (n stride i : Z) :
  0 < stride -> 0 <= i < n -> (stride | i) -> In i (strided n stride).
Proof.
  intros Hs Hi [q ->]. unfold strided. apply in_map_iff.
  exists (Z.to_nat q). assert (Hq : 0 <= q) by nia.
  split; [by rewrite Z2Nat.id|]. apply in_seq.
  assert (q + 1 <= (n + stride - 1) / stride) by (apply Z.div_le_lower_bound; nia).
  lia.
Qed.

(* the calls of the two loops, cell by cell *)
Lemma reads_cells (view : MapView) (grid : Grid) (iTimeStamp : Z) :
  reads view grid iTimeStamp =
    flat_map
      (fun i => map (fun j => (iTimeStamp, i, j))
                    (List.filter (fun j => negb (culled view grid i j))
                                 (strided (nLon grid) (getWindStride (zoom view)))))
      (strided (nLat grid) (getWindStride (zoom view))).
Proof.
  unfold reads. cbv zeta.
  set (cols := strided (nLon grid) _). set (rows := strided (nLat grid) _).
  assert (Hinner : forall (i : Z) (l : list Z) (rs : list (Z * Z * Z)),
            fold_left (fun rs j => if culled view grid i j then rs
                                   else rs ++ [(iTimeStamp, i, j)]) l rs =
            rs ++ map (fun j => (iTimeStamp, i, j))
                      (List.filter (fun j => negb (culled view grid i j)) l)).
  { intros i l. induction l as [|j l IH]; intros rs; cbn [fold_left List.filter map].
    - by rewrite app_nil_r.
    - rewrite IH. destruct (culled view grid i j); cbn [negb map]; [reflexivity|].
      by rewrite <- app_assoc. }
  assert (Houter : forall (l : list Z) (rs : list (Z * Z * Z)),
            fold_left (fun rs i =>
                         fold_left (fun rs j => if culled view grid i j then rs
                                                else rs ++ [(iTimeStamp, i, j)]) cols rs)
                      l rs =
            rs ++ flat_map
                    (fun i => map (fun j => (iTimeStamp, i, j))
                                  (List.filter (fun j => negb (culled view grid i j)) cols))
                    l).
  { induction l as [|i l IH]; intros rs; cbn [fold_left flat_map].
    - by rewrite app_nil_r.
    - rewrite IH, Hinner. by rewrite <- app_assoc. }
  exact (Houter rows []).
Qed.

Lemma reads_spec (view : MapView) (grid : Grid) (iTimeStamp t i j : Z) :
  In (t, i, j) (reads view grid iTimeStamp) <->
  t = iTimeStamp /\
  In i (strided (nLat grid) (getWindStride (zoom view))) /\
  In j (strided (nLon grid) (getWindStride (zoom view))) /\
  culled view grid i j = false.
Proof.
  rewrite reads_cells, in_flat_map. split.
  - intros (i' & Hi & Hin). apply in_map_iff in Hin as (j' & [= <- <- <-] & Hj).
    apply filter_In in Hj as [Hj Hc]. apply negb_true_iff in Hc. by repeat split.
  - intros (-> & Hi & Hj & Hc). exists i. split; [exact Hi|].
    apply in_map_iff. exists j. split; [reflexivity|].
    apply filter_In. split; [exact Hj|]. by apply negb_true_iff.
Qed.

Section PassProofs.
Variables (view : MapView) (grid : Grid) (field : Grib.GribField) (iTimeStamp : Z).

Local Abbreviation invariant := (pass_invariant view grid field iTimeStamp).

Lemma visit_invariant (st : gset (Z * Z) * list Glyph) (i j : Z) :
  invariant st ->
  0 <= i < nLat grid /\ (getWindStride (zoom view) | i) ->
  0 <= j < nLon grid /\ (getWindStride (zoom view) | j) ->
  invariant (visit view grid field iTimeStamp st i j).
Proof.
  intros (Hnd & Hset & Hall) Hi Hj. unfold visit.
  set (keep := conj Hnd (conj Hset Hall)).
  destruct (culled view grid i j) eqn:Hcull; [exact keep|].
  set (pt := latLngToLayerPoint view _ _).
  set (px := (pt.1 - (topLeft view).1)%Q). set (py := (pt.2 - (topLeft view).2)%Q).
  destruct (WindBarb.Qltb px 0) eqn:E1; [exact keep|].
  destruct (WindBarb.Qltb py 0) eqn:E2; [exact keep|].
  destruct (WindBarb.Qltb (inject_Z (width view)) px) eqn:E3; [exact keep|].
  destruct (WindBarb.Qltb (inject_Z (height view)) py) eqn:E4; [exact keep|].
  cbn [orb]. apply WindBarbProofs.Qltb_false in E1, E2, E3, E4.
  case_bool_decide as Hin; [exact keep|]. clear keep.
  unfold pass_invariant, cells. cbn [fst snd]. split; [|split; [intros c; split|]].
  - rewrite fmap_app. apply NoDup_app. split; [exact Hnd|]. split.
    + intros c Hc Hc'. cbn in Hc'. apply list_elem_of_singleton in Hc'. subst c.
      apply Hin. by apply Hset.
    + cbn. apply NoDup_singleton.
  - intros Hc. rewrite fmap_app. apply elem_of_app.
    apply elem_of_union in Hc as [Hc|Hc].
    + right. apply elem_of_singleton in Hc. subst c. cbn. apply list_elem_of_singleton.
      reflexivity.
    + left. by apply Hset.
  - intros Hc. rewrite fmap_app in Hc. apply elem_of_app in Hc as [Hc|Hc].
    + apply elem_of_union. right. by apply Hset.
    + cbn in Hc. apply list_elem_of_singleton in Hc. subst c.
      apply elem_of_union. left. by apply elem_of_singleton.
  - apply Forall_app. split; [exact Hall|]. apply Forall_singleton.
    unfold drawn_well. cbn. repeat split; try assumption; try apply Hi; try apply Hj.
Qed.

Lemma pass_invariant_holds :
  exists st : gset (Z * Z) * list Glyph,
    pass view grid field iTimeStamp = st.2 /\ invariant st.
Proof.
  unfold pass. eexists. split; [reflexivity|].
  assert (Hs : 0 < getWindStride (zoom view)).
  { destruct (getWindStride_cases (zoom view))
      as [[_ ->]|[(_ & _ & ->)|[(_ & _ & ->)|[_ ->]]]]; lia. }
  apply (fold_left_invariant invariant
           (fun i => 0 <= i < nLat grid /\ (getWindStride (zoom view) | i))).
  - intros st i Hst Hi.
    apply (fold_left_invariant invariant
             (fun j => 0 <= j < nLon grid /\ (getWindStride (zoom view) | j)));
      [|apply Forall_forall; intros j; by apply strided_spec|exact Hst].
    intros st' j Hst' Hj. by apply visit_invariant.
  - apply Forall_forall. intros i. by apply strided_spec.
  - repeat split; [apply NoDup_nil_2|intros Hc; set_solver|intros Hc; set_solver|].
    apply Forall_nil_2.
Qed.

End PassProofs.

(** X5: in one redraw no two wind barbs are drawn in the same 25-pixel
    screen cell, and every barb is drawn at a point of the canvas. *)
Theorem redraw_one_barb_per_cell (view : MapView) (l : Layer) :
  NoDup (cells (redraw view l)) /\
  Forall (fun g : Glyph =>
            (0 <= x g)%Q /\ (x g <= inject_Z (width view))%Q /\
            (0 <= y g)%Q /\ (y g <= inject_Z (height view))%Q)
         (redraw view l).
Proof.
  unfold redraw.
  destruct (gribLimits l) as [[times grid]|]; [|split; [apply NoDup_nil_2|apply Forall_nil_2]].
  destruct (dataGrib l) as [field|]; [|split; [apply NoDup_nil_2|apply Forall_nil_2]].
  destruct (pass_invariant_holds view grid field
              (TimeIndex.getGribTimeIndexFromEpoch times
                 match routeState l with
                 | Some rs => (Player.rs_t0Epoch rs + Player.rs_k rs * Player.rs_dtRoute rs)%Q
                 | None => TimeIndex.epochStart times
                 end)) as (st & -> & Hnd & _ & Hall).
  split; [exact Hnd|].
  eapply Forall_impl; [exact Hall|]. intros g Hg. unfold drawn_well in Hg. tauto.
Qed.

(* u and v of a cell inside the grid of a decoded field are defined *)
Lemma getUVGW_uv_defined (res : Grib.DumpResponse) (nName : Grib.num)
    (f : Grib.GribField) (T La Lo tIndex i j : Z) :
  Grib.gribLoad res (Some T) (Some La) (Some Lo) nName = Grib.Ok f ->
  0 <= tIndex < T -> 0 <= i < La -> 0 <= j < Lo ->
  is_Some (Grib.u (Grib.getUVGW f tIndex i j)) /\
  is_Some (Grib.v (Grib.getUVGW f tIndex i j)).
Proof.
  intros Hload Ht Hi Hj.
  destruct (GribProofs.field_shape res nName f T La Lo Hload) as (_ & _ & Hc & Hlen).
  pose proof (GribProofs.indexOf_value res nName f T La Lo Hload tIndex i j) as Hidx.
  set (off := ((tIndex * La + i) * Lo + j) * Grib.nShortName f) in *.
  assert (Hc2 : 2 <= Grib.nShortName f)
    by (rewrite Hc; destruct (Grib.hasG f), (Grib.hasW f); lia).
  assert (Hrow : 0 <= tIndex * La + i) by nia.
  assert (Hcell0 : 0 <= (tIndex * La + i) * Lo + j) by nia.
  assert (Hrow1 : tIndex * La + i + 1 <= T * La) by nia.
  assert (Hcell : (tIndex * La + i) * Lo + j + 1 <= T * La * Lo) by nia.
  assert (H0 : 0 <= off) by (subst off; nia).
  assert (Hup : off + Grib.nShortName f <= Z.of_nat (length (Grib.values f)))
    by (rewrite Hlen; subst off; nia).
  unfold Grib.getUVGW. rewrite Hidx. cbn [Grib.num_add Grib.u Grib.v].
  rewrite !GribProofs.typed_get_in by lia. split; by eexists.
Qed.

(** X6: when the layer holds a field decoded with the dimensions of its meta
    and the meta has at least one step, counted right, every getUVGW call
    of a redraw, made for each cell that gets past the geographic culling,
    whether a barb is drawn there or not, is at a time index and a cell of
    the grid and returns defined u and v; and every barb drawn is drawn at
    a cell of the grid with the u and v of such a call. *)
Theorem redraw_samples_are_defined
    (view : MapView) (l : Layer) (times : TimeIndex.GribLimits) (grid : Grid)
    (field : Grib.GribField) (res : Grib.DumpResponse) (nName : Grib.num) :
  gribLimits l = Some (times, grid) ->
  dataGrib l = Some field ->
  Grib.gribLoad res (Some (TimeIndex.nTimeStamp times)) (Some (nLat grid))
                (Some (nLon grid)) nName = Grib.Ok field ->
  TimeIndex.nTimeStamp times = Z.of_nat (length (TimeIndex.timeStamps times)) ->
  TimeIndex.timeStamps times <> [] ->
  Forall (fun r : Z * Z * Z =>
            0 <= r.1.1 < TimeIndex.nTimeStamp times /\
            0 <= r.1.2 < nLat grid /\ 0 <= r.2 < nLon grid /\
            is_Some (Grib.u (Grib.getUVGW field r.1.1 r.1.2 r.2)) /\
            is_Some (Grib.v (Grib.getUVGW field r.1.1 r.1.2 r.2)))
         (redraw_reads view l) /\
  Forall (fun g : Glyph =>
            0 <= iLat g < nLat grid /\ 0 <= iLon g < nLon grid /\
            is_Some (u g) /\ is_Some (v g) /\
            exists t : Z,
              In (t, iLat g, iLon g) (redraw_reads view l) /\
              u g = Grib.u (Grib.getUVGW field t (iLat g) (iLon g)) /\
              v g = Grib.v (Grib.getUVGW field t (iLat g) (iLon g)))
         (redraw view l).
Proof.
  intros Hm Hf Hload Hn Hne. unfold redraw, redraw_reads. rewrite Hm, Hf.
  set (iT := TimeIndex.getGribTimeIndexFromEpoch times _).
  assert (HiT : 0 <= iT < TimeIndex.nTimeStamp times)
    by (by apply TimeIndexMore.resolved_index_in_range).
  assert (Hs : 0 < getWindStride (zoom view)).
  { destruct (getWindStride_cases (zoom view))
      as [[_ ->]|[(_ & _ & ->)|[(_ & _ & ->)|[_ ->]]]]; lia. }
  split.
  - apply Forall_forall. intros [[t i] j] Hr. apply list_elem_of_In in Hr.
    apply reads_spec in Hr as (-> & Hi & Hj & _).
    apply list_elem_of_In, (strided_spec _ _ _ Hs) in Hi as [Hi _].
    apply list_elem_of_In, (strided_spec _ _ _ Hs) in Hj as [Hj _].
    cbn [fst snd]. split; [exact HiT|]. split; [exact Hi|]. split; [exact Hj|].
    by apply (getUVGW_uv_defined res nName field _ _ _ iT i j Hload).
  - destruct (pass_invariant_holds view grid field iT) as (st & -> & _ & _ & Hall).
    eapply Forall_impl; [exact Hall|].
    intros g (_ & _ & _ & _ & [Hi Hdi] & [Hj Hdj] & Hu & Hv & Hc).
    split; [exact Hi|]. split; [exact Hj|].
    destruct (getUVGW_uv_defined res nName field _ _ _ iT (iLat g) (iLon g) Hload HiT Hi Hj)
      as [Hud Hvd].
    split; [by rewrite Hu|]. split; [by rewrite Hv|].
    exists iT. split; [|by split].
    apply reads_spec. split; [reflexivity|].
    split; [by apply strided_elem|]. split; [by apply strided_elem|exact Hc].
Qed.

(* The sample scene: columns 0 and 2 are read, they fall in the same screen
   cell and one barb is drawn. *)
Lemma redraw_samples_are_defined_witness :
  redraw_reads sampleView sampleLayer = [(0, 0, 0); (0, 0, 2)] /\
  length (redraw sampleView sampleLayer) = 1%nat /\
  Forall (fun r : Z * Z * Z =>
            is_Some (Grib.u (Grib.getUVGW sampleField r.1.1 r.1.2 r.2)))
         (redraw_reads sampleView sampleLayer).
Proof.
  split; [reflexivity|]. split; [reflexivity|].
  eapply Forall_impl;
    [exact (proj1 (redraw_samples_are_defined sampleView sampleLayer _ _ sampleField
                     (Cache.dumpOk 6) (Some 2) eq_refl eq_refl eq_refl eq_refl
                     ltac:(discriminate)))|].
  intros r Hr. apply Hr.
Defined.

End WindLayerProofs.

(* ===================================================================== *)
(* Further properties of the decoder and of the cache                    *)
(* ===================================================================== *)

Module GribMore.
Import Grib GribProofs.

(** X7: in a decoded field two different cells of the grid never share a
    buffer slot: their flat offsets are at least one component count apart,
    so equal offsets mean equal index triples. *)
Theorem indexOf_cells_disjoint
    (res : DumpResponse) (nName : num) (f : GribField) (T La Lo : Z)
    (t1 i1 j1 t2 i2 j2 off1 off2 : Z) :
  gribLoad res (Some T) (Some La) (Some Lo) nName = Ok f ->
  0 <= t1 < T -> 0 <= i1 < La -> 0 <= j1 < Lo ->
  0 <= t2 < T -> 0 <= i2 < La -> 0 <= j2 < Lo ->
  indexOf f t1 i1 j1 = Some off1 ->
  indexOf f t2 i2 j2 = Some off2 ->
  (t1, i1, j1) <> (t2, i2, j2) ->
  off1 + nShortName f <= off2 \/ off2 + nShortName f <= off1.
Proof.
  intros Hload Ht1 Hi1 Hj1 Ht2 Hi2 Hj2 H1 H2 Hne.
  destruct (field_shape res nName f T La Lo Hload) as (_ & _ & Hc & _).
  rewrite (indexOf_value res nName f T La Lo Hload) in H1, H2.
  injection H1 as <-. injection H2 as <-.
  assert (Hc2 : 2 <= nShortName f) by (rewrite Hc; destruct (hasG f), (hasW f); lia).
  set (c1 := (t1 * La + i1) * Lo + j1). set (c2 := (t2 * La + i2) * Lo + j2).
  assert (Hcells : c1 <> c2).
  { intros Heq. apply Hne. subst c1 c2.
    destruct (Z.div_mod_unique Lo (t1 * La + i1) (t2 * La + i2) j1 j2) as [Hr ->];
      [lia|lia|lia|].
    destruct (Z.div_mod_unique La t1 t2 i1 i2) as [-> ->]; [lia|lia|lia|].
    reflexivity. }
  destruct (Z.lt_total c1 c2) as [Hlt|[Heq|Hgt]]; [left|contradiction|right]; nia.
Qed.

Lemma indexOf_cells_disjoint_witness :
  exists f : GribField,
    gribLoad (Cache.dumpOk 12) (Some 1) (Some 2) (Some 3) (Some 2) = Ok f /\
    indexOf f 0 0 2 = Some 4 /\ indexOf f 0 1 0 = Some 6 /\
    (4 + nShortName f <= 6 \/ 6 + nShortName f <= 4).
Proof.
  eexists. split; [reflexivity|]. split; [reflexivity|]. split; [reflexivity|].
  apply (indexOf_cells_disjoint (Cache.dumpOk 12) (Some 2) _ 1 2 3 0 0 2 0 1 0 4 6 eq_refl);
    try lia; try reflexivity; discriminate.
Defined.

End GribMore.

Module CacheMore.
Import Grib Cache CacheProofs.

Lemma forceReloadGrib_fetches_aux
    (model gribName : string) (onlyUV : bool) (w : World) :
  model <> ""%string \/ gribName <> ""%string ->
  exists gribParam : string,
    metaGribParam "grib" model gribName = Some gribParam /\
    forceReloadGrib model gribName onlyUV w =
      ({| gribCache := {| key := None; meta := MetaNull; field := FieldNull;
                          loading := true |};
          gribLimits := gribLimits w; dataGrib := dataGrib w; fields := fields w;
          requests := requests w ++ [ReqGrib gribParam] |},
       Suspended (AwaitMeta model gribName onlyUV)).
Proof.
  intros Hne.
  assert (Hp : exists gribParam, metaGribParam "grib" model gribName = Some gribParam).
  { unfold metaGribParam. destruct (String.eqb_spec model "") as [->|Hm]; cbn [negb];
      [|by eexists].
    destruct (String.eqb_spec gribName "") as [->|Hg]; [by destruct Hne|].
    destruct (_ || _); by eexists. }
  destruct Hp as [gp Hp]. exists gp. split; [exact Hp|].
  unfold forceReloadGrib, ensureGribLoaded, gribMetaAndLoad. cbn.
  by rewrite Hp.
Qed.

(** X8: forceReloadGrib always starts a new load, whatever the cache holds
    and even while another load is in progress: as soon as a model or a file
    name is given it sends a new meta request and waits for the answer, and
    in the meantime the cache entry is empty with its flag up. *)
Theorem forceReloadGrib_always_fetches
    (model gribName : string) (onlyUV : bool) (w : World) :
  model <> ""%string \/ gribName <> ""%string ->
  exists gribParam : string,
    metaGribParam "grib" model gribName = Some gribParam /\
    forceReloadGrib model gribName onlyUV w =
      ({| gribCache := {| key := None; meta := MetaNull; field := FieldNull;
                          loading := true |};
          gribLimits := gribLimits w; dataGrib := dataGrib w; fields := fields w;
          requests := requests w ++ [ReqGrib gribParam] |},
       Suspended (AwaitMeta model gribName onlyUV)).
Proof. apply forceReloadGrib_fetches_aux. Qed.

Lemma forceReloadGrib_always_fetches_witness :
  (forceReloadGrib "GFS" "" false (world loadedGfs)).2 =
    Suspended (AwaitMeta "GFS" "" false).
Proof.
  destruct (forceReloadGrib_always_fetches "GFS" "" false (world loadedGfs)
              ltac:(left; discriminate)) as (gp & _ & ->).
  reflexivity.
Defined.

(** X9: a load that fails on its meta response (transport error, unreadable
    body, server error field, empty meta) leaves the cache object, the
    shared meta object, dataGrib and the field objects exactly as they were
    before the call, and has sent the meta request only; the error is never
    one of the dump stage. *)
Theorem meta_failure_leaves_everything
    (model gribName : string) (onlyUV : bool)
    (w0 w1 w2 : World) (p1 : pending) (response : MetaResponse) (e : error) :
  ensureGribLoaded model gribName onlyUV w0 = (w1, Suspended p1) ->
  onMeta p1 response w1 = Some (w2, Done (Throws e)) ->
  gribCache w2 = gribCache w0 /\
  gribLimits w2 = gribLimits w0 /\
  dataGrib w2 = dataGrib w0 /\
  fields w2 = fields w0 /\
  (exists gribParam : string, requests w2 = requests w0 ++ [ReqGrib gribParam]) /\
  (e = HttpError "gribMetaAndLoad" (meta_status response) \/ e = JsonError \/
   e = EmptyMeta \/ exists v : jsval, e = ServerMetaError v).
Proof.
  intros H1 H2.
  destruct (ensureGribLoaded_suspends _ _ _ _ _ _ _ _ H1 H2) as (L & -> & gp & ->).
  cbn [onMeta] in H2. injection H2 as H2.
  assert (Hc : gribCache (set_loading false (fetch (ReqGrib gp) (set_loading true w0)))
               = gribCache w0).
  { cbn. destruct (gribCache w0) as [k m f l]. cbn in *. by rewrite L. }
  unfold gribMetaAndLoad_meta, ensure_around in H2.
  destruct (meta_ok response); cbn [negb] in H2.
  - destruct (meta_json response) as [data|].
    + destruct (truthy (data !! "_Error"%string)).
      * cbn in H2. injection H2 as <- <-. repeat split; eauto 10.
      * destruct (bool_decide (size data = 0%nat)).
        -- cbn in H2. injection H2 as <- <-. repeat split; eauto 10.
        -- cbn in H2. discriminate.
    + cbn in H2. injection H2 as <- <-. repeat split; eauto 10.
  - cbn in H2. injection H2 as <- <-. repeat split; eauto 10.
Qed.

Lemma meta_failure_leaves_everything_witness :
  let s := run loadedGfs [CallEnsure "ECMWF" "" false;
                          MetaArrives 1 {| meta_ok := false; meta_status := 503;
                                           meta_json := None |}] in
  gribCache (world s) = gribCache (world loadedGfs) /\
  gribLimits (world s) = gribLimits (world loadedGfs).
Proof.
  intros s.
  destruct (meta_failure_leaves_everything "ECMWF" "" false
              (world loadedGfs) _ (world s) _
              {| meta_ok := false; meta_status := 503; meta_json := None |}
              (HttpError "gribMetaAndLoad" 503) eq_refl eq_refl) as (Hc & Hl & _).
  split; assumption.
Defined.

(** X10: a load sends its two requests in order, the meta request first
    and the dump request, with the caller's onlyUV flag, only once a usable
    meta has arrived; when a model is given, or a file name that does not
    already start with a GRIB directory, both requests select the same
    GRIB. *)
Theorem load_requests_in_order
    (model gribName : string) (onlyUV : bool)
    (w0 w1 w2 : World) (p1 p2 : pending) (response : MetaResponse) :
  ensureGribLoaded model gribName onlyUV w0 = (w1, Suspended p1) ->
  onMeta p1 response w1 = Some (w2, Suspended p2) ->
  exists gribParam : string,
    metaGribParam "grib" model gribName = Some gribParam /\
    requests w1 = requests w0 ++ [ReqGrib gribParam] /\
    requests w2 = requests w0 ++
                  [ReqGrib gribParam;
                   ReqGribDump (dumpGribParam "grib" model gribName) onlyUV] /\
    (model <> ""%string \/
     (String.prefix "grib/" gribName = false /\
      String.prefix "currentgrib/" gribName = false) ->
     dumpGribParam "grib" model gribName = gribParam).
Proof.
  intros H1 H2.
  assert (Hp : exists gp, metaGribParam "grib" model gribName = Some gp /\
                          w1 = fetch (ReqGrib gp) (set_loading true w0)).
  { revert H1. unfold ensureGribLoaded. destruct (loading (gribCache w0)); [discriminate|].
    destruct (_ && _); [discriminate|].
    unfold gribMetaAndLoad. destruct (metaGribParam _ _ _) as [gp|] eqn:E.
    - cbn. intros [= <- <-]. eauto.
    - cbn. intros [= <- <-]. discriminate. }
  destruct Hp as (gp & Hgp & ->).
  destruct (ensureGribLoaded_suspends _ _ _ _ _ _ _ _ H1 H2) as (_ & -> & _).
  apply onMeta_suspends in H2 as (data & _ & -> & ->).
  exists gp. split; [exact Hgp|]. split; [reflexivity|]. split.
  - cbn. by rewrite <- app_assoc.
  - intros Hsame. revert Hgp. unfold metaGribParam, dumpGribParam.
    destruct (String.eqb_spec model "") as [->|Hm]; cbn [negb].
    + destruct Hsame as [Hm|[Hg Hc]]; [congruence|]. rewrite Hg, Hc. cbn [orb].
      destruct (String.eqb gribName ""); congruence.
    + congruence.
Qed.

Lemma load_requests_in_order_witness :
  let s := run boot [CallEnsure "" "gfs.grb" true;
                     MetaArrives 0 (metaOk (sampleMeta "gfs.grb" 1))] in
  requests (world s) =
    [ReqGrib "grib=grib/gfs.grb"; ReqGribDump "grib=grib/gfs.grb" true].
Proof.
  intros s.
  destruct (load_requests_in_order "" "gfs.grb" true initial _ (world s) _ _
              (metaOk (sampleMeta "gfs.grb" 1)) eq_refl eq_refl)
    as (gp & [= <-] & _ & Hr & Hsame).
  rewrite Hr. reflexivity.
Defined.

(** X11: the meta step of gribMetaAndLoad called for information only
    (load = false, as gribInfo does) sends no dump request and touches
    neither the cache object nor dataGrib, but on success it writes into the
    shared meta object: every key of the response takes the response's
    value and every other key keeps its old value, so fields of an earlier
    file that the new response lacks stay behind. *)
Theorem meta_only_merges_into_shared_meta
    (dir model gribName : string) (onlyUV : bool)
    (response : MetaResponse) (w : World) :
  let r := gribMetaAndLoad_meta dir model gribName false onlyUV response w in
  requests r.1 = requests w /\
  gribCache r.1 = gribCache w /\
  dataGrib r.1 = dataGrib w /\
  fields r.1 = fields w /\
  ((exists e : error, r.2 = MetaThrows e /\ r.1 = w) \/
   (exists data : gmap string jsval,
      meta_json response = Some data /\
      r.2 = MetaReturns MetaGribLimits (dataGrib w) /\
      forall k : string,
        gribLimits r.1 !! k =
          match data !! k with
          | Some v => Some v
          | None => gribLimits w !! k
          end)).
Proof.
  intros r. subst r. unfold gribMetaAndLoad_meta.
  destruct (negb (meta_ok response)); [repeat split; left; eauto|].
  destruct (meta_json response) as [data|]; [|repeat split; left; eauto].
  destruct (truthy _); [repeat split; left; eauto|].
  destruct (bool_decide _); [repeat split; left; eauto|].
  repeat split. right. exists data. repeat split.
  intros k. cbn. rewrite lookup_union.
  destruct (data !! k), (gribLimits w !! k); reflexivity.
Qed.

Lemma flag_has_owner_advance (s : System) (e : event) :
  flag_has_owner s -> flag_has_owner (advance s e).
Proof.
  unfold flag_has_owner. intros Hs.
  assert (Hcall : forall r : World * progress,
            (loading (gribCache r.1) = true ->
             is_suspended r.2 = true \/ (loading (gribCache (world s)) = true
                                         /\ r.1 = world s)) ->
            loading (gribCache (world (start s r))) = true ->
            (1 <= in_flight (calls (start s r)))%nat).
  { intros r Hr L. unfold start in *. cbn [world calls] in *. rewrite in_flight_app.
    destruct (Hr L) as [->|[L0 _]]; [lia|]. specialize (Hs L0). lia. }
  assert (Hens : forall (m g : string) (o : bool) (w : World),
            loading (gribCache (ensureGribLoaded m g o w).1) = true ->
            is_suspended (ensureGribLoaded m g o w).2 = true \/
            (loading (gribCache w) = true /\ (ensureGribLoaded m g o w).1 = w)).
  { intros m g o w. destruct (loading (gribCache w)) eqn:L.
    - rewrite ensureGribLoaded_busy by exact L. auto.
    - rewrite (ensureGribLoaded_idle m g o w L). auto. }
  assert (Hcont : forall (call : nat) (p : pending) (w' : World) (p' : progress),
            calls s !! call = Some (Suspended p) ->
            loading (gribCache w') =
              (if is_suspended p' then loading (gribCache (world s)) else false) ->
            loading (gribCache w') = true ->
            (1 <= in_flight (<[call := p']> (calls s)))%nat).
  { intros call p w' p' Hc Hl L. rewrite Hl in L.
    pose proof (in_flight_insert (calls s) call _ p' Hc) as Hi. cbn in Hi.
    destruct (is_suspended p'); [|discriminate]. specialize (Hs L). lia. }
  destruct e as [m g o|m g o|call response|call res|call]; cbn [advance].
  - apply Hcall, Hens.
  - apply Hcall. intros L. left. unfold forceReloadGrib in *.
    destruct (Hens m g o _ L) as [H|[H _]]; [exact H|discriminate].
  - destruct (calls s !! call) as [[o|p]|] eqn:Hc; try exact Hs.
    destruct (onMeta p response (world s)) as [[w' p']|] eqn:E; [|exact Hs].
    cbn. eapply Hcont; [exact Hc|]. by eapply onMeta_loading.
  - destruct (calls s !! call) as [[o|p]|] eqn:Hc; try exact Hs.
    destruct (onDump p res (world s)) as [[w' p']|] eqn:E; [|exact Hs].
    cbn. eapply Hcont; [exact Hc|]. by eapply onDump_loading.
  - destruct (calls s !! call) as [[o|p]|] eqn:Hc; try exact Hs.
    destruct (onFalse p (world s)) as [[w' p']|] eqn:E; [|exact Hs].
    cbn. eapply Hcont; [exact Hc|]. by eapply onFalse_loading.
Qed.

(** X12: in every execution, forceReloadGrib calls included, the loading
    flag is never left up with nothing in progress: whenever it is up at
    least one call is still waiting, so once every call has finished the
    next ensureGribLoaded is not turned away. *)
Theorem loading_flag_never_stuck (evs : list event) :
  let s := run boot evs in
  (loading (gribCache (world s)) = true -> (1 <= in_flight (calls s))%nat) /\
  (in_flight (calls s) = 0%nat -> loading (gribCache (world s)) = false).
Proof.
  intros s.
  assert (H : flag_has_owner s).
  { subst s. unfold run. generalize boot (ltac:(discriminate) : flag_has_owner boot).
    induction evs as [|e evs IH]; intros s0 H0; [exact H0|].
    cbn. apply IH. by apply flag_has_owner_advance. }
  split; [exact H|]. intros Hz. destruct (loading _) eqn:L; [|reflexivity].
  specialize (H L). lia.
Qed.

(* One call waiting: the flag is up and owned; and a first load that fails
   under a forced reload lowers the flag while the reload still waits. *)
Lemma loading_flag_never_stuck_witness :
  let s := run boot [CallEnsure "GFS" "" false; CallForceReload "GFS" "" false;
                     MetaArrives 0 {| meta_ok := false; meta_status := 500;
                                      meta_json := None |}] in
  loading (gribCache (world s)) = false /\
  (1 <= in_flight (calls (run boot [CallEnsure "GFS" "" false])))%nat.
Proof.
  intros s. split; [reflexivity|].
  exact (proj1 (loading_flag_never_stuck [CallEnsure "GFS" "" false]) eq_refl).
Defined.

(** X26: called with neither a model nor a file name while no load is in
    progress, ensureGribLoaded sends no request; when it resumes it returns
    undefined for meta and for field and stores them in the cache under
    the key "/?onlyUV=0|1", overwriting what the cache held; the same call
    made again is not served from that entry and goes the same way. *)
Theorem ensureGribLoaded_nothing_to_load (onlyUV : bool) (w : World) :
  loading (gribCache w) = false ->
  key (gribCache w) <> Some (cacheKey "" "" onlyUV) ->
  let emptied :=
    with_cache {| key := Some (cacheKey "" "" onlyUV); meta := MetaUndefined;
                  field := FieldUndefined; loading := false |} w in
  ensureGribLoaded "" "" onlyUV w =
    (set_loading true w, Suspended (AwaitFalse "" "" onlyUV)) /\
  onFalse (AwaitFalse "" "" onlyUV) (set_loading true w) =
    Some (emptied, Done (Returns MetaUndefined FieldUndefined)) /\
  requests emptied = requests w /\
  ensureGribLoaded "" "" onlyUV emptied =
    (set_loading true emptied, Suspended (AwaitFalse "" "" onlyUV)).
Proof.
  intros L K emptied. split; [|split; [|split]].
  - unfold ensureGribLoaded. rewrite L.
    rewrite bool_decide_eq_false_2 by exact K. reflexivity.
  - reflexivity.
  - reflexivity.
  - unfold ensureGribLoaded. cbn [emptied with_cache gribCache loading key meta present].
    by rewrite andb_false_r.
Qed.

Lemma ensureGribLoaded_nothing_to_load_witness :
  let s := run loadedGfs [CallEnsure "" "" false; Resumes 1] in
  calls s !! 1%nat = Some (Done (Returns MetaUndefined FieldUndefined)) /\
  (ensureGribLoaded "" "" false (world loadedGfs)).2 = Suspended (AwaitFalse "" "" false).
Proof.
  intros s. split; [vm_compute; reflexivity|].
  exact (f_equal snd (proj1 (ensureGribLoaded_nothing_to_load false (world loadedGfs)
                               eq_refl ltac:(vm_compute; discriminate)))).
Defined.

End CacheMore.

(* ===================================================================== *)
(* Properties of the GRIB choice after a route computation               *)
(* ===================================================================== *)

Module RouteWindProofs.
Import Grib Cache CacheProofs RouteWind.

Lemma includes_cons (a c : ascii) (s : string) :
  includes (String a s) c = Ascii.eqb c a || includes s c.
Proof. reflexivity. Qed.

Lemma split_nonempty (c : ascii) (s : string) : split c s <> [].
Proof.
  destruct s as [|a s]; [discriminate|]. cbn [split].
  destruct (Ascii.eqb a c); [discriminate|]. by destruct (split c s).
Qed.

(* splitting at the first separator *)
Lemma split_at_first (c : ascii) (a b : string) :
  includes a c = false -> split c (a +:+ String c b) = a :: split c b.
Proof.
  induction a as [|x a IH]; intros Hc.
  - change (split c (String c b) = EmptyString :: split c b).
    cbn [split]. by rewrite Ascii.eqb_refl.
  - rewrite includes_cons in Hc. apply orb_false_iff in Hc as [Hx Ha].
    change (split c (String x (a +:+ String c b)) = String x a :: split c b).
    cbn [split]. rewrite Ascii.eqb_sym, Hx. by rewrite (IH Ha).
Qed.

(* join undoes split *)
Lemma join_split (c : ascii) (s : string) : join c (split c s) = s.
Proof.
  induction s as [|a s IH]; [reflexivity|]. cbn [split].
  destruct (Ascii.eqb_spec a c) as [->|Hne].
  - destruct (split c s) as [|x xs] eqn:E; [by destruct (split_nonempty c s)|].
    change (join c (EmptyString :: x :: xs)) with (String c (join c (x :: xs))).
    by rewrite IH.
  - destruct (split c s) as [|x xs] eqn:E; [by destruct (split_nonempty c s)|].
    destruct xs as [|y ys].
    + cbn [join] in *. by rewrite IH.
    + change (join c (String a x :: y :: ys))
        with (String a (x +:+ String c (join c (y :: ys)))).
      change (join c (x :: y :: ys)) with (x +:+ String c (join c (y :: ys))) in IH.
      by rewrite IH.
Qed.

Lemma cachedName_reads_back_name_aux
    (model name : string) (onlyUV : bool) (m : metaRef) (f : fieldRef) (l : bool) :
  includes model "/"%char = false ->
  includes name "?"%char = false ->
  cachedName {| key := Some (cacheKey model name onlyUV); meta := m; field := f;
                loading := l |} = name.
Proof.
  intros Hm Hn. unfold cachedName, cacheKey. cbn [key].
  change ("/" +:+ name +:+ "?onlyUV=" +:+ (if onlyUV then "1" else "0"))%string
    with (String "/" (name +:+ String "?" ("onlyUV=" +:+ (if onlyUV then "1" else "0"))))%string.
  destruct (String.eqb_spec
    (model +:+ String "/" (name +:+ String "?" ("onlyUV=" +:+ (if onlyUV then "1" else "0"))))
    "") as [He|_].
  - destruct model; discriminate.
  - rewrite (split_at_first "/" model _ Hm). cbn [tl]. rewrite join_split.
    by rewrite (split_at_first "?" name _ Hn).
Qed.

(** X13: the file name computeRouteAndWind reads back from a cache key is
    the name the key was built from, provided the model holds no slash and
    the name no question mark. *)
Theorem cachedName_reads_back_name
    (model name : string) (onlyUV : bool) (m : metaRef) (f : fieldRef) (l : bool) :
  includes model "/"%char = false ->
  includes name "?"%char = false ->
  cachedName {| key := Some (cacheKey model name onlyUV); meta := m; field := f;
                loading := l |} = name.
Proof. apply cachedName_reads_back_name_aux. Qed.

Lemma cachedName_reads_back_name_witness :
  cachedName (gribCache (world loadedGfs)) = "gfs.grb"%string.
Proof.
  exact (cachedName_reads_back_name "GFS" "gfs.grb" false MetaGribLimits (FieldAt 0) false
           eq_refl eq_refl).
Defined.

Lemma append_inj_l (p a b : string) : p +:+ a = p +:+ b -> a = b.
Proof.
  induction p as [|x p IH]; [done|].
  change (String x (p +:+ a) = String x (p +:+ b) -> a = b). intros [= H]. by apply IH.
Qed.

Lemma length_append (a b : string) :
  String.length (a +:+ b) = (String.length a + String.length b)%nat.
Proof.
  induction a as [|x a IH]; [reflexivity|].
  change (S (String.length (a +:+ b)) = S (String.length a + String.length b)).
  by rewrite IH.
Qed.

Lemma append_inj_r (t a b : string) : a +:+ t = b +:+ t -> a = b.
Proof.
  revert b. induction a as [|x a IH]; intros [|y b] H.
  - reflexivity.
  - apply (f_equal String.length) in H.
    rewrite !length_append in H. cbn [String.length] in H. lia.
  - apply (f_equal String.length) in H.
    rewrite !length_append in H. cbn [String.length] in H. lia.
  - change (String x (a +:+ t) = String y (b +:+ t)) in H.
    injection H as -> H. by rewrite (IH b H).
Qed.

(* keys of one model and one flag differ as their file names do *)
Lemma cacheKey_inj (model a b : string) (onlyUV : bool) :
  cacheKey model a onlyUV = cacheKey model b onlyUV -> a = b.
Proof.
  unfold cacheKey. intros H. apply append_inj_l in H.
  change (String "/" (a +:+ "?onlyUV=" +:+ (if onlyUV then "1" else "0")) =
          String "/" (b +:+ "?onlyUV=" +:+ (if onlyUV then "1" else "0")))%string in H.
  injection H as H. by apply append_inj_r in H.
Qed.

(* a call at rest that finds another key sends the meta request *)
Lemma ensureGribLoaded_miss (model gribName : string) (onlyUV : bool) (w : World) :
  model <> ""%string \/ gribName <> ""%string ->
  loading (gribCache w) = false ->
  key (gribCache w) <> Some (cacheKey model gribName onlyUV) ->
  exists gribParam : string,
    metaGribParam "grib" model gribName = Some gribParam /\
    ensureGribLoaded model gribName onlyUV w =
      (fetch (ReqGrib gribParam) (set_loading true w),
       Suspended (AwaitMeta model gribName onlyUV)).
Proof.
  intros Hne Hl Hk.
  assert (Hp : exists gribParam, metaGribParam "grib" model gribName = Some gribParam).
  { unfold metaGribParam. destruct (String.eqb_spec model "") as [->|Hm]; cbn [negb];
      [|by eexists].
    destruct (String.eqb_spec gribName "") as [->|Hg]; [by destruct Hne|].
    destruct (_ || _); by eexists. }
  destruct Hp as [gp Hp]. exists gp. split; [exact Hp|].
  unfold ensureGribLoaded. rewrite Hl, bool_decide_eq_false_2 by exact Hk.
  cbn [andb]. unfold gribMetaAndLoad. by rewrite Hp.
Qed.

(** X14: the choice computeRouteAndWind makes between the cache and a
    reload, for a model that holds no slash and a loaded cache entry at
    rest whose key was built from this model, the flag onlyUV and a file
    name F that holds no question mark. The reload is forced exactly when
    the route's file name and F are both non-empty and differ. A route
    computed on F is served from the cache without any request. A route
    computed on another, non-empty file name always sends a new meta
    request and waits for it: through forceReloadGrib, the cache entry
    emptied first, when F is not empty, and through ensureGribLoaded, the
    cache entry kept during the load, when F is empty. *)
Theorem loadGribForRoute_reloads_on_new_file
    (model cached routeGribName : string) (onlyUV : bool) (w : World) (id : nat) :
  includes model "/"%char = false ->
  includes cached "?"%char = false ->
  gribCache w = {| key := Some (cacheKey model cached onlyUV); meta := MetaGribLimits;
                   field := FieldAt id; loading := false |} ->
  (needReload routeGribName (gribCache w) = true <->
   routeGribName <> ""%string /\ cached <> ""%string /\ routeGribName <> cached) /\
  (routeGribName = cached ->
   loadGribForRoute model routeGribName onlyUV w =
     (w, Done (Returns MetaGribLimits (FieldAt id)))) /\
  (routeGribName <> cached -> routeGribName <> ""%string ->
   exists gribParam : string,
     metaGribParam "grib" model routeGribName = Some gribParam /\
     (loadGribForRoute model routeGribName onlyUV w).2 =
       Suspended (AwaitMeta model routeGribName onlyUV) /\
     requests (loadGribForRoute model routeGribName onlyUV w).1 =
       requests w ++ [ReqGrib gribParam] /\
     (cached <> ""%string ->
      loadGribForRoute model routeGribName onlyUV w =
        forceReloadGrib model routeGribName onlyUV w /\
      gribCache (loadGribForRoute model routeGribName onlyUV w).1 =
        {| key := None; meta := MetaNull; field := FieldNull; loading := true |}) /\
     (cached = ""%string ->
      loadGribForRoute model routeGribName onlyUV w =
        ensureGribLoaded model routeGribName onlyUV w /\
      gribCache (loadGribForRoute model routeGribName onlyUV w).1 =
        {| key := Some (cacheKey model cached onlyUV); meta := MetaGribLimits;
           field := FieldAt id; loading := true |})).
Proof.
  intros Hm Hc Hw.
  assert (Hname : cachedName (gribCache w) = cached)
    by (rewrite Hw; by apply cachedName_reads_back_name_aux).
  assert (Hneed : needReload routeGribName (gribCache w) = true <->
                  routeGribName <> ""%string /\ cached <> ""%string /\
                  routeGribName <> cached).
  { unfold needReload. rewrite Hname, !andb_true_iff, !negb_true_iff, !String.eqb_neq.
    split; intros ((H1 & H2) & H3) || intros (H1 & H2 & H3); repeat split; congruence. }
  split; [exact Hneed|]. split.
  - intros ->. unfold loadGribForRoute.
    destruct (needReload cached (gribCache w)) eqn:E.
    + destruct (proj1 Hneed eq_refl) as (_ & _ & E'). congruence.
    + apply ensureGribLoaded_hit; by rewrite Hw.
  - intros Hne Hrne. unfold loadGribForRoute.
    destruct (needReload routeGribName (gribCache w)) eqn:E.
    + destruct (proj1 Hneed eq_refl) as (_ & Hcne & _).
      destruct (CacheMore.forceReloadGrib_fetches_aux model routeGribName onlyUV w)
        as (gp & Hgp & ->); [by right|].
      exists gp. cbn [fst snd requests gribCache].
      split; [exact Hgp|]. split; [reflexivity|]. split; [reflexivity|].
      split; [by intros _|]. intros Hce. congruence.
    + assert (Hce : cached = ""%string).
      { destruct (String.eqb_spec cached "") as [Hce|Hcne]; [exact Hce|].
        assert (false = true) by (by apply Hneed). discriminate. }
      destruct (ensureGribLoaded_miss model routeGribName onlyUV w)
        as (gp & Hgp & ->); [by right|by rewrite Hw| |].
      { rewrite Hw. cbn [key]. intros [= Hk]. apply cacheKey_inj in Hk. congruence. }
      exists gp. cbn [fst snd]. split; [exact Hgp|]. split; [reflexivity|].
      split; [reflexivity|]. split; [intros Hcne; congruence|].
      intros _. split; [reflexivity|]. cbn. by rewrite Hw.
Qed.

(* The cache loaded with gfs.grb: a route on gfs.grb is served from it, a
   route on another file forces a reload. *)
Lemma loadGribForRoute_reloads_on_new_file_witness :
  loadGribForRoute "GFS" "gfs.grb" false (world loadedGfs) =
    (world loadedGfs, Done (Returns MetaGribLimits (FieldAt 0))) /\
  requests (loadGribForRoute "GFS" "ecmwf.grb" false (world loadedGfs)).1 =
    requests (world loadedGfs) ++ [ReqGrib "model=GFS"].
Proof.
  pose proof (loadGribForRoute_reloads_on_new_file "GFS" "gfs.grb" "gfs.grb" false
                (world loadedGfs) 0 eq_refl eq_refl
                ltac:(vm_compute; reflexivity)) as (_ & Hsame & _).
  pose proof (loadGribForRoute_reloads_on_new_file "GFS" "gfs.grb" "ecmwf.grb" false
                (world loadedGfs) 0 eq_refl eq_refl
                ltac:(vm_compute; reflexivity)) as (_ & _ & Hother).
  split; [exact (Hsame eq_refl)|].
  destruct (Hother ltac:(discriminate) ltac:(discriminate)) as (gp & Hgp & _ & Hreq & _).
  injection Hgp as <-. exact Hreq.
Defined.

End RouteWindProofs.

(* ===================================================================== *)
(* Further properties of the playback controller                         *)
(* ===================================================================== *)

Module PlayerMore.
Import Player PlayerProofs PlayerView.

(** X15: the tick interval is armed exactly while the player is playing,
    after any sequence of calls with any arguments, failed calls
    included. *)
Theorem timer_armed_iff_playing (ops : list op) :
  timer (runCalls ops makePlayer) = playing (runCalls ops makePlayer).
Proof.
  unfold runCalls.
  assert (H : forall (s : State),
            timer s = playing s ->
            timer (fold_left (fun s o => (call o s).1) ops s) =
            playing (fold_left (fun s o => (call o s).1) ops s)).
  { induction ops as [|o ops IH]; intros s Hs; [exact Hs|].
    cbn [fold_left]. apply IH.
    assert (Hu : forall s' : State, timer s' = playing s' ->
                 timer (update s').1 = playing (update s').1).
    { intros s' Hs'. destruct (update_playing s') as [-> ->]. exact Hs'. }
    destruct o as [r|newK|dir| | | | |]; cbn [call fst].
    - unfold setRoute. by apply Hu.
    - unfold setIndex. destruct (route s); [|exact Hs]. by apply Hu.
    - unfold step. destruct (route s); [|exact Hs]. by apply Hu.
    - unfold tick. destruct (route s); [|reflexivity].
      destruct (Qle_bool _ _); [reflexivity|]. by apply Hu.
    - unfold gotoBeg. destruct (route s); [|exact Hs]. by apply Hu.
    - unfold gotoEnd. destruct (route s); [|exact Hs]. by apply Hu.
    - unfold togglePlay, play. destruct (playing s) eqn:P; [reflexivity|].
      destruct (route s); [reflexivity|congruence].
    - reflexivity. }
  by apply H.
Qed.

Lemma idle_call (o : op) (s : State) :
  is_setRoute o = false ->
  route s = None -> playing s = false -> timer s = false -> k s = 0%Q ->
  call o s = (s, Returned).
Proof.
  intros Ho Hr Hp Ht Hk. destruct s as [tm pl rt kk ou]. cbn in Hr, Hp, Ht, Hk. subst.
  by destruct o.
Qed.

(** X16: with no route attached and the player stopped, as after reset,
    every call other than setRoute returns normally and changes nothing:
    the index stays where it is, nothing is published, and play does not
    start. *)
Theorem no_route_nothing_happens (ops : list op) (s : State) :
  existsb is_setRoute ops = false ->
  runCalls ops (reset s) = reset s /\
  (forall o : op, is_setRoute o = false -> call o (reset s) = (reset s, Returned)) /\
  route (reset s) = None /\ k (reset s) = 0%Q /\ out (reset s) = out s.
Proof.
  intros Hops. split; [|split; [|done]].
  - induction ops as [|o ops IH]; [reflexivity|].
    cbn in Hops. apply orb_false_iff in Hops as [Ho Hops].
    unfold runCalls in *. cbn [fold_left]. rewrite (idle_call o (reset s)) by done.
    by apply IH.
  - intros o Ho. by apply idle_call.
Qed.

Lemma no_route_nothing_happens_witness :
  let s := runCalls [SetRoute (sampleRoute 3); TogglePlay; Tick] makePlayer in
  runCalls [TogglePlay; Step 1; SetIndex 2; Tick; GotoEnd] (reset s) = reset s.
Proof.
  intros s.
  exact (proj1 (no_route_nothing_happens
                  [TogglePlay; Step 1; SetIndex 2; Tick; GotoEnd] s eq_refl)).
Defined.

Lemma update_route (s : State) : route (update s).1 = route s.
Proof. unfold update. destruct (route s) as [r|] eqn:E; [|exact E]. by destruct (pts_at _ _). Qed.

Lemma tick_advances (r : RouteData) (s : State) (i : Z) :
  route s = Some r -> (k s == inject_Z i)%Q ->
  0 <= i < Z.of_nat (length (pts r)) - 1 ->
  (k (tick s).1 == inject_Z (i + 1))%Q /\ playing (tick s).1 = playing s /\
  timer (tick s).1 = timer s /\ route (tick s).1 = Some r.
Proof.
  intros Hr Hk Hi. unfold tick. rewrite Hr.
  rewrite (Qle_bool_inject _ _ _ i (lastIndex_inject r) Hk).
  destruct (Z.leb_spec (Z.of_nat (length (pts r)) - 1) i) as [Hle|_]; [lia|].
  rewrite update_k, update_route. destruct (update_playing (set_k (k s + 1) s)) as [-> ->].
  cbn [k set_k playing timer route]. repeat split; try assumption.
  by apply (plus_inject _ i 1).
Qed.

Lemma ticks_advance (r : RouteData) (j : nat) :
  forall (s : State) (i : Z),
    route s = Some r -> (k s == inject_Z i)%Q ->
    0 <= i -> i + Z.of_nat j <= Z.of_nat (length (pts r)) - 1 ->
    (k (runCalls (repeat Tick j) s) == inject_Z (i + Z.of_nat j))%Q /\
    playing (runCalls (repeat Tick j) s) = playing s /\
    timer (runCalls (repeat Tick j) s) = timer s /\
    route (runCalls (repeat Tick j) s) = Some r.
Proof.
  induction j as [|j IH]; intros s i Hr Hk H0 Hi.
  - cbn. rewrite Z.add_0_r. auto.
  - change (runCalls (repeat Tick (S j)) s) with (runCalls (repeat Tick j) (tick s).1).
    destruct (tick_advances r s i Hr Hk ltac:(lia)) as (Hk' & Hp & Ht & Hr').
    destruct (IH (tick s).1 (i + 1) Hr' Hk' ltac:(lia) ltac:(lia)) as (Hk2 & Hp2 & Ht2 & Hr2).
    rewrite Hp2, Ht2, Hp, Ht. repeat split; try assumption.
    rewrite Hk2. by replace (i + 1 + Z.of_nat j) with (i + Z.of_nat (S j)) by lia.
Qed.

(** X17: from position i of a route of n points, j ticks with i + j <= n-1
    bring the index to i + j and leave the player playing or stopped as it
    was; the tick that finds the index at n-1 stops the player, so n - i
    ticks end at the last index with the player stopped and its interval
    cleared. *)
Theorem ticks_run_to_the_end (r : RouteData) (s : State) (i : Z) :
  route s = Some r -> (k s == inject_Z i)%Q ->
  0 <= i < Z.of_nat (length (pts r)) ->
  let n := Z.of_nat (length (pts r)) in
  (forall j : nat,
     i + Z.of_nat j <= n - 1 ->
     (k (runCalls (repeat Tick j) s) == inject_Z (i + Z.of_nat j))%Q /\
     playing (runCalls (repeat Tick j) s) = playing s) /\
  (k (runCalls (repeat Tick (Z.to_nat (n - i))) s) == inject_Z (n - 1))%Q /\
  playing (runCalls (repeat Tick (Z.to_nat (n - i))) s) = false /\
  timer (runCalls (repeat Tick (Z.to_nat (n - i))) s) = false.
Proof.
  intros Hr Hk Hi n. split.
  - intros j Hj. destruct (ticks_advance r j s i Hr Hk ltac:(lia) Hj) as (H1 & H2 & _).
    by split.
  - replace (Z.to_nat (n - i)) with (Z.to_nat (n - 1 - i) + 1)%nat by lia.
    rewrite repeat_app. unfold runCalls. rewrite fold_left_app. fold (runCalls (repeat Tick (Z.to_nat (n - 1 - i))) s).
    destruct (ticks_advance r (Z.to_nat (n - 1 - i)) s i Hr Hk ltac:(lia) ltac:(lia))
      as (Hk' & _ & _ & Hr').
    set (s' := runCalls (repeat Tick (Z.to_nat (n - 1 - i))) s) in *.
    replace (i + Z.of_nat (Z.to_nat (n - 1 - i))) with (n - 1) in Hk' by lia.
    cbn [repeat fold_left call fst]. unfold tick. rewrite Hr'.
    rewrite (Qle_bool_inject _ _ _ (n - 1) (lastIndex_inject r) Hk').
    rewrite Z.leb_refl. cbn. by split.
Qed.

Lemma ticks_run_to_the_end_witness :
  let s := runCalls [SetRoute (sampleRoute 4); TogglePlay] makePlayer in
  (k (runCalls (repeat Tick 3) s) == 3)%Q /\ playing (runCalls (repeat Tick 3) s) = true /\
  playing (runCalls (repeat Tick 4) s) = false.
Proof.
  intros s.
  destruct (ticks_run_to_the_end (sampleRoute 4) s 0 eq_refl ltac:(reflexivity)
              ltac:(cbn; lia)) as (Hrun & _ & Hstop & _).
  destruct (Hrun 3%nat ltac:(cbn; lia)) as [H3 Hp].
  split; [exact H3|]. split; [exact Hp|exact Hstop].
Defined.

Lemma lastPublished_update (es : list effect) (e1 e3 : effect) (rs : RouteState) :
  e3 = Redraw -> lastPublished (es ++ [e1; SetRouteState rs; e3]) = Some rs.
Proof. intros ->. induction es as [|e es IH]; [by destruct e1|]. cbn. by rewrite IH. Qed.

Lemma update_in_sync (r : RouteData) (s : State) :
  in_range r s -> (update s).2 = Returned /\ in_sync (update s).1.
Proof.
  intros Hin. pose proof Hin as (Hr & i & Hk & Hi). unfold update. rewrite Hr.
  destruct (pts_at_integer (pts r) (k s) i Hk Hi) as (p & -> & _).
  split; [reflexivity|]. unfold in_sync. cbn [fst emit route k out]. rewrite Hr.
  split; [split; [exact Hr|by exists i]|]. by apply lastPublished_update.
Qed.

Lemma in_range_nonempty (r : RouteData) (s : State) : in_range r s -> pts r <> [].
Proof. intros (_ & i & _ & Hi) He. rewrite He in Hi. cbn in Hi. lia. Qed.

Lemma pageCall_in_sync (o : op) (s : State) :
  pageCall o = true -> in_sync s -> (call o s).2 = Returned /\ in_sync (call o s).1.
Proof.
  intros Ho Hs. unfold in_sync in Hs.
  destruct o as [r'|newK|dir| | | | |]; cbn [call].
  - (* setRoute *)
    cbn in Ho. apply negb_true_iff in Ho. apply bool_decide_eq_false in Ho.
    unfold setRoute. apply (update_in_sync r'). split; [reflexivity|].
    exists 0. split; [reflexivity|]. destruct (pts r'); [congruence|]. cbn [length]. lia.
  - (* setIndex *)
    unfold setIndex. destruct (route s) as [r|] eqn:Hr;
      [|split; [reflexivity|cbn [fst]; unfold in_sync; by rewrite Hr]].
    destruct Hs as [Hin _]. apply (update_in_sync r). split; [exact Hr|].
    apply (clamp_in_range r newK (Qfloor newK) (in_range_nonempty r s Hin)).
    by apply is_integer_inject.
  - (* step *)
    unfold step. destruct (route s) as [r|] eqn:Hr;
      [|split; [reflexivity|cbn [fst]; unfold in_sync; by rewrite Hr]].
    destruct Hs as [Hin _]. pose proof Hin as (_ & i & Hk & Hi).
    apply (update_in_sync r). split; [exact Hr|].
    cbn in Ho. apply orb_true_iff in Ho as [Hd|Hd]; apply Qeq_bool_iff in Hd.
    + apply (clamp_in_range r _ (i + 1) (in_range_nonempty r s Hin)). rewrite Hd.
      by apply plus_inject.
    + apply (clamp_in_range r _ (i + -1) (in_range_nonempty r s Hin)). rewrite Hd.
      by apply (plus_inject _ i (-1)).
  - (* tick *)
    unfold tick. destruct (route s) as [r|] eqn:Hr;
      [|split; [reflexivity|cbn [fst]; unfold in_sync; cbn [route stop]; by rewrite Hr]].
    destruct Hs as [Hin Hpub]. pose proof Hin as (_ & i & Hk & Hi).
    rewrite (Qle_bool_inject _ _ _ i (lastIndex_inject r) Hk).
    destruct (Z.leb_spec (Z.of_nat (length (pts r)) - 1) i) as [Hle|Hlt].
    + split; [reflexivity|]. unfold in_sync. cbn. rewrite Hr.
      split; [split; [exact Hr|by exists i]|exact Hpub].
    + apply (update_in_sync r). split; [exact Hr|]. exists (i + 1). split; [|lia].
      by apply (plus_inject _ i 1).
  - (* gotoBeg *)
    unfold gotoBeg. destruct (route s) as [r|] eqn:Hr;
      [|split; [reflexivity|cbn [fst]; unfold in_sync; by rewrite Hr]].
    destruct Hs as [Hin _]. pose proof Hin as (_ & i & Hk & Hi).
    apply (update_in_sync r). split; [exact Hr|]. exists 0. split; [reflexivity|lia].
  - (* gotoEnd *)
    unfold gotoEnd. destruct (route s) as [r|] eqn:Hr;
      [|split; [reflexivity|cbn [fst]; unfold in_sync; by rewrite Hr]].
    destruct Hs as [Hin _]. pose proof Hin as (_ & i & Hk & Hi).
    apply (update_in_sync r). split; [exact Hr|].
    exists (Z.of_nat (length (pts r)) - 1). split; [apply lastIndex_inject|lia].
  - (* togglePlay *)
    split; [reflexivity|]. cbn [fst]. unfold togglePlay, play, in_sync.
    destruct (playing s); [exact Hs|].
    destruct (route s) as [r|] eqn:Hr; cbn [route]; [|by rewrite Hr].
    destruct Hs as [(_ & Hex) Hpub]. split; [split; [reflexivity|exact Hex]|exact Hpub].
  - (* reset *)
    split; [reflexivity|exact I].
Qed.

(* a call that ends in update() publishes the index it leaves, whatever
   the wind layer held before *)
Lemma publishing_call_in_sync (o : op) (s : State) (r : RouteData) :
  pageCall o = true -> publishes o = true -> in_range r s -> in_sync (call o s).1.
Proof.
  intros Ho Hp Hin. pose proof Hin as (Hr & i & Hk & Hi).
  destruct o as [r'|newK|dir| | | | |]; try discriminate; cbn [call].
  - cbn in Ho. apply negb_true_iff in Ho. apply bool_decide_eq_false in Ho.
    unfold setRoute. apply (update_in_sync r'). split; [reflexivity|].
    exists 0. split; [reflexivity|]. destruct (pts r'); [congruence|]. cbn [length]. lia.
  - unfold setIndex. rewrite Hr. apply (update_in_sync r). split; [exact Hr|].
    apply (clamp_in_range r newK (Qfloor newK) (in_range_nonempty r s Hin)).
    by apply is_integer_inject.
  - unfold step. rewrite Hr. apply (update_in_sync r). split; [exact Hr|].
    cbn in Ho. apply orb_true_iff in Ho as [Hd|Hd]; apply Qeq_bool_iff in Hd.
    + apply (clamp_in_range r _ (i + 1) (in_range_nonempty r s Hin)). rewrite Hd.
      by apply plus_inject.
    + apply (clamp_in_range r _ (i + -1) (in_range_nonempty r s Hin)). rewrite Hd.
      by apply (plus_inject _ i (-1)).
  - unfold gotoBeg. rewrite Hr. apply (update_in_sync r). split; [exact Hr|].
    exists 0. split; [reflexivity|lia].
  - unfold gotoEnd. rewrite Hr. apply (update_in_sync r). split; [exact Hr|].
    exists (Z.of_nat (length (pts r)) - 1). split; [apply lastIndex_inject|lia].
Qed.

Lemma lastPublished_routeWindEnd (r : RouteData) (s : State) :
  lastPublished (out (routeWindEnd r s)) =
    Some {| rs_t0Epoch := t0Epoch r; rs_dtRoute := dtRoute r; rs_k := 0 |}.
Proof.
  unfold routeWindEnd, emit. cbn [out].
  induction (out s) as [|e es IH]; [reflexivity|]. cbn. by rewrite IH.
Qed.

(** X18: from a fresh player and for every sequence of calls the page makes
    on it (routes with points, integer slider positions, steps of one,
    ticks, play and pause, reset), while a route is attached the index is
    one of its positions and the route state the player last passed to
    windLayer.setRouteState is that route's start and step with the current
    index. The player is not the only writer of the wind layer:
    computeRouteAndWind, at the end of its GRIB load, passes its route with
    index 0 and leaves the player as it is, so the wind layer is then at
    index 0 whatever the player's index, until the next call that ends in
    update (setRoute, setIndex, step, gotoBeg, gotoEnd) publishes the
    player's index again. *)
Theorem player_publishes_current_index (ops : list op) :
  forallb pageCall ops = true ->
  let s := runCalls ops makePlayer in
  forall r : RouteData,
    route s = Some r ->
    in_range r s /\
    lastPublished (out s) =
      Some {| rs_t0Epoch := t0Epoch r; rs_dtRoute := dtRoute r; rs_k := k s |} /\
    forall r' : RouteData,
      let s' := routeWindEnd r' s in
      route s' = route s /\ k s' = k s /\
      playing s' = playing s /\ timer s' = timer s /\
      lastPublished (out s') =
        Some {| rs_t0Epoch := t0Epoch r'; rs_dtRoute := dtRoute r'; rs_k := 0 |} /\
      forall o : op,
        pageCall o = true -> publishes o = true ->
        forall r2 : RouteData,
          route (call o s').1 = Some r2 ->
          lastPublished (out (call o s').1) =
            Some {| rs_t0Epoch := t0Epoch r2; rs_dtRoute := dtRoute r2;
                    rs_k := k (call o s').1 |}.
Proof.
  intros Hops s.
  assert (Hs : in_sync s).
  { subst s. unfold runCalls. generalize makePlayer (I : in_sync makePlayer).
    induction ops as [|o ops IH]; intros s0 H0; [exact H0|].
    cbn in Hops. apply andb_true_iff in Hops as [Ho Hops].
    cbn [fold_left]. apply (IH Hops). by apply pageCall_in_sync. }
  intros r Hr. unfold in_sync in Hs. rewrite Hr in Hs. destruct Hs as [Hin Hpub].
  split; [exact Hin|]. split; [exact Hpub|].
  intros r' s'. split; [reflexivity|]. split; [reflexivity|].
  split; [reflexivity|]. split; [reflexivity|].
  split; [apply lastPublished_routeWindEnd|].
  intros o Ho Hp r2 Hr2.
  assert (Hin' : in_range r s') by exact Hin.
  pose proof (publishing_call_in_sync o s' r Ho Hp Hin') as Hsync.
  unfold in_sync in Hsync. rewrite Hr2 in Hsync. apply Hsync.
Qed.

(* A route of four points is attached and the page steps once while
   computeRouteAndWind waits for its GRIB: the player is at index 1 and has
   published it; the end of computeRouteAndWind then puts the wind layer
   at index 0, and the next step publishes index 2. *)
Lemma player_publishes_current_index_witness :
  let s := runCalls [SetRoute (sampleRoute 4); Step 1] makePlayer in
  let s' := routeWindEnd (sampleRoute 4) s in
  (k s == 1)%Q /\
  lastPublished (out s) = Some {| rs_t0Epoch := 0; rs_dtRoute := 3600; rs_k := k s |} /\
  lastPublished (out s') = Some {| rs_t0Epoch := 0; rs_dtRoute := 3600; rs_k := 0 |} /\
  lastPublished (out (call (Step 1) s').1) =
    Some {| rs_t0Epoch := 0; rs_dtRoute := 3600; rs_k := k (call (Step 1) s').1 |}.
Proof.
  intros s s'.
  destruct (player_publishes_current_index [SetRoute (sampleRoute 4); Step 1] eq_refl
              (sampleRoute 4) eq_refl) as (_ & Hpub & Hend).
  destruct (Hend (sampleRoute 4)) as (_ & _ & _ & _ & Hzero & Hnext).
  split; [reflexivity|]. split; [exact Hpub|]. split; [exact Hzero|].
  exact (Hnext (Step 1) eq_refl eq_refl (sampleRoute 4) eq_refl).
Defined.

End PlayerMore.

(* ===================================================================== *)
(* Properties of the routing request and of its response                 *)
(* ===================================================================== *)

Module RouteClientProofs.
Import RouteClient.

(** X19: when parseRouteResponse returns a route, the route has at least
    one point: one point for each row of the track of a boat entry of the
    response, whose key is not empty and whose start epoch and step are the
    route's; and a row of at least four numbers gives a point with latitude
    row[1], longitude row[2] and time start + row[3]. *)
Theorem parseRouteResponse_route_has_points (j : json) (r : RouteData) :
  parseRouteResponse j = inr r ->
  pts r <> [] /\
  exists (entries : list (string * value)) (key : string) (b : BoatResult)
         (rows : list (list Q)),
    j = Object entries /\ In (key, Boat b) entries /\ key <> ""%string /\
    track b = Some rows /\
    epochStart b = Some (t0Epoch r) /\ isocTimeStep b = Some (dtRoute r) /\
    length (pts r) = length rows /\
    forall (i : nat) (row : list Q),
      rows !! i = Some row ->
      pts r !! i = Some (toPoint (t0Epoch r) row) /\
      ((4 <= length row)%nat ->
       exists la lo dt : Q,
         row !! 1%nat = Some la /\ row !! 2%nat = Some lo /\ row !! 3%nat = Some dt /\
         toPoint (t0Epoch r) row =
           {| lat := Some la; lon := Some lo; t := Some (t0Epoch r + dt)%Q |}).
Proof.
  unfold parseRouteResponse. destruct j as [|entries]; [discriminate|].
  destruct (is_truthy _); [discriminate|].
  destruct (List.find _ entries) as [[key v]|] eqn:Ef; [|discriminate].
  apply List.find_some in Ef as [Hin Ht]. cbn [snd] in Ht.
  destruct (String.eqb_spec key "") as [|Hk]; [discriminate|].
  destruct v as [b|]; [|discriminate].
  destruct (epochStart b) as [t0|] eqn:E0; [|discriminate].
  destruct (isocTimeStep b) as [dt|] eqn:E1; [|discriminate].
  intros [= <-]. cbn [pts t0Epoch dtRoute].
  cbn in Ht. destruct (track b) as [[|row0 rows]|] eqn:Et; try discriminate.
  change (default [] (Some (row0 :: rows))) with (row0 :: rows).
  split; [discriminate|].
  exists entries, key, b, (row0 :: rows).
  split; [reflexivity|]. split; [exact Hin|]. split; [exact Hk|].
  split; [exact Et|]. split; [exact E0|]. split; [exact E1|].
  split; [by rewrite length_fmap|].
  intros i row Hrow. split.
  - rewrite list_lookup_fmap. by rewrite Hrow.
  - intros Hlen.
    destruct (lookup_lt_is_Some_2 row 1%nat) as [la Hla]; [lia|].
    destruct (lookup_lt_is_Some_2 row 2%nat) as [lo Hlo]; [lia|].
    destruct (lookup_lt_is_Some_2 row 3%nat) as [d Hd]; [lia|].
    exists la, lo, d. unfold toPoint. by rewrite Hla, Hlo, Hd.
Qed.

Lemma parseRouteResponse_route_has_points_witness :
  let boatResult := {| track := Some [[0; 45; -3; 0]; [1; 46; -4; 3600]]%Q;
                       epochStart := Some 1000%Q; isocTimeStep := Some 3600%Q;
                       currentGrib := ""; grib := "gfs.grb" |} in
  exists r : RouteData,
    parseRouteResponse (Object [("info"%string, Plain true); ("banane"%string, Boat boatResult)])
      = inr r /\ pts r <> [].
Proof.
  intros boatResult.
  set (j := Object [("info"%string, Plain true); ("banane"%string, Boat boatResult)]).
  assert (E : exists r : RouteData, parseRouteResponse j = inr r)
    by (eexists; reflexivity).
  destruct E as [r E]. exists r. split; [exact E|].
  exact (proj1 (parseRouteResponse_route_has_points j r E)).
Defined.

(** X20: what parseRouteResponse refuses: a body that is not an object, a
    response with a truthy _Error field even when it also holds a track,
    and a response none of whose entries is an object with a non-empty
    track; in each case an error is thrown and no route is returned. *)
Theorem parseRouteResponse_refuses (entries : list (string * value)) :
  parseRouteResponse NotObject = inl NotAJsonObject /\
  (is_truthy (property "_Error" entries) = true ->
   parseRouteResponse (Object entries) = inl ServerError) /\
  (is_truthy (property "_Error" entries) = false ->
   (forall (key : string) (v : value), In (key, v) entries -> has_track v = false) ->
   parseRouteResponse (Object entries) = inl MissingTrack).
Proof.
  split; [reflexivity|]. split.
  - intros He. unfold parseRouteResponse. by rewrite He.
  - intros He Hnone. unfold parseRouteResponse. rewrite He.
    destruct (List.find _ entries) as [[key v]|] eqn:Ef; [|reflexivity].
    apply List.find_some in Ef as [Hin Ht]. cbn in Ht.
    rewrite (Hnone key v Hin) in Ht. discriminate.
Qed.

Lemma parseRouteResponse_refuses_witness :
  parseRouteResponse (Object [("_Error"%string, Plain true)]) = inl ServerError /\
  parseRouteResponse (Object [("banane"%string,
                               Boat {| track := Some []; epochStart := Some 0%Q;
                                       isocTimeStep := Some 1%Q; currentGrib := "";
                                       grib := "" |})]) = inl MissingTrack.
Proof.
  split.
  - exact (proj1 (proj2 (parseRouteResponse_refuses
                           [("_Error"%string, Plain true)])) eq_refl).
  - apply (proj2 (proj2 (parseRouteResponse_refuses
                           [("banane"%string,
                             Boat {| track := Some []; epochStart := Some 0%Q;
                                     isocTimeStep := Some 1%Q; currentGrib := "";
                                     grib := "" |})])) eq_refl).
    intros key v [[= <- <-]|[]]. reflexivity.
Defined.

Lemma includes_append (a b : string) (c : ascii) :
  Grib.includes (a +:+ b) c = Grib.includes a c || Grib.includes b c.
Proof.
  induction a as [|x a IH]; [reflexivity|].
  change (String x a +:+ b) with (String x (a +:+ b)).
  rewrite !RouteWindProofs.includes_cons, IH. by rewrite orb_assoc.
Qed.

Lemma includes_concat (sep : string) (l : list string) (c : ascii) :
  Grib.includes sep c = false ->
  Forall (fun s => Grib.includes s c = false) l ->
  Grib.includes (String.concat sep l) c = false.
Proof.
  intros Hsep Hl. induction Hl as [|s l Hs Hl IH]; [reflexivity|].
  destruct l as [|s' l]; [exact Hs|].
  change (String.concat sep (s :: s' :: l)) with (s +:+ sep +:+ String.concat sep (s' :: l)).
  by rewrite !includes_append, Hs, Hsep, IH.
Qed.

(* a string without the separator is one piece *)
Lemma split_whole (c : ascii) (s : string) :
  Grib.includes s c = false -> RouteWind.split c s = [s].
Proof.
  induction s as [|x s IH]; [reflexivity|]. rewrite RouteWindProofs.includes_cons.
  intros H. apply orb_false_iff in H as [Hx Hs]. cbn [RouteWind.split].
  by rewrite Ascii.eqb_sym, Hx, (IH Hs).
Qed.

(* cutting a joined list at the separator gives the list back *)
Lemma split_concat (c : ascii) (l : list string) :
  l <> [] ->
  Forall (fun s => Grib.includes s c = false) l ->
  RouteWind.split c (String.concat (String c EmptyString) l) = l.
Proof.
  intros Hne Hl. induction Hl as [|s l Hs Hl IH]; [done|].
  destruct l as [|s' l]; [by apply split_whole|].
  change (String.concat (String c EmptyString) (s :: s' :: l))
    with (s +:+ String c (String.concat (String c EmptyString) (s' :: l))).
  rewrite (RouteWindProofs.split_at_first c s _ Hs). by rewrite IH.
Qed.

Section BodyProofs.
Variables (show : Q -> string) (REQ_ROUTING : string) (state : AppState).
Hypothesis show_plain : forall q : Q, Grib.includes (show q) "&"%char = false.
Hypothesis REQ_plain : Grib.includes REQ_ROUTING "&"%char = false.
Hypothesis model_plain : Grib.includes (st_model state) "&"%char = false.
Hypothesis polar_plain : Grib.includes (st_polar state) "&"%char = false.
Hypothesis wavePolar_plain : Grib.includes (st_wavePolar state) "&"%char = false.
Hypothesis currentGrib_plain : Grib.includes (st_currentGrib state) "&"%char = false.

Lemma encodeWaypoints_plain (wps : list (Q * Q)) :
  Grib.includes (encodeWaypoints show wps) "&"%char = false.
Proof.
  unfold encodeWaypoints. apply includes_concat; [reflexivity|].
  apply Forall_fmap, Forall_forall. intros p _. unfold compose.
  by rewrite !includes_append, !show_plain.
Qed.

(* no name holds an ampersand or an equals sign, no value an ampersand *)
Lemma routeParts_plain :
  Forall (fun kv : string * string =>
            Grib.includes kv.1 "&"%char = false /\
            Grib.includes kv.1 "="%char = false /\
            Grib.includes kv.2 "&"%char = false)
         (routeParts show REQ_ROUTING state).
Proof.
  unfold routeParts. apply Forall_app. split.
  - repeat (apply Forall_cons; split;
            [split; [reflexivity|split; [reflexivity|]]; cbn [snd];
             first [ apply show_plain | assumption | apply encodeWaypoints_plain
                   | by destruct (st_forbid state) | by destruct (st_withWaves state)
                   | by destruct (st_withCurrent state)
                   | by rewrite !includes_append, !show_plain ]|]).
    apply Forall_nil_2.
  - apply Forall_fmap, Forall_forall. intros kv Hkv. apply list_elem_of_In in Hkv.
    apply filter_In in Hkv as [Hkv _]. unfold compose. cbn [fst snd]. cbn in Hkv.
    repeat (destruct Hkv as [<-|Hkv];
            [split; [reflexivity|split; [reflexivity|]]; cbn [snd showValue];
             first [apply show_plain|reflexivity]|]).
    destruct Hkv.
Qed.

End BodyProofs.

(** X21: when no value sent holds an ampersand (the printed numbers, the
    request code, and the model, polar, wave polar and current GRIB names
    of the state), the body returned by buildRoutePostBody, cut at its
    ampersands, is one name=value piece for each parameter, and the names
    read off the pieces up to their first equals sign are all different,
    hold every name of the routeParam table, and model, timeStep and polar
    come with the state's value, not the table's. *)
Theorem buildRoutePostBody_names_once
    (show : Q -> string) (REQ_ROUTING : string) (state : AppState) :
  (forall q : Q, Grib.includes (show q) "&"%char = false) ->
  Grib.includes REQ_ROUTING "&"%char = false ->
  Grib.includes (st_model state) "&"%char = false ->
  Grib.includes (st_polar state) "&"%char = false ->
  Grib.includes (st_wavePolar state) "&"%char = false ->
  Grib.includes (st_currentGrib state) "&"%char = false ->
  let pieces := RouteWind.split "&" (buildRoutePostBody show REQ_ROUTING state) in
  let names := (fun piece => hd ""%string (RouteWind.split "=" piece)) <$> pieces in
  pieces = (fun kv => kv.1 +:+ "=" +:+ kv.2) <$> routeParts show REQ_ROUTING state /\
  names = fst <$> routeParts show REQ_ROUTING state /\
  NoDup names /\
  (forall name : string, In name (fst <$> routeParam) -> In name names) /\
  In ("model=" +:+ st_model state)%string pieces /\
  In ("timeStep=" +:+ show (st_timeStep state))%string pieces /\
  In ("polar=" +:+ st_polar state)%string pieces.
Proof.
  intros Hshow Hreq Hmodel Hpolar Hwave Hcur pieces names.
  pose proof (routeParts_plain show REQ_ROUTING state Hshow Hreq Hmodel Hpolar Hwave Hcur)
    as Hplain.
  assert (Hpieces : pieces = (fun kv => kv.1 +:+ "=" +:+ kv.2)
                               <$> routeParts show REQ_ROUTING state).
  { subst pieces. unfold buildRoutePostBody. apply split_concat.
    - unfold routeParts. discriminate.
    - apply Forall_fmap. eapply Forall_impl; [exact Hplain|].
      intros kv (Hk & _ & Hv). unfold compose. by rewrite !includes_append, Hk, Hv. }
  assert (Hnames : names = fst <$> routeParts show REQ_ROUTING state).
  { subst names. rewrite Hpieces, <- list_fmap_compose.
    apply Forall_fmap_ext_1. eapply Forall_impl; [exact Hplain|].
    intros kv (_ & Hk & _). unfold compose.
    change (kv.1 +:+ "=" +:+ kv.2) with (kv.1 +:+ String "=" kv.2).
    by rewrite (RouteWindProofs.split_at_first "=" kv.1 kv.2 Hk). }
  split; [exact Hpieces|]. split; [exact Hnames|].
  rewrite Hnames, Hpieces. split; [|split; [|split; [|split]]].
  - apply (bool_decide_unpack _). vm_compute. exact I.
  - intros name Hin. cbn in Hin. cbn.
    repeat (destruct Hin as [<-|Hin]; [tauto|]). destruct Hin.
  - cbn. tauto.
  - cbn. tauto.
  - cbn. tauto.
Qed.

Lemma buildRoutePostBody_names_once_witness :
  let state := {| boat := (45, -3)%Q; waypoints := [(46, -4)%Q]; startEpoch := 1000;
                  st_model := "ECMWF"; st_timeStep := 3600; st_polar := "pol/imoca.csv";
                  st_wavePolar := ""; st_currentGrib := ""; st_forbid := true;
                  st_withWaves := false; st_withCurrent := false;
                  st_xWind := 1; st_maxWind := 50; st_penalty0 := 0; st_penalty1 := 0;
                  st_penalty2 := 0; st_motorSpeed := 0; st_threshold := 0;
                  st_dayEfficiency := 1; st_nightEfficiency := 1; st_staminaVR := 100;
                  st_initialAmure := 0 |} in
  let show := fun q : Q => if Qeq_bool q 3600 then "3600"%string else "0"%string in
  In "timeStep=3600"%string (RouteWind.split "&" (buildRoutePostBody show "1" state)) /\
  In "model=ECMWF"%string (RouteWind.split "&" (buildRoutePostBody show "1" state)).
Proof.
  intros state show.
  destruct (buildRoutePostBody_names_once show "1" state
              ltac:(intros q; unfold show; by destruct (Qeq_bool q 3600))
              eq_refl eq_refl eq_refl eq_refl eq_refl)
    as (_ & _ & _ & _ & Hmodel & Hstep & _).
  split; [exact Hstep|exact Hmodel].
Defined.

(* Without the proviso the names need not be different: the body is joined
   without any encoding, and a polar name that holds an ampersand sends
   the name polar twice. *)
Lemma buildRoutePostBody_ampersand_in_value :
  let state := {| boat := (45, -3)%Q; waypoints := []; startEpoch := 1000;
                  st_model := "GFS"; st_timeStep := 3600; st_polar := "a&polar=b";
                  st_wavePolar := ""; st_currentGrib := ""; st_forbid := false;
                  st_withWaves := false; st_withCurrent := false;
                  st_xWind := 1; st_maxWind := 50; st_penalty0 := 0; st_penalty1 := 0;
                  st_penalty2 := 0; st_motorSpeed := 0; st_threshold := 0;
                  st_dayEfficiency := 1; st_nightEfficiency := 1; st_staminaVR := 100;
                  st_initialAmure := 0 |} in
  let names := (fun piece => hd ""%string (RouteWind.split "=" piece))
                 <$> RouteWind.split "&" (buildRoutePostBody (fun _ => "0"%string) "1" state) in
  List.count_occ String.string_dec names "polar"%string = 2%nat.
Proof. vm_compute. reflexivity. Qed.

End RouteClientProofs.

(* ===================================================================== *)
(* The status text of update()                                           *)
(* ===================================================================== *)

Module PlayerStatusProofs.
Import Player PlayerStatus.

(** X27: update() as a whole, run with a route attached at one of its
    positions and with lastRouteData a response that parseRouteResponse
    accepted: it leaves the state and makes the calls of its part up to
    windLayer.redraw(), which does not fail, and it ends with a TypeError,
    thrown by its status text, exactly when the page has a #status element
    and the first entry of the response is not an object.
    parseRouteResponse accepts such responses, as it takes the first entry
    that holds a track, not the first entry; when the first entry is an
    object, and so when the entry with the track comes first, update does
    not fail. *)
Theorem update_fails_on_first_entry
    (statusElement : bool) (j : RouteClient.json) (accepted : RouteClient.RouteData)
    (r : RouteData) (s : State) :
  RouteClient.parseRouteResponse j = inr accepted ->
  in_range r s ->
  let whole := update_whole statusElement (Some j) s in
  whole.1 = (update s).1 /\
  (update s).2 = Returned /\
  exists (key : string) (first : RouteClient.value)
         (rest : list (string * RouteClient.value)),
    j = RouteClient.Object ((key, first) :: rest) /\
    (whole.2 = TypeError <->
     statusElement = true /\ exists truthy : bool, first = RouteClient.Plain truthy) /\
    (whole.2 = Returned <->
     statusElement = false \/ exists boat : RouteClient.BoatResult,
                                first = RouteClient.Boat boat) /\
    (RouteClient.has_track first = true -> whole.2 = Returned).
Proof.
  intros Hparse Hin whole.
  destruct (PlayerProofs.update_in_range r s Hin) as [Hret _].
  pose proof Hin as (Hr & _).
  assert (Hwhole : whole = ((update s).1, statusBlock statusElement (Some j))).
  { subst whole. unfold update_whole. rewrite Hr.
    destruct (update s) as [s' c]. cbn in Hret. by rewrite Hret. }
  split; [by rewrite Hwhole|]. split; [exact Hret|].
  destruct j as [|entries]; [discriminate|].
  destruct entries as [|[key first] rest].
  { cbn in Hparse. discriminate. }
  exists key, first, rest. split; [reflexivity|].
  rewrite Hwhole. cbn [snd]. unfold statusBlock, getFirstBoatData.
  destruct statusElement, first as [boat|truthy]; cbn [RouteClient.has_track].
  - split; [split; [discriminate|by intros (_ & t & [=])]|].
    split; [split; [intros _; right; by exists boat|done]|done].
  - split; [split; [intros _; split; [done|by exists truthy]|done]|].
    split; [split; [discriminate|by intros [[=]|(b & [=])]]|discriminate].
  - split; [split; [discriminate|by intros ([=] & _)]|].
    split; [split; [by left|done]|done].
  - split; [split; [discriminate|by intros ([=] & _)]|].
    split; [split; [by left|done]|done].
Qed.

(* A response with a note before the boat is accepted, and with a #status
   element the update made on its route ends with a TypeError, after the
   index has been published. *)
Lemma update_fails_on_first_entry_witness :
  let s := (setRoute (sampleRoute 2) makePlayer).1 in
  (exists accepted, RouteClient.parseRouteResponse noteFirst = inr accepted) /\
  (update_whole true (Some noteFirst) s).2 = TypeError /\
  (update_whole true (Some noteFirst) s).1 = (update s).1.
Proof.
  intros s.
  assert (Hparse : exists a, RouteClient.parseRouteResponse noteFirst = inr a)
    by (eexists; reflexivity).
  destruct Hparse as [a Hparse].
  assert (Hin : in_range (sampleRoute 2) s).
  { split; [reflexivity|]. exists 0. split; [reflexivity|]. cbn. lia. }
  destruct (update_fails_on_first_entry true noteFirst a (sampleRoute 2) s Hparse Hin)
    as (Hstate & _ & key & first & rest & Hj & Hfail & _).
  split; [by exists a|]. split; [|exact Hstate].
  apply Hfail. split; [reflexivity|]. injection Hj as _ <- _. by exists true.
Defined.

End PlayerStatusProofs.

(* ===================================================================== *)
(* Properties of the time stamp summary and of the ports layer           *)
(* ===================================================================== *)

Module GribInfoProofs.
Import GribInfo.

(* along a progression the loop only moves [prev] *)
Lemma turns_along_progression (first step : Z) (after : Z) (m : nat) :
  forall (k : nat) (ts : option Z),
    (ts = None /\ k = 0%nat) \/ ts = Some step ->
    fold_left turn
      ((fun i : nat => first + Z.of_nat i * step) <$> seq (S k) m)
      {| start := first; prev := first + Z.of_nat k * step; timeStep := ts;
         diff := ts; afterStart := after; result := [] |} =
    {| start := first; prev := first + Z.of_nat (k + m) * step;
       timeStep := if m is O then ts else Some step;
       diff := if m is O then ts else Some step;
       afterStart := after; result := [] |}.
Proof.
  induction m as [|m IH]; intros k ts Hts.
  - cbn. by rewrite Nat.add_0_r.
  - cbn [seq fmap list_fmap fold_left].
    assert (Hturn : turn {| start := first; prev := first + Z.of_nat k * step;
                            timeStep := ts; diff := ts; afterStart := after;
                            result := [] |} (first + Z.of_nat (S k) * step) =
                    {| start := first; prev := first + Z.of_nat (S k) * step;
                       timeStep := Some step; diff := Some step; afterStart := after;
                       result := [] |}).
    { unfold turn. cbn [prev timeStep start afterStart result].
      replace (first + Z.of_nat (S k) * step - (first + Z.of_nat k * step)) with step by lia.
      destruct Hts as [[-> _]| ->]; cbn [default]; by rewrite Z.eqb_refl. }
    rewrite Hturn, (IH (S k) (Some step)) by (by right).
    replace (S k + m)%nat with (k + S m)%nat by lia. by destruct m.
Qed.

(** X22: a list of at least five time stamps in arithmetic progression with
    a non-zero step is condensed to its first term, its second term and its
    last term, as "[first, second..last]". *)
Theorem condenseTimeStamps_progression (first step : Z) (n : nat) :
  (5 <= n)%nat -> step <> 0 ->
  condenseTimeStamps (progression first step n) =
    ("[" +:+ (pretty first +:+ ", " +:+ pretty (first + step) +:+ ".." +:+
              pretty (first + Z.of_nat (n - 1) * step)) +:+ "]")%string.
Proof.
  intros Hn Hstep. destruct n as [|m]; [lia|].
  unfold progression. cbn [seq]. rewrite fmap_cons.
  replace (first + Z.of_nat 0 * step) with first by lia.
  set (rest := (fun i : nat => first + Z.of_nat i * step) <$> seq 1 m).
  unfold condenseTimeStamps.
  assert (Hlen : (length (first :: rest) <? 5)%nat = false).
  { apply Nat.ltb_ge. subst rest. cbn [length]. rewrite length_fmap, length_seq. lia. }
  rewrite Hlen.
  pose proof (turns_along_progression first step (nth 1 (first :: rest) 0)
                m 0%nat None ltac:(by left)) as Hfold.
  replace (first + Z.of_nat 0 * step) with first in Hfold by lia.
  fold rest in Hfold. rewrite Hfold. cbn [start prev diff result].
  destruct m as [|m']; [lia|]. change (default 0 (Some step)) with step.
  assert (Hne : (first + Z.of_nat (0 + S m') * step =? first) = false)
    by (apply Z.eqb_neq; nia).
  rewrite Hne. cbn [negb app String.concat].
  replace (S (S m') - 1)%nat with (0 + S m')%nat by lia. reflexivity.
Qed.

Lemma condenseTimeStamps_progression_witness :
  condenseTimeStamps [0; 3; 6; 9; 12; 15] = "[0, 3..15]"%string.
Proof.
  exact (condenseTimeStamps_progression 0 3 6 ltac:(lia) ltac:(lia)).
Defined.

End GribInfoProofs.

Module PortsProofs.
Import Ports.

(** X23: after updatePortsVisibility the ports layer is on the map exactly
    from zoom 7 on, whatever it was before; from zoom 7 on every name is
    shown exactly from zoom 11 on, and below zoom 7 the names are left as
    they were; calling it again at the same zoom changes nothing. *)
Theorem updatePortsVisibility_follows_zoom (z : Q) (s : View) :
  let s' := updatePortsVisibility z s in
  (layerOnMap s' = true <-> (7 <= z)%Q) /\
  ((7 <= z)%Q ->
   length (tooltipOpen s') = length (tooltipOpen s) /\
   forall open : bool, In open (tooltipOpen s') -> (open = true <-> (11 <= z)%Q)) /\
  ((z < 7)%Q -> tooltipOpen s' = tooltipOpen s) /\
  updatePortsVisibility z s' = s'.
Proof.
  intros s'. subst s'. unfold updatePortsVisibility, ZOOM_SHOW_MARKERS, ZOOM_SHOW_NAMES.
  destruct (Qle_bool 7 z) eqn:E7.
  - pose proof (proj1 (Qle_bool_iff _ _) E7) as H7. cbn [layerOnMap tooltipOpen negb andb].
    split; [|split; [|split]].
    + by destruct (layerOnMap s).
    + intros _. split; [by rewrite length_fmap|].
      intros open Hin. apply list_elem_of_In, list_elem_of_fmap in Hin as (x & -> & _).
      split; [apply Qle_bool_iff|intros H; by apply Qle_bool_iff].
    + intros Hlt. lra.
    + f_equal; [by destruct (layerOnMap s)|].
      rewrite <- list_fmap_compose. reflexivity.
  - assert (H7 : (z < 7)%Q) by (by apply WindLayerProofs.Qle_bool_false).
    cbn [layerOnMap tooltipOpen negb andb].
    split; [|split; [|split]].
    + destruct (layerOnMap s); cbn; split; intros; try discriminate; lra.
    + intros Hle. lra.
    + reflexivity.
    + f_equal. by destruct (layerOnMap s).
Qed.

Lemma updatePortsVisibility_follows_zoom_witness :
  updatePortsVisibility 12 {| layerOnMap := false; tooltipOpen := [false; true] |} =
    {| layerOnMap := true; tooltipOpen := [true; true] |} /\
  length (tooltipOpen (updatePortsVisibility 12
            {| layerOnMap := false; tooltipOpen := [false; true] |})) = 2%nat.
Proof.
  split; [reflexivity|].
  exact (proj1 (proj1 (proj2 (updatePortsVisibility_follows_zoom 12
           {| layerOnMap := false; tooltipOpen := [false; true] |})) ltac:(discriminate))).
Defined.

End PortsProofs.

(* ===================================================================== *)
(* Further properties of the wind barb                                   *)
(* ===================================================================== *)

Module WindBarbMore.
Import WindBarb WindBarbProofs WindBarbView.

Lemma floor_bounds (q : Q) : (inject_Z (Qfloor q) <= q)%Q /\ (q < inject_Z (Qfloor q) + 1)%Q.
Proof.
  split; [apply Qfloor_le|].
  pose proof (Qlt_floor q) as H. rewrite inject_Z_plus in H. exact H.
Qed.

Lemma barbCounts_bounds (speedKts : Q) :
  let n50 := inject_Z (barbCounts speedKts).1.1 in
  let n10 := inject_Z (barbCounts speedKts).1.2 in
  (0 <= n10)%Q /\ (n10 <= 4)%Q /\
  (50 * n50 + 10 * n10 <= speedKts)%Q /\
  (speedKts < 50 * n50 + 10 * n10 + 10)%Q /\
  ((barbCounts speedKts).2 = true <-> (50 * n50 + 10 * n10 + 5 <= speedKts)%Q).
Proof.
  unfold barbCounts. cbn [fst snd].
  set (n50 := Qfloor (speedKts / 50)).
  set (rem := (speedKts - inject_Z n50 * 50)%Q).
  set (n10 := Qfloor (rem / 10)).
  destruct (floor_bounds (speedKts / 50)) as [H1 H2]. fold n50 in H1, H2.
  destruct (floor_bounds (rem / 10)) as [H3 H4]. fold n10 in H3, H4.
  assert (E50 : (speedKts == speedKts / 50 * 50)%Q) by (field).
  assert (E10 : (rem == rem / 10 * 10)%Q) by (field).
  assert (Hr0 : (0 <= rem)%Q) by (subst rem; lra).
  assert (Hr50 : (rem < 50)%Q) by (subst rem; lra).
  assert (Hn0 : (0 <= inject_Z n10)%Q).
  { change 0%Q with (inject_Z 0). rewrite <- Zle_Qle. subst n10.
    change 0 with (Qfloor 0). apply Qfloor_resp_le. lra. }
  assert (Hn4 : (inject_Z n10 <= 4)%Q).
  { change 4%Q with (inject_Z 4). rewrite <- Zle_Qle.
    assert (Hlt : (inject_Z n10 < inject_Z 5)%Q) by (change (inject_Z 5) with 5%Q; lra).
    rewrite <- Zlt_Qlt in Hlt. lia. }
  split; [exact Hn0|]. split; [exact Hn4|].
  split; [subst rem; lra|]. split; [subst rem; lra|].
  rewrite Qle_bool_iff. subst rem. split; intros; lra.
Qed.

(** X24: for every speed the barb counts are a decomposition of the speed:
    between 0 and 4 ten-knot barbs, with 50 n50 + 10 n10 at most the speed
    and less than 10 below it, and the half-barb exactly when at least 5
    knots remain; the number of pennants is not negative when the speed is
    not. *)
Theorem barbCounts_decompose (speedKts : Q) :
  let n50 := (barbCounts speedKts).1.1 in
  let n10 := (barbCounts speedKts).1.2 in
  let has5 := (barbCounts speedKts).2 in
  0 <= n10 <= 4 /\
  (inject_Z (50 * n50 + 10 * n10) <= speedKts)%Q /\
  (speedKts < inject_Z (50 * n50 + 10 * n10 + 10))%Q /\
  (has5 = true <-> (inject_Z (50 * n50 + 10 * n10 + 5) <= speedKts)%Q) /\
  ((0 <= speedKts)%Q -> 0 <= n50).
Proof.
  intros n50 n10 has5.
  destruct (barbCounts_bounds speedKts) as (H0 & H4 & Hlo & Hhi & H5).
  fold n50 n10 has5 in H0, H4, Hlo, Hhi, H5.
  assert (E : forall c : Z,
            (inject_Z (50 * n50 + 10 * n10 + c) ==
             50 * inject_Z n50 + 10 * inject_Z n10 + inject_Z c)%Q).
  { intros c. rewrite !inject_Z_plus, !inject_Z_mult. reflexivity. }
  pose proof (E 0) as E0. rewrite Z.add_0_r in E0.
  split.
  - change 0%Q with (inject_Z 0) in H0. change 4%Q with (inject_Z 4) in H4.
    rewrite <- Zle_Qle in H0, H4. lia.
  - split; [rewrite E0; change (inject_Z 0) with 0%Q; lra|].
    split; [rewrite E; change (inject_Z 10) with 10%Q; lra|].
    split; [rewrite E; change (inject_Z 5) with 5%Q; exact H5|].
    intros Hs.
    assert (Hlt : (inject_Z (-1) < inject_Z n50)%Q) by (change (inject_Z (-1)) with (-1)%Q; lra).
    rewrite <- Zlt_Qlt in Hlt. lia.
Qed.

Lemma barbCounts_decompose_witness :
  0 <= (barbCounts 37.5).1.1 /\ barbCounts 37.5 = (0, 3, true).
Proof.
  split; [|reflexivity].
  exact (proj2 (proj2 (proj2 (proj2 (barbCounts_decompose 37.5)))) ltac:(discriminate)).
Defined.

Lemma countOps_app (p : canvasOp -> bool) (a b : list canvasOp) :
  countOps p (a ++ b) = (countOps p a + countOps p b)%nat.
Proof. unfold countOps. by rewrite List.filter_app, length_app. Qed.

Lemma flags_count (p : canvasOp -> bool) (draw : Q -> list canvasOp) (c : nat) :
  (forall o : Q, countOps p (draw o) = c) ->
  forall (n : nat) (o : Q), countOps p (flags draw n o).1 = (n * c)%nat.
Proof.
  intros Hc. induction n as [|n IH]; intros o; [reflexivity|].
  cbn [flags fst]. by rewrite countOps_app, Hc, IH.
Qed.

(** X25: a wind of at least 2 knots, drawn from a vector of length at
    least 0.5, is drawn with exactly one filled triangle for each pennant
    counted, and one stroke for the shaft, for each pennant, for each barb
    and for the half-barb. *)
Theorem drawWindBarb_draws_what_it_counts
    (MS_TO_KN : Q) (sqrt : Q -> Q) (x y u v : Q) :
  (2 <= windSpeedKts MS_TO_KN sqrt u v)%Q ->
  (0.5 <= sqrt (u * u + v * v))%Q ->
  let counts := barbCounts (windSpeedKts MS_TO_KN sqrt u v + 2.5) in
  countOps is_fill (drawWindBarb MS_TO_KN sqrt x y u v) = Z.to_nat counts.1.1 /\
  countOps is_stroke (drawWindBarb MS_TO_KN sqrt x y u v) =
    (1 + Z.to_nat counts.1.1 + Z.to_nat counts.1.2 + (if counts.2 then 1 else 0))%nat.
Proof.
  intros Hs Hm counts. unfold drawWindBarb.
  apply Qltb_false in Hs, Hm. rewrite Hs, Hm. fold counts.
  destruct counts as [[n50 n10] has5]. cbn [fst snd].
  set (fr := windFrame sqrt x y u v).
  rewrite !countOps_app.
  rewrite !(flags_count is_fill (pennant fr) 1), !(flags_count is_fill (barb fr barbLength) 0),
          !(flags_count is_stroke (pennant fr) 1), !(flags_count is_stroke (barb fr barbLength) 1)
    by reflexivity.
  destruct has5; cbn; lia.
Qed.

Lemma drawWindBarb_draws_what_it_counts_witness :
  countOps is_fill (drawWindBarb sampleMsToKn sqrtOnSquares 0 0 0 (63 / sampleMsToKn)) = 1%nat /\
  countOps is_stroke (drawWindBarb sampleMsToKn sqrtOnSquares 0 0 0 (63 / sampleMsToKn)) = 4%nat.
Proof.
  apply (drawWindBarb_draws_what_it_counts sampleMsToKn sqrtOnSquares 0 0 0
           (63 / sampleMsToKn)); vm_compute; congruence.
Defined.

End WindBarbMore.
